(** * spopt.locate: coverage and dispersion model builders

    A shallow embedding of [spopt/locate/coverage.py] (classes [LSCP],
    [LSCPB], [MCLP]) and [spopt/locate/p_dispersion.py] (class
    [PDispersion]).

    - numpy [float64] values are primitive binary64 floats, compared with
      IEEE comparisons ([nan <= r] is [false], as in numpy);
    - Python exceptions are values of [Exn]; a method is a state and error
      computation on the object it mutates, and the state it reached is
      kept when an exception is raised (assignments already made to
      [self] stay);
    - attributes set dynamically ([fac_vars], [aij], [fac2cli], ...) are
      [option] fields, and reading an unset one raises [AttributeError];
    - decision variables are shared between a model and its [pulp]
      problem: the values the solver settles live in one store of the
      problem, indexed by the identity of the variable;
    - the solver, [cdist] and the geometry library are external: a solver
      is a function from a problem to a status and values, [cdist] is a
      parameter, and a geometry is what the code observes of it;
    - [spopt/locate/base.py] and [spopt/locate/p_median.py] are not among
      the sources: what the classes call from them is modelled from the
      specification, each definition saying so. *)

From Stdlib Require Import ZArith Floats Lia Ascii.
From stdpp Require Import base list strings gmap pretty sorting.

Set Default Proof Using "Type".

(** ** Exceptions and the state and error monad *)

Inductive Exn : Type :=
| ValueError (msg : string)
| RuntimeError (msg : string)
| AttributeError (attr : string)
| KeyError (key : string)
| IndexError
| TypeError.

Definition Eff (S A : Type) : Type := S → (Exn + A) * S.

Definition ret {S A} (a : A) : Eff S A := λ s, (inr a, s).
Definition raise {S A} (e : Exn) : Eff S A := λ s, (inl e, s).
Definition bind {S A B} (m : Eff S A) (k : A → Eff S B) : Eff S B :=
  λ s, match m s with
       | (inl e, s') => (inl e, s')
       | (inr a, s') => k a s'
       end.
Definition get {S} : Eff S S := λ s, (inr s, s).
Definition modify {S} (f : S → S) : Eff S unit := λ s, (inr tt, f s).
Definition lift {S A} (r : Exn + A) : Eff S A := λ s, (r, s).

Notation "'let*' x ':=' m 'in' k" := (bind m (λ x, k))
  (at level 10, x pattern, m at level 100, k at level 200).

(** [for x in xs: body(x)] and a loop that carries local variables. *)
Fixpoint for_each {S A} (xs : list A) (body : A → Eff S unit) : Eff S unit :=
  match xs with
  | [] => ret tt
  | x :: xs' => let* _ := body x in for_each xs' body
  end.

Fixpoint foldM {S A B} (body : B → A → Eff S B) (xs : list A) (acc : B) : Eff S B :=
  match xs with
  | [] => ret acc
  | x :: xs' => let* acc' := body acc x in foldM body xs' acc'
  end.

(** Pure computations that may raise. *)
Definition ebind {A B} (r : Exn + A) (k : A → Exn + B) : Exn + B :=
  match r with inl e => inl e | inr a => k a end.

Fixpoint efold {A B} (body : B → A → Exn + B) (xs : list A) (acc : B) : Exn + B :=
  match xs with
  | [] => inr acc
  | x :: xs' => ebind (body acc x) (efold body xs')
  end.

(** [range(n)] *)
Definition range (n : nat) : list nat := seq 0 n.

(** [getattr(self, attr)] on a dynamically set attribute. *)
Definition getattr {S A} (field : S → option A) (attr : string) : Eff S A :=
  λ s, match field s with
       | Some a => (inr a, s)
       | None => (inl (AttributeError attr), s)
       end.

(** [xs[i]] on a Python list, with a non-negative index. *)
Definition getitem {A} (xs : list A) (i : nat) : Exn + A :=
  match xs !! i with Some x => inr x | None => inl IndexError end.

(** ** numpy 2D arrays *)

Record ndarray (A : Type) : Type := mk_ndarray {
  shape : nat * nat;
  data : list (list A)
}.
Arguments mk_ndarray {A} _ _.
Arguments shape {A} _.
Arguments data {A} _.

(** The rows and columns agree with the shape, as numpy guarantees. *)
Definition ndarray_ok {A} (a : ndarray A) : Prop :=
  length (data a) = (shape a).1 ∧ Forall (λ row, length row = (shape a).2) (data a).

(** [a[i][j]] *)
Definition getitem2 {A} (a : ndarray A) (i j : nat) : Exn + A :=
  ebind (getitem (data a) i) (λ row, getitem row j).

(** [np.zeros(shape)] *)
Definition np_zeros (sh : nat * nat) : ndarray float :=
  mk_ndarray sh (replicate sh.1 (replicate sh.2 0%float)).

(** [a <= r], elementwise against a scalar. *)
Definition np_le (a : ndarray float) (r : float) : ndarray bool :=
  mk_ndarray (shape a) (map (map (λ c, (c <=? r)%float)) (data a)).

(** [a[mask] = v] with a boolean mask; numpy refuses a mask of another
    shape. *)
Definition setitem_mask (a : ndarray float) (mask : ndarray bool) (v : float)
  : Exn + ndarray float :=
  if decide (shape mask = shape a) then
    inr (mk_ndarray (shape a)
           (zip_with (zip_with (λ (x : float) (m : bool), if m then v else x))
              (data a) (data mask)))
  else inl IndexError.

(** [a.max()] of a non-empty array; numpy raises [ValueError] on an empty
    one. *)
Definition np_max (a : ndarray float) : Exn + float :=
  match concat (data a) with
  | [] => inl (ValueError "zero-size array to reduction operation maximum")
  | x :: xs => inr (foldl (λ m y, if (m <? y)%float then y else m) x xs)
  end.

(** ** The [pulp] interface

    The solver is opaque: it maps a problem to a status and a settled
    value for every decision variable. *)

Inductive LpStatus : Type :=
| LpStatusNotSolved
| LpStatusOptimal
| LpStatusInfeasible
| LpStatusUnbounded
| LpStatusUndefined.

(** [pulp.constants.LpStatus[status]] *)
Definition LpStatus_name (st : LpStatus) : string :=
  match st with
  | LpStatusNotSolved => "Not Solved"
  | LpStatusOptimal => "Optimal"
  | LpStatusInfeasible => "Infeasible"
  | LpStatusUnbounded => "Unbounded"
  | LpStatusUndefined => "Undefined"
  end.

Inductive LpSense : Type := LpMinimize | LpMaximize.
Inductive LpCategory : Type := LpInteger | LpContinuous.

(** The identity of a decision variable: its role and index. *)
Inductive DecisionVariable : Type :=
| FacilityVar (j : nat)
| ClientVar (i : nat)
| DisperseVar.

Record LpVariable : Type := mk_LpVariable {
  var_id : DecisionVariable;
  var_name : string;
  lowBound : option float;
  upBound : option float;
  cat : LpCategory
}.

(** [constant + sum(coef * var)] *)
Record LpAffineExpression : Type := mk_expr {
  terms : list (float * LpVariable);
  constant : float
}.

Inductive LpConstraintSense : Type :=
| LpConstraintLE
| LpConstraintEQ
| LpConstraintGE.

(** [lhs <= rhs], [lhs == rhs] or [lhs >= rhs], with its name. *)
Record LpConstraint : Type := mk_constraint {
  c_lhs : LpAffineExpression;
  c_sense : LpConstraintSense;
  c_rhs : LpAffineExpression;
  c_name : string
}.

Definition VarStore : Type := DecisionVariable → float.

Record LpProblem : Type := mk_LpProblem {
  p_name : string;
  p_sense : LpSense;
  objective : option LpAffineExpression;
  constraints : list LpConstraint;
  status : LpStatus;
  varValue : option VarStore
}.

(** [pulp.LpProblem(name, sense)] *)
Definition new_LpProblem (name : string) (sense : LpSense) : LpProblem :=
  mk_LpProblem name sense None [] LpStatusNotSolved None.

(** [problem += expr, "objective function"] *)
Definition set_objective (e : LpAffineExpression) (p : LpProblem) : LpProblem :=
  mk_LpProblem (p_name p) (p_sense p) (Some e) (constraints p) (status p) (varValue p).

(** [problem += constraint] *)
Definition add_constraint (c : LpConstraint) (p : LpProblem) : LpProblem :=
  mk_LpProblem (p_name p) (p_sense p) (objective p) (constraints p ++ [c])
    (status p) (varValue p).

Record Solution : Type := mk_Solution {
  sol_status : LpStatus;
  sol_values : VarStore
}.

Definition LpSolver : Type := LpProblem → Solution.

(** [problem.solve(solver)]: the status is recorded and every variable of
    the problem receives its value. *)
Definition LpProblem_solve (solver : LpSolver) (p : LpProblem) : LpProblem :=
  let s := solver p in
  mk_LpProblem (p_name p) (p_sense p) (objective p) (constraints p)
    (sol_status s) (Some (sol_values s)).

(** [expr.value()] once the variables have values:
    [s = constant; for v, x in items: s += v.varValue * x]. *)
Definition expr_value (σ : VarStore) (e : LpAffineExpression) : float :=
  foldl (λ s t, (s + σ (var_id t.2) * t.1)%float) (constant e) (terms e).

(** [pulp.lpSum(vars)] *)
Definition lpSum (vars : list LpVariable) : LpAffineExpression :=
  mk_expr (map (λ v, (1%float, v)) vars) 0%float.

(** A numeric constant as an expression. *)
Definition lpConst (c : float) : LpAffineExpression := mk_expr [] c.

(** ** Model instances

    One record for the objects of the [LocateSolver] classes: the
    attributes of [__init__] and those registered later. *)

Inductive ModelClass : Type := LSCP | LSCPB | MCLP | PDispersion | KNearestPMedian.

Record LocateSolver : Type := mk_LocateSolver {
  class_of : ModelClass;
  name : string;
  problem : LpProblem;
  solver : option LpSolver;
  p_facilities : option Z;
  lscp_obj_value : option float;
  fac_vars : option (list LpVariable);
  cli_vars : option (list LpVariable);
  disperse_var : option LpVariable;
  aij : option (ndarray float);
  fac2cli : option (list (list nat));
  cli2fac : option (list (list nat));
  n_cli_uncov : option nat;
  perc_cov : option float;
  backup_perc : option float;
  mean_dist : option float
}.

(** [LocateSolver.__init__(self, name, problem)] *)
Definition new_LocateSolver (c : ModelClass) (nm : string) (p : LpProblem)
  : LocateSolver :=
  mk_LocateSolver c nm p None None None None None None None None None None None
    None None.

Definition set_problem (p : LpProblem) (o : LocateSolver) : LocateSolver :=
  mk_LocateSolver (class_of o) (name o) p (solver o) (p_facilities o)
    (lscp_obj_value o) (fac_vars o) (cli_vars o) (disperse_var o) (aij o)
    (fac2cli o) (cli2fac o) (n_cli_uncov o) (perc_cov o) (backup_perc o)
    (mean_dist o).
Definition set_solver (s : LpSolver) (o : LocateSolver) : LocateSolver :=
  mk_LocateSolver (class_of o) (name o) (problem o) (Some s) (p_facilities o)
    (lscp_obj_value o) (fac_vars o) (cli_vars o) (disperse_var o) (aij o)
    (fac2cli o) (cli2fac o) (n_cli_uncov o) (perc_cov o) (backup_perc o)
    (mean_dist o).
Definition set_p_facilities (p : Z) (o : LocateSolver) : LocateSolver :=
  mk_LocateSolver (class_of o) (name o) (problem o) (solver o) (Some p)
    (lscp_obj_value o) (fac_vars o) (cli_vars o) (disperse_var o) (aij o)
    (fac2cli o) (cli2fac o) (n_cli_uncov o) (perc_cov o) (backup_perc o)
    (mean_dist o).
Definition set_lscp_obj_value (v : float) (o : LocateSolver) : LocateSolver :=
  mk_LocateSolver (class_of o) (name o) (problem o) (solver o) (p_facilities o)
    (Some v) (fac_vars o) (cli_vars o) (disperse_var o) (aij o)
    (fac2cli o) (cli2fac o) (n_cli_uncov o) (perc_cov o) (backup_perc o)
    (mean_dist o).
Definition set_fac_vars (v : list LpVariable) (o : LocateSolver) : LocateSolver :=
  mk_LocateSolver (class_of o) (name o) (problem o) (solver o) (p_facilities o)
    (lscp_obj_value o) (Some v) (cli_vars o) (disperse_var o) (aij o)
    (fac2cli o) (cli2fac o) (n_cli_uncov o) (perc_cov o) (backup_perc o)
    (mean_dist o).
Definition set_cli_vars (v : list LpVariable) (o : LocateSolver) : LocateSolver :=
  mk_LocateSolver (class_of o) (name o) (problem o) (solver o) (p_facilities o)
    (lscp_obj_value o) (fac_vars o) (Some v) (disperse_var o) (aij o)
    (fac2cli o) (cli2fac o) (n_cli_uncov o) (perc_cov o) (backup_perc o)
    (mean_dist o).
Definition set_disperse_var (v : LpVariable) (o : LocateSolver) : LocateSolver :=
  mk_LocateSolver (class_of o) (name o) (problem o) (solver o) (p_facilities o)
    (lscp_obj_value o) (fac_vars o) (cli_vars o) (Some v) (aij o)
    (fac2cli o) (cli2fac o) (n_cli_uncov o) (perc_cov o) (backup_perc o)
    (mean_dist o).
Definition set_aij (a : ndarray float) (o : LocateSolver) : LocateSolver :=
  mk_LocateSolver (class_of o) (name o) (problem o) (solver o) (p_facilities o)
    (lscp_obj_value o) (fac_vars o) (cli_vars o) (disperse_var o) (Some a)
    (fac2cli o) (cli2fac o) (n_cli_uncov o) (perc_cov o) (backup_perc o)
    (mean_dist o).
Definition set_fac2cli (v : list (list nat)) (o : LocateSolver) : LocateSolver :=
  mk_LocateSolver (class_of o) (name o) (problem o) (solver o) (p_facilities o)
    (lscp_obj_value o) (fac_vars o) (cli_vars o) (disperse_var o) (aij o)
    (Some v) (cli2fac o) (n_cli_uncov o) (perc_cov o) (backup_perc o)
    (mean_dist o).
Definition set_cli2fac (v : list (list nat)) (o : LocateSolver) : LocateSolver :=
  mk_LocateSolver (class_of o) (name o) (problem o) (solver o) (p_facilities o)
    (lscp_obj_value o) (fac_vars o) (cli_vars o) (disperse_var o) (aij o)
    (fac2cli o) (Some v) (n_cli_uncov o) (perc_cov o) (backup_perc o)
    (mean_dist o).
Definition set_n_cli_uncov (v : nat) (o : LocateSolver) : LocateSolver :=
  mk_LocateSolver (class_of o) (name o) (problem o) (solver o) (p_facilities o)
    (lscp_obj_value o) (fac_vars o) (cli_vars o) (disperse_var o) (aij o)
    (fac2cli o) (cli2fac o) (Some v) (perc_cov o) (backup_perc o)
    (mean_dist o).
Definition set_perc_cov (v : float) (o : LocateSolver) : LocateSolver :=
  mk_LocateSolver (class_of o) (name o) (problem o) (solver o) (p_facilities o)
    (lscp_obj_value o) (fac_vars o) (cli_vars o) (disperse_var o) (aij o)
    (fac2cli o) (cli2fac o) (n_cli_uncov o) (Some v) (backup_perc o)
    (mean_dist o).
Definition set_backup_perc (v : float) (o : LocateSolver) : LocateSolver :=
  mk_LocateSolver (class_of o) (name o) (problem o) (solver o) (p_facilities o)
    (lscp_obj_value o) (fac_vars o) (cli_vars o) (disperse_var o) (aij o)
    (fac2cli o) (cli2fac o) (n_cli_uncov o) (perc_cov o) (Some v)
    (mean_dist o).
Definition set_mean_dist (v : float) (o : LocateSolver) : LocateSolver :=
  mk_LocateSolver (class_of o) (name o) (problem o) (solver o) (p_facilities o)
    (lscp_obj_value o) (fac_vars o) (cli_vars o) (disperse_var o) (aij o)
    (fac2cli o) (cli2fac o) (n_cli_uncov o) (perc_cov o) (backup_perc o)
    (Some v).

(** What a call can change outside the object: the warnings shown to the
    user and the number of solver invocations. *)
Record World : Type := mk_World {
  warnings : list string;
  solver_calls : nat
}.

Definition warn (msg : string) : Eff World unit :=
  modify (λ w, mk_World (warnings w ++ [msg]) (solver_calls w)).

Definition count_solver_call (w : World) : World :=
  mk_World (warnings w) (S (solver_calls w)).

(** A method of an instance runs on the instance and the world. *)
Definition Env : Type := LocateSolver * World.

Definition on_self {A} (m : Eff LocateSolver A) : Eff Env A :=
  λ '(self, w), let '(r, self') := m self in (r, (self', w)).

(** A class method builds a local object with a sequence of steps and
    returns it. *)
Definition build (o : LocateSolver) (steps : Eff Env unit) : Eff World LocateSolver :=
  λ w, match steps (o, w) with
       | (inl e, (_, w')) => (inl e, w')
       | (inr _, (o', w')) => (inr o', w')
       end.

(** [[f(x) for x in xs]] where [f] may raise. *)
Fixpoint emap {A B} (f : A → Exn + B) (xs : list A) : Exn + list B :=
  match xs with
  | [] => inr []
  | x :: xs' => ebind (f x) (λ y, ebind (emap f xs') (λ ys, inr (y :: ys)))
  end.

(** ** The geometry interface (geopandas)

    The code observes of a geometry its type name, its centroid and, for a
    point, its coordinates. *)

Inductive ShapeKind : Type :=
| LineString
| LinearRing
| Polygon
| MultiPoint
| MultiLineString
| MultiPolygon
| GeometryCollection.

Inductive Geometry : Type :=
| Point (x y : float)
| Shape (kind : ShapeKind) (centre : float * float).

Definition geom_type (g : Geometry) : string :=
  match g with
  | Point _ _ => "Point"
  | Shape LineString _ => "LineString"
  | Shape LinearRing _ => "LinearRing"
  | Shape Polygon _ => "Polygon"
  | Shape MultiPoint _ => "MultiPoint"
  | Shape MultiLineString _ => "MultiLineString"
  | Shape MultiPolygon _ => "MultiPolygon"
  | Shape GeometryCollection _ => "GeometryCollection"
  end.

(** [g.centroid], a point. *)
Definition centroid (g : Geometry) : Geometry :=
  match g with
  | Point x y => Point x y
  | Shape _ c => Point c.1 c.2
  end.

(** A column of a data frame; [to_numpy()] keeps its values. *)
Inductive Series : Type :=
| GeoSeries (geoms : list Geometry)
| IntSeries (ints : list Z)
| FloatSeries (floats : list float).

(** A frame: its reference system, identified by its name, and its
    columns. *)
Record GeoDataFrame : Type := mk_GeoDataFrame {
  crs : option string;
  columns : gmap string Series
}.

(** [gdf[col]] *)
Definition getcol (gdf : GeoDataFrame) (col : string) : Exn + Series :=
  match columns gdf !! col with
  | Some s => inr s
  | None => inl (KeyError col)
  end.

(** [series.geom_type], defined on geometry columns. *)
Definition Series_geom_type (s : Series) : Exn + list string :=
  match s with
  | GeoSeries gs => inr (map geom_type gs)
  | _ => inl (AttributeError "geom_type")
  end.

(** [series.centroid] *)
Definition Series_centroid (s : Series) : Exn + Series :=
  match s with
  | GeoSeries gs => inr (GeoSeries (map centroid gs))
  | _ => inl (AttributeError "centroid")
  end.

(** [series.x.to_numpy()] and [series.y.to_numpy()]: geopandas gives the
    coordinates of point geometries only. *)
Definition Series_x (s : Series) : Exn + list float :=
  match s with
  | GeoSeries gs =>
      emap (λ g, match g with
                 | Point x _ => inr x
                 | Shape _ _ =>
                     inl (ValueError "x attribute access only provided for Point geometries")
                 end) gs
  | _ => inl (AttributeError "x")
  end.

Definition Series_y (s : Series) : Exn + list float :=
  match s with
  | GeoSeries gs =>
      emap (λ g, match g with
                 | Point _ y => inr y
                 | Shape _ _ =>
                     inl (ValueError "y attribute access only provided for Point geometries")
                 end) gs
  | _ => inl (AttributeError "y")
  end.

(** [values.unique()]: the distinct values, in order of first appearance. *)
Fixpoint unique (xs : list string) : list string :=
  match xs with
  | [] => []
  | x :: xs' => x :: filter (λ y, y ≠ x) (unique xs')
  end.

(** [np.array([xs, ys]).T]: one row of two coordinates per geometry. *)
Definition coords_T (xs ys : list float) : list (float * float) := zip xs ys.

(** [len(types) > 1 or not "Point" in types] *)
Definition not_only_points (types : list string) : bool :=
  bool_decide (1 < length types) || negb (bool_decide ("Point" ∈ types)).

(** [str(gdf.crs)] inside the error message. *)
Definition crs_str (c : option string) : string :=
  match c with Some s => s | None => "None" end.

Definition crs_mismatch_msg (c_dem c_fac : option string) : string :=
  "Geodataframes crs are different: gdf_demand-" +:+ crs_str c_dem
    +:+ ", gdf_fac-" +:+ crs_str c_fac.

Definition centroid_msg : string :=
  " geodataframe contains mixed type geometries or is not a point. Be "
  +:+ "sure deriving centroid from geometries doesn't affect the results.".

(** [template.format(i=i)] for a template that holds [{i}]. *)
Fixpoint format_i (template : string) (i : string) : string :=
  match template with
  | String "{"%char (String "i"%char (String "}"%char rest)) =>
      i +:+ format_i rest i
  | String c rest => String c (format_i rest i)
  | EmptyString => EmptyString
  end.

(** [float(n)] for a Python int. *)
Definition float_of_Z (z : Z) : float :=
  SF2Prim (binary_normalize prec emax z 0 false).

(** [len(series)] and [series[i]] as a coefficient. *)
Definition Series_length (s : Series) : nat :=
  match s with
  | GeoSeries gs => length gs
  | IntSeries zs => length zs
  | FloatSeries fs => length fs
  end.

(** [np.reshape(weights, (n, 1))] keeps the values and needs [n] of them. *)
Definition np_reshape_column (weights : Series) (n : nat) : Exn + Series :=
  if decide (Series_length weights = n) then inr weights
  else inl (ValueError "cannot reshape array").

(** [weights.flatten()[i]] as the coefficient of a variable. *)
Definition weight_at (weights : Series) (i : nat) : Exn + float :=
  match weights with
  | GeoSeries _ => inl TypeError
  | IntSeries zs => ebind (getitem zs i) (λ z, inr (float_of_Z z))
  | FloatSeries fs => getitem fs i
  end.

Section Locate.

(** [scipy.spatial.distance.cdist(XA, XB, metric)], external. *)
Variable cdist : list (float * float) → list (float * float) → string → Exn + ndarray float.

(** The big-M constant of the dispersion constraints, chosen by the
    constraint builder from the cost matrix. *)
Variable big_M : ndarray float → float.

(** The result extractor of the median models: the facility to client
    array, its inverse and the mean assignment distance of a solved
    model. *)
Variable median_results : LocateSolver → list (list nat) * list (list nat) * float.

(** ** [spopt.locate.base]: variable factory and constraint builder *)

Definition add_rows (rows : list LpConstraint) : Eff LocateSolver unit :=
  modify (λ o, set_problem (foldl (λ p c, add_constraint c p) (problem o) rows) o).

(** Modelled from the spec: [FacilityModelBuilder.add_facility_integer_variable]
    of spopt/locate/base.py is missing; section 4.2: an ordered sequence of
    binary variables, one per index, named from the template and registered
    on the instance as [fac_vars]. *)
Definition facility_variables (r_fac : list nat) (template : string) : list LpVariable :=
  map (λ i, mk_LpVariable (FacilityVar i) (format_i template (pretty i))
              (Some 0%float) (Some 1%float) LpInteger) r_fac.

Definition add_facility_integer_variable (r_fac : list nat) (template : string)
  : Eff LocateSolver unit :=
  modify (set_fac_vars (facility_variables r_fac template)).

(** Modelled from the spec: [FacilityModelBuilder.add_client_integer_variable]
    of spopt/locate/base.py is missing; section 4.2, registered as
    [cli_vars]. *)
Definition client_variables (r_cli : list nat) (template : string) : list LpVariable :=
  map (λ i, mk_LpVariable (ClientVar i) (format_i template (pretty i))
              (Some 0%float) (Some 1%float) LpInteger) r_cli.

Definition add_client_integer_variable (r_cli : list nat) (template : string)
  : Eff LocateSolver unit :=
  modify (set_cli_vars (client_variables r_cli template)).

(** Modelled from the spec: [FacilityModelBuilder.add_maximized_min_variable]
    of spopt/locate/base.py is missing; sections 3 and 4.2: the scalar
    continuous [DisperseVar] with domain [0, +inf). *)
Definition add_maximized_min_variable : Eff LocateSolver unit :=
  modify (set_disperse_var
    (mk_LpVariable DisperseVar "D" (Some 0%float) None LpContinuous)).

(** Modelled from the spec: [FacilityModelBuilder.add_predefined_facility_constraint]
    of spopt/locate/base.py is missing; sections 3, 4.2 and 4.3: an equality
    [FacilityVar[j] = 1] for each forced index [j], and an index error for an
    index that is out of range. *)
Definition predefined_rows (fac_vars : list LpVariable) (predefined_fac : Series)
  : Exn + list LpConstraint :=
  match predefined_fac with
  | IntSeries js =>
      emap (λ j : Z,
        if decide (0 ≤ j)%Z then
          ebind (getitem fac_vars (Z.to_nat j)) (λ y,
            inr (mk_constraint (lpSum [y]) LpConstraintEQ (lpConst 1) ""))
        else inl IndexError) js
  | _ => inl TypeError
  end.

Definition add_predefined_facility_constraint (predefined_fac : Series)
  : Eff LocateSolver unit :=
  let* fac_vars := getattr fac_vars "fac_vars" in
  let* rows := lift (predefined_rows fac_vars predefined_fac) in
  add_rows rows.

(** The pairs [(ni[i][j], fac_vars[j])] of one client, over [r_fac]. *)
Definition coverage_terms (fac_vars : list LpVariable) (ni : ndarray float)
    (r_fac : list nat) (i : nat) : Exn + list (float * LpVariable) :=
  emap (λ j, ebind (getitem2 ni i j) (λ a,
             ebind (getitem fac_vars j) (λ y, inr (a, y)))) r_fac.

(** Modelled from the spec: [FacilityModelBuilder.add_set_covering_constraint]
    of spopt/locate/base.py is missing; section 4.3: for every client [i],
    the sum over the facilities [j] with [aij[i][j] = 1] of [FacilityVar[j]]
    is at least 1. *)
Definition set_covering_rows (fac_vars : list LpVariable) (ni : ndarray float)
    (r_fac r_cli : list nat) : Exn + list LpConstraint :=
  emap (λ i, ebind (coverage_terms fac_vars ni r_fac i) (λ ts,
    inr (mk_constraint
           (lpSum (map snd (filter (λ t, (t.1 =? 1)%float = true) ts)))
           LpConstraintGE (lpConst 1) ""))) r_cli.

Definition add_set_covering_constraint (ni : ndarray float) (r_fac r_cli : list nat)
  : Eff LocateSolver unit :=
  let* fac_vars := getattr fac_vars "fac_vars" in
  let* rows := lift (set_covering_rows fac_vars ni r_fac r_cli) in
  add_rows rows.

(** Modelled from the spec: [FacilityModelBuilder.add_backup_covering_constraint]
    of spopt/locate/base.py is missing; section 4.3: for every client [i],
    [sum_j aij[i][j] * FacilityVar[j] >= 1 + ClientVar[i]]. *)
Definition backup_covering_rows (fac_vars cli_vars : list LpVariable)
    (ni : ndarray float) (r_fac r_cli : list nat) : Exn + list LpConstraint :=
  emap (λ i, ebind (coverage_terms fac_vars ni r_fac i) (λ ts,
             ebind (getitem cli_vars i) (λ x,
    inr (mk_constraint (mk_expr ts 0) LpConstraintGE
           (mk_expr [(1%float, x)] 1) "")))) r_cli.

Definition add_backup_covering_constraint (ni : ndarray float) (r_fac r_cli : list nat)
  : Eff LocateSolver unit :=
  let* fac_vars := getattr fac_vars "fac_vars" in
  let* cli_vars := getattr cli_vars "cli_vars" in
  let* rows := lift (backup_covering_rows fac_vars cli_vars ni r_fac r_cli) in
  add_rows rows.

(** Modelled from the spec: [FacilityModelBuilder.add_maximal_coverage_constraint]
    of spopt/locate/base.py is missing; section 4.3: for every client [i],
    [ClientVar[i] <= sum_j aij[i][j] * FacilityVar[j]]. *)
Definition maximal_coverage_rows (fac_vars cli_vars : list LpVariable)
    (ni : ndarray float) (r_fac r_cli : list nat) : Exn + list LpConstraint :=
  emap (λ i, ebind (coverage_terms fac_vars ni r_fac i) (λ ts,
             ebind (getitem cli_vars i) (λ x,
    inr (mk_constraint (lpSum [x]) LpConstraintLE (mk_expr ts 0) "")))) r_cli.

Definition add_maximal_coverage_constraint (ni : ndarray float) (r_fac r_cli : list nat)
  : Eff LocateSolver unit :=
  let* fac_vars := getattr fac_vars "fac_vars" in
  let* cli_vars := getattr cli_vars "cli_vars" in
  let* rows := lift (maximal_coverage_rows fac_vars cli_vars ni r_fac r_cli) in
  add_rows rows.

(** The sense of the facility-count row: an exact cardinality, or an upper
    bound for the LSCP-backup budget and for p-dispersion. *)
Definition facility_count_sense (c : ModelClass) : LpConstraintSense :=
  match c with
  | LSCPB | PDispersion => LpConstraintLE
  | LSCP | MCLP | KNearestPMedian => LpConstraintEQ
  end.

(** Modelled from the spec: [FacilityModelBuilder.add_facility_constraint]
    of spopt/locate/base.py is missing; section 4.3: [sum_j FacilityVar[j] = p]
    (exact cardinality) or [<= bound] (used for the LSCP-backup budget and
    p-dispersion). *)
Definition facility_count_row (c : ModelClass) (fac_vars : list LpVariable)
    (p_facilities : float) : LpConstraint :=
  mk_constraint (lpSum fac_vars) (facility_count_sense c) (lpConst p_facilities)
    "facility_constraint".

Definition add_facility_constraint (p_facilities : float) : Eff LocateSolver unit :=
  let* fac_vars := getattr fac_vars "fac_vars" in
  let* self := get in
  add_rows [facility_count_row (class_of self) fac_vars p_facilities].

(** The unordered pairs of a range. *)
Fixpoint unordered_pairs (r : list nat) : list (nat * nat) :=
  match r with
  | [] => []
  | j :: r' => map (λ k, (j, k)) r' ++ unordered_pairs r'
  end.

(** Modelled from the spec: [FacilityModelBuilder.add_p_dispersion_interfacility_constraint]
    of spopt/locate/base.py is missing; section 4.3: for every unordered pair
    of candidate facilities [(j, k)],
    [DisperseVar <= cost[j][k] + M * (2 - FacilityVar[j] - FacilityVar[k])]. *)
Definition interfacility_rows (disperse : LpVariable) (fac_vars : list LpVariable)
    (cost_matrix : ndarray float) (r_fac : list nat) : Exn + list LpConstraint :=
  let m := big_M cost_matrix in
  emap (λ '(j, k),
    ebind (getitem2 cost_matrix j k) (λ d,
    ebind (getitem fac_vars j) (λ yj,
    ebind (getitem fac_vars k) (λ yk,
      inr (mk_constraint (lpSum [disperse]) LpConstraintLE
             (mk_expr [((- m)%float, yj); ((- m)%float, yk)] (d + m * 2)%float)
             "")))))
    (unordered_pairs r_fac).

Definition add_p_dispersion_interfacility_constraint (cost_matrix : ndarray float)
    (r_fac : list nat) : Eff LocateSolver unit :=
  let* disperse := getattr disperse_var "disperse_var" in
  let* fac_vars := getattr fac_vars "fac_vars" in
  let* rows := lift (interfacility_rows disperse fac_vars cost_matrix r_fac) in
  add_rows rows.

(** ** [spopt.locate.base]: status check and shared result extraction *)

(** Modelled from the spec: [LocateSolver.check_status] of
    spopt/locate/base.py is missing; sections 4.4 and 7: a status that is
    not optimal is raised as a runtime failure that names the status. *)
Definition check_status : Eff LocateSolver unit :=
  let* self := get in
  match status (problem self) with
  | LpStatusOptimal => ret tt
  | st => raise (RuntimeError (LpStatus_name st))
  end.

(** Modelled from the spec: [BaseOutputMixin.client_facility_array] of
    spopt/locate/base.py is missing; sections 3 and 4.5: [cli2fac] has one
    entry per client and is built as the index-inverse of [fac2cli]. *)
Definition client_facility_array : Eff LocateSolver unit :=
  let* f2c := getattr fac2cli "fac2cli" in
  let* a := getattr aij "aij" in
  let* _ := modify (set_cli2fac (replicate (shape a).1 [])) in
  for_each (range (length f2c)) (λ j,
    let* clients := lift (getitem f2c j) in
    for_each clients (λ i,
      let* c2f := getattr cli2fac "cli2fac" in
      let* row := lift (getitem c2f i) in
      modify (set_cli2fac (<[i := row ++ [j]]> c2f)))).

(** Modelled from the spec: [CoveragePercentageMixin.uncovered_clients] of
    spopt/locate/base.py is missing; section 4.5: the uncovered count is the
    number of clients with an empty [cli2fac] entry. *)
Definition uncovered_clients : Eff LocateSolver unit :=
  let* c2f := getattr cli2fac "cli2fac" in
  modify (set_n_cli_uncov (length (filter (λ row, row = []) c2f))).

(** Modelled from the spec: [CoveragePercentageMixin.get_percentage] of
    spopt/locate/base.py is missing; section 4.5: covered clients over
    total clients, times 100. *)
Definition coverage_get_percentage : Eff LocateSolver unit :=
  let* a := getattr aij "aij" in
  let* uncov := getattr n_cli_uncov "n_cli_uncov" in
  let total := (shape a).1 in
  modify (set_perc_cov
    (float_of_Z (Z.of_nat (total - uncov)) / float_of_Z (Z.of_nat total) * 100)%float).

(** Modelled from the spec: [BackupPercentageMixinMixin.get_percentage] of
    spopt/locate/base.py is missing; section 4.5: the clients with at least
    two covering open facilities over total clients, times 100. *)
Definition backup_get_percentage : Eff LocateSolver unit :=
  let* a := getattr aij "aij" in
  let* c2f := getattr cli2fac "cli2fac" in
  let total := (shape a).1 in
  let backup := length (filter (λ row : list nat, 2 ≤ length row) c2f) in
  modify (set_backup_perc
    (float_of_Z (Z.of_nat backup) / float_of_Z (Z.of_nat total) * 100)%float).

(** [var.value()] of a variable of the instance's problem; before a solve
    it is [None], and comparing [None] with a number is a [TypeError]. *)
Definition var_value (v : LpVariable) : Eff LocateSolver float :=
  let* self := get in
  match varValue (problem self) with
  | Some σ => ret (σ (var_id v))
  | None => raise TypeError
  end.

(** [self.problem.solve(solver)] *)
Definition problem_solve (solver : LpSolver) : Eff Env unit :=
  modify (λ '(self, w),
    (set_problem (LpProblem_solve solver (problem self)) self, count_solver_call w)).

(** [obj.method(...)] on an object other than [self]: the object after the
    call is returned beside the result. *)
Definition call_on {A} (o : LocateSolver) (m : Eff Env A)
  : Eff World (A * LocateSolver) :=
  λ w, match m (o, w) with
       | (inl e, (_, w')) => (inl e, w')
       | (inr a, (o', w')) => (inr (a, o'), w')
       end.

(** ** [spopt.locate.coverage.LSCP] *)

(** [LSCP.__add_obj] *)
Definition LSCP_add_obj : Eff LocateSolver unit :=
  let* fac_vars := getattr fac_vars "fac_vars" in
  modify (λ o, set_problem (set_objective (lpSum fac_vars) (problem o)) o).

(** [LSCP.from_cost_matrix] *)
Definition LSCP_from_cost_matrix (cost_matrix : ndarray float) (service_radius : float)
    (predefined_facilities_arr : option Series) (name : string)
  : Eff World LocateSolver :=
  let r_fac := range (shape cost_matrix).2 in
  let r_cli := range (shape cost_matrix).1 in
  let model := new_LpProblem name LpMinimize in
  let lscp := new_LocateSolver LSCP name model in
  build lscp (on_self (
    let* _ := add_facility_integer_variable r_fac "y[{i}]" in
    let* _ := modify (set_aij (np_zeros (shape cost_matrix))) in
    let* a := getattr aij "aij" in
    let* a := lift (setitem_mask a (np_le cost_matrix service_radius) 1) in
    let* _ := modify (set_aij a) in
    let* _ := match predefined_facilities_arr with
              | Some arr => add_predefined_facility_constraint arr
              | None => ret tt
              end in
    let* _ := LSCP_add_obj in
    let* a := getattr aij "aij" in
    add_set_covering_constraint a r_fac r_cli)).

(** The inner loop of [facility_client_array]: the clients [i] of
    [range(self.aij.shape[0])] with [self.aij[i][j] > 0]. *)
Definition covered_clients (j : nat) : Eff LocateSolver (list nat) :=
  let* a := getattr aij "aij" in
  foldM (λ array_cli i,
    let* a := getattr aij "aij" in
    let* v := lift (getitem2 a i j) in
    if (0 <? v)%float then ret (array_cli ++ [i]) else ret array_cli)
    (range (shape a).1) [].

(** [self.fac2cli.append(array_cli)] *)
Definition fac2cli_append (array_cli : list nat) : Eff LocateSolver unit :=
  let* f2c := getattr fac2cli "fac2cli" in
  modify (set_fac2cli (f2c ++ [array_cli])).

(** [LSCP.facility_client_array] *)
Definition LSCP_facility_client_array : Eff LocateSolver unit :=
  let* fac_vars := getattr fac_vars "fac_vars" in
  let len_fac_vars := length fac_vars in
  let* _ := modify (set_fac2cli []) in
  for_each (range len_fac_vars) (λ j,
    let* y := lift (getitem fac_vars j) in
    let* value := var_value y in
    let* array_cli :=
      if (0 <? value)%float then covered_clients j else ret [] in
    fac2cli_append array_cli).

(** [LSCP.solve] *)
Definition LSCP_solve (solver : LpSolver) (results : bool) : Eff Env LocateSolver :=
  let* _ := problem_solve solver in
  let* _ := on_self check_status in
  let* _ := if results then
              let* _ := on_self LSCP_facility_client_array in
              on_self client_facility_array
            else ret tt in
  let* self := get in
  ret self.1.

(** [np.array([s.x.to_numpy(), s.y.to_numpy()]).T] *)
Definition layer_coords (s : Series) : Exn + list (float * float) :=
  ebind (Series_x s) (λ xs, ebind (Series_y s) (λ ys, inr (coords_T xs ys))).

(** [s.geom_type.unique()] *)
Definition geometry_types (s : Series) : Exn + list string :=
  ebind (Series_geom_type s) (λ t, inr (unique t)).

(** [LSCP.from_geodataframe] *)
Definition LSCP_from_geodataframe (gdf_demand gdf_fac : GeoDataFrame)
    (demand_col facility_col : string) (service_radius : float)
    (predefined_facility_col : option string) (distance_metric : string)
    (name : string) : Eff World LocateSolver :=
  let* predefined_facilities_arr :=
    match predefined_facility_col with
    | Some col => let* arr := lift (getcol gdf_fac col) in ret (Some arr)
    | None => ret None
    end in
  let* dem := lift (getcol gdf_demand demand_col) in
  let* fac := lift (getcol gdf_fac facility_col) in
  let* dem_type_geom := lift (geometry_types dem) in
  let* fac_type_geom := lift (geometry_types fac) in
  let _msg := centroid_msg in
  let* dem := if not_only_points dem_type_geom then
                let* _ := warn ("Demand" +:+ _msg) in
                lift (Series_centroid dem)
              else ret dem in
  let* fac := if not_only_points fac_type_geom then
                let* _ := warn ("Facility" +:+ _msg) in
                lift (Series_centroid fac)
              else ret fac in
  let* dem_data := lift (layer_coords dem) in
  let* fac_data := lift (layer_coords fac) in
  let* _ := if decide (crs gdf_demand ≠ crs gdf_fac) then
              raise (ValueError (crs_mismatch_msg (crs gdf_demand) (crs gdf_fac)))
            else ret tt in
  let* distances := lift (cdist dem_data fac_data distance_metric) in
  LSCP_from_cost_matrix distances service_radius predefined_facilities_arr name.

(** ** [spopt.locate.coverage.LSCPB] *)

(** [LSCPB.__add_obj] *)
Definition LSCPB_add_obj : Eff LocateSolver unit :=
  let* cov_vars := getattr cli_vars "cli_vars" in
  modify (λ o, set_problem (set_objective (lpSum cov_vars) (problem o)) o).

(** [problem.objective.value()]; without an objective the attribute access
    fails, and the value of an unsolved expression is [None], which no
    constraint accepts as a bound. *)
Definition objective_value (p : LpProblem) : Exn + float :=
  match objective p with
  | None => inl (AttributeError "value")
  | Some e =>
      match varValue p with
      | Some σ => inr (expr_value σ e)
      | None => inl TypeError
      end
  end.

(** [LSCPB.from_cost_matrix] *)
Definition LSCPB_from_cost_matrix (cost_matrix : ndarray float) (service_radius : float)
    (solver : LpSolver) (predefined_facilities_arr : option Series) (name : string)
  : Eff World LocateSolver :=
  let* lscp :=
    match predefined_facilities_arr with
    | Some arr => LSCP_from_cost_matrix cost_matrix service_radius (Some arr) "LSCP"
    | None => LSCP_from_cost_matrix cost_matrix service_radius None "LSCP"
    end in
  let* (_, lscp) := call_on lscp (LSCP_solve solver true) in
  let r_fac := range (shape cost_matrix).2 in
  let r_cli := range (shape cost_matrix).1 in
  let model := new_LpProblem name LpMaximize in
  let lscpb := set_solver solver (new_LocateSolver LSCPB name model) in
  build lscpb (on_self (
    let* obj_value := lift (objective_value (problem lscp)) in
    let* _ := modify (set_lscp_obj_value obj_value) in
    let* _ := add_facility_integer_variable r_fac "y[{i}]" in
    let* _ := add_client_integer_variable r_cli "x[{i}]" in
    let* _ := modify (set_aij (np_zeros (shape cost_matrix))) in
    let* a := getattr aij "aij" in
    let* a := lift (setitem_mask a (np_le cost_matrix service_radius) 1) in
    let* _ := modify (set_aij a) in
    let* _ := match predefined_facilities_arr with
              | Some arr => add_predefined_facility_constraint arr
              | None => ret tt
              end in
    let* _ := LSCPB_add_obj in
    let* bound := getattr lscp_obj_value "lscp_obj_value" in
    let* _ := add_facility_constraint bound in
    let* a := getattr aij "aij" in
    add_backup_covering_constraint a r_fac r_cli)).

(** [LSCPB.from_geodataframe] *)
Definition LSCPB_from_geodataframe (gdf_demand gdf_fac : GeoDataFrame)
    (demand_col facility_col : string) (service_radius : float) (solver : LpSolver)
    (predefined_facility_col : option string) (distance_metric : string)
    (name : string) : Eff World LocateSolver :=
  let* predefined_facilities_arr :=
    match predefined_facility_col with
    | Some col => let* arr := lift (getcol gdf_fac col) in ret (Some arr)
    | None => ret None
    end in
  let* dem := lift (getcol gdf_demand demand_col) in
  let* fac := lift (getcol gdf_fac facility_col) in
  let* dem_type_geom := lift (geometry_types dem) in
  let* fac_type_geom := lift (geometry_types fac) in
  let _msg := centroid_msg in
  let* dem := if not_only_points dem_type_geom then
                let* _ := warn ("Demand" +:+ _msg) in
                lift (Series_centroid dem)
              else ret dem in
  let* fac := if not_only_points fac_type_geom then
                let* _ := warn ("Facility" +:+ _msg) in
                lift (Series_centroid fac)
              else ret fac in
  let* dem_data := lift (layer_coords dem) in
  let* fac_data := lift (layer_coords fac) in
  let* _ := if decide (crs gdf_demand ≠ crs gdf_fac) then
              raise (ValueError (crs_mismatch_msg (crs gdf_demand) (crs gdf_fac)))
            else ret tt in
  let* distances := lift (cdist dem_data fac_data distance_metric) in
  LSCPB_from_cost_matrix distances service_radius solver predefined_facilities_arr name.

(** [LSCPB.facility_client_array] *)
Definition LSCPB_facility_client_array : Eff LocateSolver unit :=
  let* fac_vars := getattr fac_vars "fac_vars" in
  let len_fac_vars := length fac_vars in
  let* _ := modify (set_fac2cli []) in
  for_each (range len_fac_vars) (λ j,
    let* y := lift (getitem fac_vars j) in
    let* value := var_value y in
    let* array_cli :=
      if (0 <? value)%float then covered_clients j else ret [] in
    fac2cli_append array_cli).

(** [LSCPB.solve] *)
Definition LSCPB_solve (results : bool) : Eff Env LocateSolver :=
  let* solver := on_self (getattr solver "solver") in
  let* _ := problem_solve solver in
  let* _ := on_self check_status in
  let* _ := if results then
              let* _ := on_self LSCPB_facility_client_array in
              let* _ := on_self client_facility_array in
              on_self backup_get_percentage
            else ret tt in
  let* self := get in
  ret self.1.

(** ** [spopt.locate.coverage.MCLP] *)

(** [MCLP.__add_obj] *)
Definition MCLP_add_obj (weights : Series) (range_clients : list nat)
  : Eff LocateSolver unit :=
  let* dem_vars := getattr cli_vars "cli_vars" in
  let* ts := lift (emap (λ i, ebind (weight_at weights i) (λ w,
                              ebind (getitem dem_vars i) (λ x, inr (w, x))))
                     range_clients) in
  modify (λ o, set_problem (set_objective (mk_expr ts 0) (problem o)) o).

(** [MCLP.from_cost_matrix] *)
Definition MCLP_from_cost_matrix (cost_matrix : ndarray float) (weights : Series)
    (service_radius : float) (p_facilities : Z)
    (predefined_facilities_arr : option Series) (name : string)
  : Eff World LocateSolver :=
  let r_fac := range (shape cost_matrix).2 in
  let r_cli := range (shape cost_matrix).1 in
  let model := new_LpProblem name LpMaximize in
  let mclp := new_LocateSolver MCLP name model in
  build mclp (on_self (
    let* _ := add_facility_integer_variable r_fac "x[{i}]" in
    let* _ := add_client_integer_variable r_cli "y[{i}]" in
    let* _ := modify (set_aij (np_zeros (shape cost_matrix))) in
    let* a := getattr aij "aij" in
    let* a := lift (setitem_mask a (np_le cost_matrix service_radius) 1) in
    let* _ := modify (set_aij a) in
    let* weights := lift (np_reshape_column weights (shape cost_matrix).1) in
    let* _ := MCLP_add_obj weights r_cli in
    let* _ := match predefined_facilities_arr with
              | Some arr => add_predefined_facility_constraint arr
              | None => ret tt
              end in
    let* a := getattr aij "aij" in
    let* _ := add_maximal_coverage_constraint a r_fac r_cli in
    add_facility_constraint (float_of_Z p_facilities))).

(** [MCLP.from_geodataframe] *)
Definition MCLP_from_geodataframe (gdf_demand gdf_fac : GeoDataFrame)
    (demand_col facility_col weights_cols : string) (service_radius : float)
    (p_facilities : Z) (predefined_facility_col : option string)
    (distance_metric : string) (name : string) : Eff World LocateSolver :=
  let* predefined_facilities_arr :=
    match predefined_facility_col with
    | Some col => let* arr := lift (getcol gdf_fac col) in ret (Some arr)
    | None => ret None
    end in
  let* service_load := lift (getcol gdf_demand weights_cols) in
  let* dem := lift (getcol gdf_demand demand_col) in
  let* fac := lift (getcol gdf_fac facility_col) in
  let* dem_type_geom := lift (geometry_types dem) in
  let* fac_type_geom := lift (geometry_types fac) in
  let _msg := centroid_msg in
  let* dem := if not_only_points dem_type_geom then
                let* _ := warn ("Demand" +:+ _msg) in
                lift (Series_centroid dem)
              else ret dem in
  let* fac := if not_only_points fac_type_geom then
                let* _ := warn ("Facility" +:+ _msg) in
                lift (Series_centroid fac)
              else ret fac in
  let* dem_data := lift (layer_coords dem) in
  let* fac_data := lift (layer_coords fac) in
  let* _ := if decide (crs gdf_demand ≠ crs gdf_fac) then
              raise (ValueError (crs_mismatch_msg (crs gdf_demand) (crs gdf_fac)))
            else ret tt in
  let* distances := lift (cdist dem_data fac_data distance_metric) in
  MCLP_from_cost_matrix distances service_load service_radius p_facilities
    predefined_facilities_arr name.

(** The inner loop of [MCLP.facility_client_array]: the clients [i] whose
    own variable is positive and with [self.aij[i][j] > 0]. *)
Definition MCLP_covered_clients (cli_vars : list LpVariable) (j : nat)
  : Eff LocateSolver (list nat) :=
  let* a := getattr aij "aij" in
  foldM (λ array_cli i,
    let* x := lift (getitem cli_vars i) in
    let* x_value := var_value x in
    if (0 <? x_value)%float then
      let* a := getattr aij "aij" in
      let* v := lift (getitem2 a i j) in
      if (0 <? v)%float then ret (array_cli ++ [i]) else ret array_cli
    else ret array_cli)
    (range (shape a).1) [].

(** [MCLP.facility_client_array] *)
Definition MCLP_facility_client_array : Eff LocateSolver unit :=
  let* fac_vars := getattr fac_vars "fac_vars" in
  let* cli_vars := getattr cli_vars "cli_vars" in
  let len_fac_vars := length fac_vars in
  let* _ := modify (set_fac2cli []) in
  for_each (range len_fac_vars) (λ j,
    let* y := lift (getitem fac_vars j) in
    let* value := var_value y in
    let* array_cli :=
      if (0 <? value)%float then MCLP_covered_clients cli_vars j else ret [] in
    fac2cli_append array_cli).

(** [MCLP.solve] *)
Definition MCLP_solve (solver : LpSolver) (results : bool) : Eff Env LocateSolver :=
  let* _ := problem_solve solver in
  let* _ := on_self check_status in
  let* _ := if results then
              let* _ := on_self MCLP_facility_client_array in
              let* _ := on_self client_facility_array in
              let* _ := on_self uncovered_clients in
              on_self coverage_get_percentage
            else ret tt in
  let* self := get in
  ret self.1.

(** ** [spopt.locate.p_dispersion.PDispersion] *)

(** [PDispersion.__add_obj] *)
Definition PDispersion_add_obj : Eff LocateSolver unit :=
  let* disperse := getattr disperse_var "disperse_var" in
  modify (λ o, set_problem (set_objective (lpSum [disperse]) (problem o)) o).

(** [PDispersion.from_cost_matrix] *)
Definition PDispersion_from_cost_matrix (cost_matrix : ndarray float) (p_fac : Z)
    (predefined_facilities_arr : option Series) (name : string)
  : Eff World LocateSolver :=
  let r_fac := range (shape cost_matrix).2 in
  let model := new_LpProblem name LpMaximize in
  let p_dispersion := set_p_facilities p_fac (new_LocateSolver PDispersion name model) in
  build p_dispersion (on_self (
    let* _ := add_maximized_min_variable in
    let* _ := PDispersion_add_obj in
    let* _ := add_facility_integer_variable r_fac "y[{i}]" in
    let* p := getattr p_facilities "p_facilities" in
    let* _ := add_facility_constraint (float_of_Z p) in
    let* _ := match predefined_facilities_arr with
              | Some arr => add_predefined_facility_constraint arr
              | None => ret tt
              end in
    add_p_dispersion_interfacility_constraint cost_matrix r_fac)).

(** [PDispersion.from_geodataframe] *)
Definition PDispersion_from_geodataframe (gdf_fac : GeoDataFrame) (facility_col : string)
    (p_fac : Z) (predefined_facility_col : option string) (distance_metric : string)
    (name : string) : Eff World LocateSolver :=
  let* predefined_facilities_arr :=
    match predefined_facility_col with
    | Some col => let* arr := lift (getcol gdf_fac col) in ret (Some arr)
    | None => ret None
    end in
  let* fac := lift (getcol gdf_fac facility_col) in
  let* fac_type_geom := lift (geometry_types fac) in
  let* fac := if not_only_points fac_type_geom then
                let* _ := warn ("Facility geodataframe contains mixed type geometries "
                                +:+ "or is not a point. Be sure deriving centroid from "
                                +:+ "geometries doesn't affect the results.") in
                lift (Series_centroid fac)
              else ret fac in
  let* fac_data := lift (layer_coords fac) in
  let* distances := lift (cdist fac_data fac_data distance_metric) in
  PDispersion_from_cost_matrix distances p_fac predefined_facilities_arr name.

(** [PDispersion.solve]; the [results] argument is accepted and not read. *)
Definition PDispersion_solve (solver : LpSolver) (results : bool) : Eff Env LocateSolver :=
  let* _ := problem_solve solver in
  let* _ := on_self check_status in
  let* self := get in
  ret self.1.

(** ** [spopt.locate.p_median.KNearestPMedian] *)

(** Modelled from the spec: [KNearestPMedian.solve] of
    spopt/locate/p_median.py is missing; section 4.4: the solver is
    invoked, a status that is not optimal fails, and with [results=True]
    the result extractor populates [fac2cli], [cli2fac] and the mean
    distance, which are otherwise left unset. *)
Definition KNearestPMedian_solve (solver : LpSolver) (results : bool)
  : Eff Env LocateSolver :=
  let* _ := problem_solve solver in
  let* _ := on_self check_status in
  let* _ := if results then
              let* self := get in
              let '(f2c, c2f, dist) := median_results self.1 in
              let* _ := on_self (modify (set_fac2cli f2c)) in
              let* _ := on_self (modify (set_cli2fac c2f)) in
              on_self (modify (set_mean_dist dist))
            else ret tt in
  let* self := get in
  ret self.1.

(** ** Definitions used by the statements *)

(** The array that [aij = np.zeros(shape); aij[cost <= radius] = 1] builds. *)
Definition coverage_matrix (cost_matrix : ndarray float) (service_radius : float)
  : ndarray float :=
  mk_ndarray (shape cost_matrix)
    (zip_with (zip_with (λ (x : float) (m : bool), if m then 1%float else x))
       (replicate (shape cost_matrix).1 (replicate (shape cost_matrix).2 0%float))
       (map (map (λ c, (c <=? service_radius)%float)) (data cost_matrix))).

(** A step that changes nothing of an instance but its problem. *)
Definition only_problem {A} (m : Eff LocateSolver A) : Prop :=
  ∀ s r s', m s = (r, s') → s' = set_problem (problem s') s.

(** The instance after a builder appended [rows] to its problem. *)
Definition with_rows (rows : list LpConstraint) (o : LocateSolver) : LocateSolver :=
  set_problem (foldl (λ p c, add_constraint c p) (problem o) rows) o.

(** The rows of the predefined-facility family, when an array is given. *)
Definition optional_predefined_rows (fac_vars : list LpVariable)
    (predefined_facilities_arr : option Series) : Exn + list LpConstraint :=
  match predefined_facilities_arr with
  | Some arr => predefined_rows fac_vars arr
  | None => inr []
  end.

(** Whether [aij[i][j] > 0]. *)
Definition covers (a : ndarray float) (i j : nat) : bool :=
  match getitem2 a i j with
  | inr v => (0 <? v)%float
  | inl _ => false
  end.

(** Whether the solved value of a variable is positive. *)
Definition positive (σ : VarStore) (v : LpVariable) : bool :=
  (0 <? σ (var_id v))%float.

(** The entry of facility [j] in [fac2cli], for [LSCP] and [LSCPB]. *)
Definition fac2cli_row (σ : VarStore) (fac_vars : list LpVariable) (a : ndarray float)
    (j : nat) : list nat :=
  match fac_vars !! j with
  | Some y =>
      if positive σ y then filter (λ i, covers a i j = true) (range (shape a).1)
      else []
  | None => []
  end.

(** Whether the variable of client [i] is solved to a positive value. *)
Definition client_positive (σ : VarStore) (cli_vars : list LpVariable) (i : nat) : bool :=
  match cli_vars !! i with
  | Some x => positive σ x
  | None => false
  end.

(** The entry of facility [j] in [fac2cli], for [MCLP]. *)
Definition MCLP_fac2cli_row (σ : VarStore) (fac_vars cli_vars : list LpVariable)
    (a : ndarray float) (j : nat) : list nat :=
  match fac_vars !! j with
  | Some y =>
      if positive σ y then
        filter (λ i, client_positive σ cli_vars i && covers a i j = true)
          (range (shape a).1)
      else []
  | None => []
  end.

(** [x] is an element of the entry [l[i]]. *)
Definition entry_elem (l : list (list nat)) (i x : nat) : Prop :=
  ∃ row, l !! i = Some row ∧ x ∈ row.

(** The instance after [self.problem.solve(solver)]. *)
Definition solved (solver : LpSolver) (self : LocateSolver) : LocateSolver :=
  set_problem (LpProblem_solve solver (problem self)) self.

(** The values the solver settles for the problem of an instance. *)
Definition solution_of (solver : LpSolver) (self : LocateSolver) : VarStore :=
  sol_values (solver (problem self)).

(** The instance [LSCP.from_cost_matrix] returns, given the rows of the
    predefined-facility and set-covering families. *)
Definition LSCP_model (cost_matrix : ndarray float) (service_radius : float)
    (nm : string) (prows crows : list LpConstraint) : LocateSolver :=
  let fv := facility_variables (range (shape cost_matrix).2) "y[{i}]" in
  with_rows crows
    (set_problem
       (set_objective (lpSum fv)
          (foldl (λ p c, add_constraint c p) (new_LpProblem nm LpMinimize) prows))
       (set_aij (coverage_matrix cost_matrix service_radius)
          (set_fac_vars fv (new_LocateSolver LSCP nm (new_LpProblem nm LpMinimize))))).

(** ** Geometry layers, as the statements describe them *)

(** The coordinates [from_geodataframe] uses for a geometry: those of a
    point, and those of the centroid of another shape. *)
Definition point_coords (g : Geometry) : float * float :=
  match g with
  | Point x y => (x, y)
  | Shape _ c => c
  end.

(** A layer of points with the given coordinates. *)
Definition points (coords : list (float * float)) : list Geometry :=
  map (λ p, Point p.1 p.2) coords.

(** Whether the geometry-type check of a layer asks for centroids. *)
Definition needs_centroid (gs : list Geometry) : bool :=
  not_only_points (unique (map geom_type gs)).

(** The warnings of the two layers, in the order they are emitted. *)
Definition centroid_warnings (dem fac : list Geometry) : list string :=
  (if needs_centroid dem then ["Demand" +:+ centroid_msg] else [])
  ++ (if needs_centroid fac then ["Facility" +:+ centroid_msg] else []).

Definition add_warnings (msgs : list string) (w : World) : World :=
  mk_World (warnings w ++ msgs) (solver_calls w).

(** [gdf_fac[predefined_facility_col].to_numpy()] when a column is named. *)
Definition predefined_column (gdf_fac : GeoDataFrame) (col : option string)
  : Exn + option Series :=
  match col with
  | Some c => ebind (getcol gdf_fac c) (λ arr, inr (Some arr))
  | None => inr None
  end.

(** The default of [distance_metric]. *)
Definition default_distance_metric : string := "euclidean".

(** ** Feasible points of a problem *)

(** Whether a float is an integer: zero, or [m * 2^e] with no fractional
    bit. *)
Definition is_integral (x : float) : bool :=
  match Prim2SF x with
  | S754_zero _ => true
  | S754_finite _ m e => (0 <=? e)%Z || (Z.pos m mod 2 ^ (- e) =? 0)%Z
  | _ => false
  end.

Definition constraint_holds (σ : VarStore) (c : LpConstraint) : bool :=
  let l := expr_value σ (c_lhs c) in
  let r := expr_value σ (c_rhs c) in
  match c_sense c with
  | LpConstraintLE => (l <=? r)%float
  | LpConstraintEQ => (l =? r)%float
  | LpConstraintGE => (r <=? l)%float
  end.

Definition in_domain (σ : VarStore) (v : LpVariable) : bool :=
  let x := σ (var_id v) in
  match lowBound v with Some lo => (lo <=? x)%float | None => true end
  && match upBound v with Some hi => (x <=? hi)%float | None => true end
  && match cat v with LpInteger => is_integral x | LpContinuous => true end.

(** The variables registered on an instance. *)
Definition variables_of (m : LocateSolver) : list LpVariable :=
  default [] (fac_vars m) ++ default [] (cli_vars m)
  ++ match disperse_var m with Some d => [d] | None => [] end.

(** [σ] satisfies every constraint of the problem of [m] and the domain of
    every variable. *)
Definition feasible (σ : VarStore) (m : LocateSolver) : bool :=
  forallb (constraint_holds σ) (constraints (problem m))
  && forallb (in_domain σ) (variables_of m).

(** ** Sample inputs *)

Definition sample_world : World := mk_World [] 0.

(** Three clients and two facility sites. *)
Definition sample_cost_matrix : ndarray float :=
  mk_ndarray (3, 2) [[1; 5]; [3; 3]; [9; 2]]%float.

(** A solver that reports an optimal solution with every variable at 1. *)
Definition sample_solver : LpSolver :=
  λ _, mk_Solution LpStatusOptimal (λ _, 1%float).

(** A solver that opens facility 1 only and covers every client. *)
Definition second_site_solver : LpSolver :=
  λ _, mk_Solution LpStatusOptimal
         (λ v, match v with FacilityVar 1 => 1 | FacilityVar _ => 0 | _ => 1 end)%float.

(** A solver that reports an infeasible problem. *)
Definition infeasible_solver : LpSolver :=
  λ _, mk_Solution LpStatusInfeasible (λ _, 0%float).

(** Two facility sites at distance 1, as a square cost matrix. *)
Definition sample_distances : ndarray float :=
  mk_ndarray (2, 2) [[0; 1]; [1; 0]]%float.

(** The maximum of the cost matrix as big-M. *)
Definition matrix_max (cost_matrix : ndarray float) : float :=
  match np_max cost_matrix with
  | inr m => m
  | inl _ => 0%float
  end.

(** No facility opened, and the dispersion variable at its bound 3. *)
Definition all_closed : VarStore :=
  λ v, match v with DisperseVar => 3%float | _ => 0%float end.

(** A solver that reports the all-closed solution as optimal. *)
Definition all_closed_solver : LpSolver :=
  λ _, mk_Solution LpStatusOptimal all_closed.

(** The Euclidean metric of [cdist]; other metric names are refused
    here. *)
Definition euclidean_cdist (XA XB : list (float * float)) (metric : string)
  : Exn + ndarray float :=
  if decide (metric = "euclidean") then
    inr (mk_ndarray (length XA, length XB)
           (map (λ a, map (λ b,
              sqrt ((a.1 - b.1) * (a.1 - b.1) + (a.2 - b.2) * (a.2 - b.2))%float) XB) XA))
  else inl (ValueError "Unknown Distance Metric").

Definition no_median_results : LocateSolver → list (list nat) * list (list nat) * float :=
  λ _, ([], [], 0%float).

(** Two demand points and two facility points in one reference system. *)
Definition sample_demand : GeoDataFrame :=
  mk_GeoDataFrame (Some "EPSG:4326")
    {[ "geometry" := GeoSeries [Point 0 0; Point 3 4];
       "weights" := IntSeries [4; 2]%Z ]}.

Definition sample_facilities : GeoDataFrame :=
  mk_GeoDataFrame (Some "EPSG:4326")
    {[ "geometry" := GeoSeries [Point 0 0; Point 3 0] ]}.

(** Two polygons, given by their centroids, in another reference system. *)
Definition sample_polygons : GeoDataFrame :=
  mk_GeoDataFrame (Some "EPSG:3857")
    {[ "geometry" := GeoSeries [Shape Polygon (0.5, 0.5); Shape Polygon (2.5, 0.5)]%float ]}.

(** ** Definitions used by the further properties *)

(** Facility [j] is opened by [σ] and the cost from client [i] to it is
    within the service radius. *)
Definition serves (cost_matrix : ndarray float) (service_radius : float)
    (σ : VarStore) (j i : nat) : Prop :=
  (0 <? σ (FacilityVar j))%float = true ∧
  ∃ c, getitem2 cost_matrix i j = inr c ∧ (c <=? service_radius)%float = true.

(** The same, for a client whose own variable is positive. *)
Definition MCLP_serves (cost_matrix : ndarray float) (service_radius : float)
    (σ : VarStore) (j i : nat) : Prop :=
  (0 <? σ (ClientVar i))%float = true ∧ serves cost_matrix service_radius σ j i.

(** A strictly increasing list of indices below [n]. *)
Definition increasing_below (n : nat) (row : list nat) : Prop :=
  StronglySorted lt row ∧ Forall (λ i, i < n) row.

(** A computation that leaves the warnings and the solver count as they
    are, whatever its outcome. *)
Definition keeps_world {A} (m : Eff Env A) : Prop :=
  ∀ s w, (m (s, w)).2.2 = w.

(** What [solve] returns or raises, by the status the solver reports. *)
Definition solve_outcome (solver : LpSolver) (self : LocateSolver)
  : Exn + LocateSolver :=
  match sol_status (solver (problem self)) with
  | LpStatusOptimal => inr (solved solver self)
  | st => inl (RuntimeError (LpStatus_name st))
  end.

(** A column of numbers, as [weights] is meant to be. *)
Definition numeric (s : Series) : Prop :=
  match s with
  | GeoSeries _ => False
  | IntSeries _ | FloatSeries _ => True
  end.

(** A step that leaves the objective and the sense of the problem as they
    are, whatever its outcome. *)
Definition keeps_objective {A} (m : Eff LocateSolver A) : Prop :=
  ∀ s r s', m s = (r, s') →
    objective (problem s') = objective (problem s) ∧
    p_sense (problem s') = p_sense (problem s).

(** [m] is a coverage model that [from_cost_matrix] of [LSCP], [LSCPB] or
    [MCLP] built from the cost matrix and the service radius. *)
Definition coverage_model_of (cost_matrix : ndarray float) (service_radius : float)
    (m : LocateSolver) : Prop :=
  ∃ predefined nm w w',
    LSCP_from_cost_matrix cost_matrix service_radius predefined nm w = (inr m, w')
    ∨ (∃ slv, LSCPB_from_cost_matrix cost_matrix service_radius slv predefined nm w
              = (inr m, w'))
    ∨ (∃ weights p, MCLP_from_cost_matrix cost_matrix weights service_radius p
                      predefined nm w = (inr m, w')).

(** ** Sample inputs of the further properties *)

(** Two polygons in the reference system of the demand points, given by
    their centroids. *)
Definition sample_zones : GeoDataFrame :=
  mk_GeoDataFrame (Some "EPSG:4326")
    {[ "geometry" := GeoSeries [Shape Polygon (0, 0); Shape Polygon (3, 0)]%float ]}.

(** A cost matrix with two unknown costs. *)
Definition gap_cost_matrix : ndarray float :=
  mk_ndarray (2, 2) [[1; nan]; [nan; 2]]%float.

(** One weight per client of the sample cost matrix, and one too few. *)
Definition sample_weights : Series := IntSeries [4; 2; 7]%Z.
Definition short_weights : Series := IntSeries [4; 2]%Z.

(** * Verification *)

(** ** Running computations *)

Lemma bind_inr {S A B} (m : Eff S A) (k : A → Eff S B) s a s' :
  m s = (inr a, s') → bind m k s = k a s'.
Proof. unfold bind. by intros ->. Qed.

Lemma bind_inl {S A B} (m : Eff S A) (k : A → Eff S B) s e s' :
  m s = (inl e, s') → bind m k s = (inl e, s').
Proof. unfold bind. by intros ->. Qed.

Lemma bind_inv {S A B} (m : Eff S A) (k : A → Eff S B) s b s2 :
  bind m k s = (inr b, s2) → ∃ a s1, m s = (inr a, s1) ∧ k a s1 = (inr b, s2).
Proof.
  unfold bind. destruct (m s) as [[e|a] s1]; [done|]. intros H. by exists a, s1.
Qed.

Lemma getattr_some {S A} (field : S → option A) attr s a :
  field s = Some a → getattr field attr s = (inr a, s).
Proof. unfold getattr. by intros ->. Qed.

Lemma getattr_none {S A} (field : S → option A) attr s :
  field s = None → getattr field attr s = (inl (AttributeError attr), s).
Proof. unfold getattr. by intros ->. Qed.

Lemma bind_assoc {S A B C} (m : Eff S A) (f : A → Eff S B) (k : B → Eff S C) s :
  bind (bind m f) k s = bind m (λ a, bind (f a) k) s.
Proof. unfold bind. by destruct (m s) as [[e|a] s']. Qed.

Lemma bind_modify {S B} (f : S → S) (k : unit → Eff S B) s :
  bind (modify f) k s = k tt (f s).
Proof. done. Qed.

Lemma bind_ret {S A B} (a : A) (k : A → Eff S B) s : bind (ret a) k s = k a s.
Proof. done. Qed.

Lemma bind_get {S B} (k : S → Eff S B) s : bind get k s = k s s.
Proof. done. Qed.

Lemma bind_lift {S A B} (r : Exn + A) (k : A → Eff S B) s :
  bind (lift r) k s = match r with inl e => (inl e, s) | inr a => k a s end.
Proof. unfold bind, lift. by destruct r. Qed.

Lemma bind_getattr {S A B} (field : S → option A) attr (k : A → Eff S B) s a :
  field s = Some a → bind (getattr field attr) k s = k a s.
Proof. intros H. by rewrite (bind_inr _ _ _ _ _ (getattr_some _ attr _ _ H)). Qed.

(** Runs the first statement of a sequence with a known result. *)
Ltac run_with H := rewrite ?bind_assoc; rewrite (bind_inr _ _ _ _ _ H).

Lemma on_self_run {A} (m : Eff LocateSolver A) self w r self' :
  m self = (r, self') → on_self m (self, w) = (r, (self', w)).
Proof. unfold on_self. by intros ->. Qed.

(** A loop whose body succeeds and re-establishes an invariant of the
    elements already visited. *)
Lemma for_each_inv {S A} (I : list A → S → Prop) (xs : list A)
    (body : A → Eff S unit) (s : S) :
  I [] s →
  (∀ pre x post s1, xs = pre ++ x :: post → I pre s1 →
     ∃ s2, body x s1 = (inr tt, s2) ∧ I (pre ++ [x]) s2) →
  ∃ s', for_each xs body s = (inr tt, s') ∧ I xs s'.
Proof.
  intros H0 Hstep.
  assert (∀ post pre s1, xs = pre ++ post → I pre s1 →
            ∃ s', for_each post body s1 = (inr tt, s') ∧ I xs s') as Hgen.
  { induction post as [|x post IH]; intros pre s1 Hxs Hpre.
    - exists s1. rewrite app_nil_r in Hxs. by subst.
    - destruct (Hstep pre x post s1 Hxs Hpre) as (s2 & Hb & Hi).
      destruct (IH (pre ++ [x]) s2) as (s' & Hr & Hs'); [|done|].
      { by rewrite <- app_assoc. }
      exists s'. split; [|done]. cbn. by rewrite (bind_inr _ _ _ _ _ Hb). }
  by apply (Hgen xs [] s).
Qed.

(** A loop over local variables whose body reads the state only. *)
Lemma foldM_pure {S A B} (body : B → A → Eff S B) (g : B → A → B)
    (xs : list A) (acc : B) (s : S) :
  (∀ acc x, x ∈ xs → body acc x s = (inr (g acc x), s)) →
  foldM body xs acc s = (inr (foldl g acc xs), s).
Proof.
  revert acc. induction xs as [|x xs IH]; intros acc Hb; [done|].
  cbn. rewrite (bind_inr _ _ _ _ _ (Hb acc x ltac:(left))).
  apply IH. intros acc' y Hy. apply Hb. by right.
Qed.

Lemma emap_inr {A B} (f : A → Exn + B) (g : A → B) (xs : list A) :
  (∀ x, x ∈ xs → f x = inr (g x)) → emap f xs = inr (map g xs).
Proof.
  induction xs as [|x xs IH]; intros Hf; [done|].
  cbn. rewrite (Hf x) by left. cbn. rewrite IH; [done|].
  intros y Hy. apply Hf. by right.
Qed.

Lemma emap_inv {A B} (f : A → Exn + B) (xs : list A) (ys : list B) :
  emap f xs = inr ys → Forall2 (λ x y, f x = inr y) xs ys.
Proof.
  revert ys. induction xs as [|x xs IH]; intros ys; cbn.
  - intros [= <-]. constructor.
  - destruct (f x) as [e|y] eqn:Hx; [done|]. cbn.
    destruct (emap f xs) as [e|ys'] eqn:Hxs; [done|]. cbn.
    intros [= <-]. constructor; [done|]. by apply IH.
Qed.

Lemma elem_of_range (n i : nat) : i ∈ range n ↔ i < n.
Proof. unfold range. rewrite elem_of_seq. lia. Qed.

Lemma getitem_inr {A} (xs : list A) (i : nat) (x : A) :
  xs !! i = Some x → getitem xs i = inr x.
Proof. unfold getitem. by intros ->. Qed.

Lemma getitem_lt {A} (xs : list A) (i : nat) :
  i < length xs → ∃ x, xs !! i = Some x ∧ getitem xs i = inr x.
Proof.
  intros Hi. destruct (lookup_lt_is_Some_2 xs i Hi) as [x Hx].
  exists x. split; [done|]. by apply getitem_inr.
Qed.

(** ** Two-dimensional arrays *)

Lemma getitem2_lt {A} (a : ndarray A) (i j : nat) :
  ndarray_ok a → i < (shape a).1 → j < (shape a).2 →
  ∃ row v, data a !! i = Some row ∧ row !! j = Some v ∧ getitem2 a i j = inr v.
Proof.
  intros [Hlen Hrows] Hi Hj.
  destruct (getitem_lt (data a) i) as (row & Hrow & Hg); [lia|].
  assert (length row = (shape a).2) as Hr.
  { rewrite Forall_forall in Hrows. apply Hrows. by eapply list_elem_of_lookup_2. }
  destruct (getitem_lt row j) as (v & Hv & Hg'); [lia|].
  exists row, v. split_and!; [done..|].
  unfold getitem2. by rewrite Hg.
Qed.

Lemma setitem_mask_coverage (cost_matrix : ndarray float) (service_radius : float) :
  setitem_mask (np_zeros (shape cost_matrix)) (np_le cost_matrix service_radius) 1
  = inr (coverage_matrix cost_matrix service_radius).
Proof. unfold setitem_mask. cbn. by rewrite decide_True. Qed.

Lemma coverage_matrix_lookup (cost_matrix : ndarray float) (r : float) i j row c :
  ndarray_ok cost_matrix →
  data cost_matrix !! i = Some row → row !! j = Some c →
  getitem2 (coverage_matrix cost_matrix r) i j
  = inr (if (c <=? r)%float then 1%float else 0%float).
Proof.
  intros [Hlen Hrows] Hrow Hc.
  assert (i < (shape cost_matrix).1) as Hi.
  { rewrite <- Hlen. by eapply lookup_lt_Some. }
  assert (length row = (shape cost_matrix).2) as Hr.
  { rewrite Forall_forall in Hrows. apply Hrows. by eapply list_elem_of_lookup_2. }
  assert (j < (shape cost_matrix).2) as Hj.
  { rewrite <- Hr. by eapply lookup_lt_Some. }
  unfold getitem2, getitem, coverage_matrix. cbn.
  rewrite lookup_zip_with, lookup_replicate_2, list_lookup_fmap, Hrow by done. cbn.
  rewrite lookup_zip_with, lookup_replicate_2, list_lookup_fmap, Hc by done. cbn.
  by destruct (c <=? r)%float.
Qed.

Lemma coverage_matrix_ok (cost_matrix : ndarray float) (r : float) :
  ndarray_ok cost_matrix → ndarray_ok (coverage_matrix cost_matrix r).
Proof.
  intros [Hlen Hrows]. split; cbn.
  - rewrite length_zip_with, length_replicate, length_map. lia.
  - apply Forall_forall. intros row Hrow.
    apply list_elem_of_lookup in Hrow as [i Hi].
    rewrite lookup_zip_with in Hi.
    destruct (replicate _ _ !! i) as [zs|] eqn:Hz; [|done]. cbn in Hi.
    rewrite list_lookup_fmap in Hi.
    destruct (data cost_matrix !! i) as [cs|] eqn:Hcs; [|done]. cbn in Hi.
    injection Hi as <-.
    apply lookup_replicate in Hz as [-> _].
    rewrite length_zip_with, length_replicate, length_map.
    rewrite Forall_forall in Hrows. rewrite (Hrows cs); [lia|].
    by eapply list_elem_of_lookup_2.
Qed.

(** ** Steps that only touch the problem *)

Lemma set_problem_same (s : LocateSolver) : set_problem (problem s) s = s.
Proof. by destruct s. Qed.

Lemma only_problem_ret {A} (a : A) : only_problem (ret a).
Proof. intros s r s' [= <- <-]. by rewrite set_problem_same. Qed.

Lemma only_problem_raise {A} (e : Exn) : only_problem (@raise _ A e).
Proof. intros s r s' [= <- <-]. by rewrite set_problem_same. Qed.

Lemma only_problem_lift {A} (x : Exn + A) : only_problem (lift x).
Proof. intros s r s' [= <- <-]. by rewrite set_problem_same. Qed.

Lemma only_problem_get : only_problem get.
Proof. intros s r s' [= <- <-]. by rewrite set_problem_same. Qed.

Lemma only_problem_getattr {A} (field : LocateSolver → option A) attr :
  only_problem (getattr field attr).
Proof.
  intros s r s'. unfold getattr.
  destruct (field s); intros [= <- <-]; by rewrite set_problem_same.
Qed.

Lemma only_problem_bind {A B} (m : Eff LocateSolver A) (k : A → Eff LocateSolver B) :
  only_problem m → (∀ a, only_problem (k a)) → only_problem (bind m k).
Proof.
  intros Hm Hk s r s'. unfold bind.
  destruct (m s) as [[e|a] s1] eqn:H1.
  - intros [= <- <-]. by apply (Hm _ _ _ H1).
  - intros H2. apply Hk in H2. apply Hm in H1. rewrite H2, H1. done.
Qed.

Lemma only_problem_modify (f : LpProblem → LpProblem) :
  only_problem (modify (λ o, set_problem (f (problem o)) o)).
Proof. intros s r s' [= <- <-]. done. Qed.

Lemma only_problem_add_rows rows : only_problem (add_rows rows).
Proof. apply (only_problem_modify (λ p, foldl (λ p c, add_constraint c p) p rows)). Qed.

Create HintDb frame discriminated.
#[local] Hint Resolve only_problem_ret only_problem_raise only_problem_lift
  only_problem_get only_problem_getattr only_problem_add_rows : frame.

Ltac frame :=
  repeat first
    [ apply only_problem_bind; [|intros ?]
    | solve [auto with frame]
    | apply (only_problem_modify (λ p, set_objective _ p))
    | match goal with |- only_problem (match ?x with _ => _ end) => destruct x end
    | match goal with |- only_problem (let '(_, _) := ?x in _) => destruct x end ].

Lemma only_problem_predefined arr : only_problem (add_predefined_facility_constraint arr).
Proof. unfold add_predefined_facility_constraint. frame. Qed.

Lemma only_problem_set_covering a rf rc : only_problem (add_set_covering_constraint a rf rc).
Proof. unfold add_set_covering_constraint. frame. Qed.

Lemma only_problem_backup_covering a rf rc :
  only_problem (add_backup_covering_constraint a rf rc).
Proof. unfold add_backup_covering_constraint. frame. Qed.

Lemma only_problem_maximal_coverage a rf rc :
  only_problem (add_maximal_coverage_constraint a rf rc).
Proof. unfold add_maximal_coverage_constraint. frame. Qed.

Lemma only_problem_facility_constraint p : only_problem (add_facility_constraint p).
Proof. unfold add_facility_constraint. frame. Qed.

Lemma only_problem_interfacility cm rf :
  only_problem (add_p_dispersion_interfacility_constraint cm rf).
Proof. unfold add_p_dispersion_interfacility_constraint. frame. Qed.

Lemma only_problem_LSCP_add_obj : only_problem LSCP_add_obj.
Proof. unfold LSCP_add_obj. frame. Qed.

Lemma only_problem_LSCPB_add_obj : only_problem LSCPB_add_obj.
Proof. unfold LSCPB_add_obj. frame. Qed.

Lemma only_problem_MCLP_add_obj ws rc : only_problem (MCLP_add_obj ws rc).
Proof. unfold MCLP_add_obj. frame. Qed.

Lemma only_problem_PDispersion_add_obj : only_problem PDispersion_add_obj.
Proof. unfold PDispersion_add_obj. frame. Qed.

#[local] Hint Resolve only_problem_predefined only_problem_set_covering
  only_problem_backup_covering only_problem_maximal_coverage
  only_problem_facility_constraint only_problem_interfacility
  only_problem_LSCP_add_obj only_problem_LSCPB_add_obj only_problem_MCLP_add_obj
  only_problem_PDispersion_add_obj : frame.

(** ** Constraint builders *)

Lemma constraints_foldl_add (rows : list LpConstraint) (p : LpProblem) :
  constraints (foldl (λ p c, add_constraint c p) p rows) = constraints p ++ rows.
Proof.
  revert p. induction rows as [|c rows IH]; intros p; cbn.
  - by rewrite app_nil_r.
  - rewrite IH. cbn. by rewrite <- app_assoc.
Qed.

Lemma with_rows_nil (s : LocateSolver) : with_rows [] s = s.
Proof. unfold with_rows. cbn. apply set_problem_same. Qed.

Lemma add_rows_run rows s : add_rows rows s = (inr tt, with_rows rows s).
Proof. done. Qed.

Lemma builder_run {A} (field : LocateSolver → option A) attr
    (rows_of : A → Exn + list LpConstraint) s a :
  field s = Some a →
  (let* x := getattr field attr in let* rows := lift (rows_of x) in add_rows rows) s
  = match rows_of a with
    | inr rows => (inr tt, with_rows rows s)
    | inl e => (inl e, s)
    end.
Proof. intros H. rewrite (bind_getattr _ _ _ _ _ H), bind_lift. by destruct (rows_of a). Qed.

Lemma add_predefined_run arr s fv :
  fac_vars s = Some fv →
  add_predefined_facility_constraint arr s
  = match predefined_rows fv arr with
    | inr rows => (inr tt, with_rows rows s)
    | inl e => (inl e, s)
    end.
Proof. apply (builder_run fac_vars "fac_vars" (λ fv, predefined_rows fv arr)). Qed.

Lemma optional_predefined_run predefined s fv :
  fac_vars s = Some fv →
  match predefined with
  | Some arr => add_predefined_facility_constraint arr
  | None => ret tt
  end s
  = match optional_predefined_rows fv predefined with
    | inr rows => (inr tt, with_rows rows s)
    | inl e => (inl e, s)
    end.
Proof.
  intros H. destruct predefined as [arr|]; cbn.
  - by apply add_predefined_run.
  - by rewrite with_rows_nil.
Qed.

Lemma add_set_covering_run a rf rc s fv :
  fac_vars s = Some fv →
  add_set_covering_constraint a rf rc s
  = match set_covering_rows fv a rf rc with
    | inr rows => (inr tt, with_rows rows s)
    | inl e => (inl e, s)
    end.
Proof. apply (builder_run fac_vars "fac_vars" (λ fv, set_covering_rows fv a rf rc)). Qed.

Lemma add_backup_covering_run a rf rc s fv cv :
  fac_vars s = Some fv → cli_vars s = Some cv →
  add_backup_covering_constraint a rf rc s
  = match backup_covering_rows fv cv a rf rc with
    | inr rows => (inr tt, with_rows rows s)
    | inl e => (inl e, s)
    end.
Proof.
  intros Hf Hc. unfold add_backup_covering_constraint.
  rewrite (bind_getattr _ _ _ _ _ Hf).
  by apply (builder_run cli_vars "cli_vars" (λ cv, backup_covering_rows fv cv a rf rc)).
Qed.

Lemma add_maximal_coverage_run a rf rc s fv cv :
  fac_vars s = Some fv → cli_vars s = Some cv →
  add_maximal_coverage_constraint a rf rc s
  = match maximal_coverage_rows fv cv a rf rc with
    | inr rows => (inr tt, with_rows rows s)
    | inl e => (inl e, s)
    end.
Proof.
  intros Hf Hc. unfold add_maximal_coverage_constraint.
  rewrite (bind_getattr _ _ _ _ _ Hf).
  by apply (builder_run cli_vars "cli_vars" (λ cv, maximal_coverage_rows fv cv a rf rc)).
Qed.

Lemma add_facility_constraint_run p s fv :
  fac_vars s = Some fv →
  add_facility_constraint p s
  = (inr tt, with_rows [facility_count_row (class_of s) fv p] s).
Proof.
  intros Hf. unfold add_facility_constraint.
  by rewrite (bind_getattr _ _ _ _ _ Hf), bind_get.
Qed.

Lemma emap_ok {A B} (f : A → Exn + B) (xs : list A) :
  (∀ x, x ∈ xs → ∃ y, f x = inr y) → ∃ ys, emap f xs = inr ys.
Proof.
  induction xs as [|x xs IH]; intros Hf; [by eexists|].
  destruct (Hf x) as [y Hy]; [left|].
  destruct IH as [ys Hys]; [intros z Hz; apply Hf; by right|].
  exists (y :: ys). cbn. by rewrite Hy, Hys.
Qed.

Lemma coverage_terms_ok fv (a : ndarray float) i :
  ndarray_ok a → length fv = (shape a).2 → i < (shape a).1 →
  ∃ ts, coverage_terms fv a (range (shape a).2) i = inr ts.
Proof.
  intros Ha Hfv Hi. apply emap_ok. intros j Hj%elem_of_range.
  destruct (getitem2_lt a i j) as (row & v & _ & _ & ->); [done..|].
  destruct (getitem_lt fv j) as (y & _ & Hy); [lia|].
  cbn. rewrite Hy. by eexists.
Qed.

Lemma set_covering_rows_ok fv (a : ndarray float) :
  ndarray_ok a → length fv = (shape a).2 →
  ∃ rows, set_covering_rows fv a (range (shape a).2) (range (shape a).1) = inr rows.
Proof.
  intros Ha Hfv. apply emap_ok. intros i Hi%elem_of_range.
  destruct (coverage_terms_ok fv a i) as [ts ->]; [done..|]. by eexists.
Qed.

Lemma backup_covering_rows_ok fv cv (a : ndarray float) :
  ndarray_ok a → length fv = (shape a).2 → length cv = (shape a).1 →
  ∃ rows, backup_covering_rows fv cv a (range (shape a).2) (range (shape a).1) = inr rows.
Proof.
  intros Ha Hfv Hcv. apply emap_ok. intros i Hi%elem_of_range.
  destruct (coverage_terms_ok fv a i) as [ts ->]; [done..|].
  destruct (getitem_lt cv i) as (x & _ & Hx); [lia|].
  cbn. rewrite Hx. by eexists.
Qed.

Lemma maximal_coverage_rows_ok fv cv (a : ndarray float) :
  ndarray_ok a → length fv = (shape a).2 → length cv = (shape a).1 →
  ∃ rows, maximal_coverage_rows fv cv a (range (shape a).2) (range (shape a).1) = inr rows.
Proof.
  intros Ha Hfv Hcv. apply emap_ok. intros i Hi%elem_of_range.
  destruct (coverage_terms_ok fv a i) as [ts ->]; [done..|].
  destruct (getitem_lt cv i) as (x & _ & Hx); [lia|].
  cbn. rewrite Hx. by eexists.
Qed.

Lemma length_facility_variables r t : length (facility_variables r t) = length r.
Proof. apply length_map. Qed.

Lemma length_client_variables r t : length (client_variables r t) = length r.
Proof. apply length_map. Qed.

Lemma length_range n : length (range n) = n.
Proof. apply length_seq. Qed.

(** ** What [from_cost_matrix] returns *)

Lemma build_on_self_inv (o : LocateSolver) (steps : Eff LocateSolver unit) w m w' :
  build o (on_self steps) w = (inr m, w') → w' = w ∧ steps o = (inr tt, m).
Proof.
  unfold build, on_self. destruct (steps o) as [[e|[]] o']; intros [= <- <-]; done.
Qed.

Lemma build_on_self_inl (o : LocateSolver) (steps : Eff LocateSolver unit) w e w' :
  build o (on_self steps) w = (inl e, w') → w' = w ∧ ∃ o', steps o = (inl e, o').
Proof.
  unfold build, on_self. destruct (steps o) as [[e'|[]] o']; intros [= <- <-]; eauto.
Qed.

Lemma LSCP_from_cost_matrix_inv cost_matrix service_radius predefined nm w m w' :
  LSCP_from_cost_matrix cost_matrix service_radius predefined nm w = (inr m, w') →
  w' = w ∧
  m = set_problem (problem m)
        (set_aij (coverage_matrix cost_matrix service_radius)
           (set_fac_vars (facility_variables (range (shape cost_matrix).2) "y[{i}]")
              (new_LocateSolver LSCP nm (new_LpProblem nm LpMinimize)))).
Proof.
  unfold LSCP_from_cost_matrix. intros H.
  apply build_on_self_inv in H as [-> H]. split; [done|].
  unfold add_facility_integer_variable in H.
  rewrite !bind_modify in H.
  rewrite (bind_getattr aij _ _ _ (np_zeros (shape cost_matrix))) in H by done.
  rewrite bind_lift, setitem_mask_coverage, bind_modify in H.
  revert H. apply only_problem_bind; [|intros ?]; frame.
Qed.

(** ** Result extraction: [facility_client_array] *)

Lemma foldl_select (P : nat → bool) (xs acc : list nat) :
  foldl (λ acc i, if P i then acc ++ [i] else acc) acc xs
  = acc ++ filter (λ i, P i = true) xs.
Proof.
  revert acc. induction xs as [|x xs IH]; intros acc; cbn [foldl].
  - by rewrite filter_nil, app_nil_r.
  - rewrite IH, filter_cons. destruct (P x).
    + rewrite decide_True by done. by rewrite <- app_assoc.
    + rewrite decide_False by done. done.
Qed.

Lemma covered_clients_run (j : nat) self a :
  aij self = Some a → ndarray_ok a → j < (shape a).2 →
  covered_clients j self
  = (inr (filter (λ i, covers a i j = true) (range (shape a).1)), self).
Proof.
  intros Ha Hok Hj. unfold covered_clients.
  rewrite (bind_getattr _ _ _ _ _ Ha).
  rewrite (foldM_pure _ (λ acc i, if covers a i j then acc ++ [i] else acc)).
  - by rewrite foldl_select.
  - intros acc i Hi%elem_of_range.
    rewrite (bind_getattr _ _ _ _ _ Ha), bind_lift. unfold covers.
    destruct (getitem2_lt a i j) as (row & v & _ & _ & ->); [done..|].
    by destruct (0 <? v)%float.
Qed.

Lemma var_value_run (y : LpVariable) self σ :
  varValue (problem self) = Some σ → var_value y self = (inr (σ (var_id y)), self).
Proof. unfold var_value. rewrite bind_get. by intros ->. Qed.

Lemma MCLP_covered_clients_run (cv : list LpVariable) (j : nat) self a σ :
  aij self = Some a → ndarray_ok a → j < (shape a).2 →
  (shape a).1 ≤ length cv → varValue (problem self) = Some σ →
  MCLP_covered_clients cv j self
  = (inr (filter (λ i, client_positive σ cv i && covers a i j = true)
            (range (shape a).1)), self).
Proof.
  intros Ha Hok Hj Hcv Hσ. unfold MCLP_covered_clients.
  rewrite (bind_getattr _ _ _ _ _ Ha).
  rewrite (foldM_pure _
    (λ acc i, if client_positive σ cv i && covers a i j then acc ++ [i] else acc)).
  - by rewrite foldl_select.
  - intros acc i Hi%elem_of_range.
    destruct (getitem_lt cv i) as (x & Hx & Hgx); [lia|].
    rewrite bind_lift, Hgx, (bind_inr _ _ _ _ _ (var_value_run x self σ Hσ)).
    unfold client_positive. rewrite Hx. unfold positive.
    destruct (0 <? σ (var_id x))%float; [|done]. cbn.
    rewrite (bind_getattr _ _ _ _ _ Ha), bind_lift. unfold covers.
    destruct (getitem2_lt a i j) as (row & v & _ & _ & ->); [done..|].
    by destruct (0 <? v)%float.
Qed.

(** The outer loop, for any inner loop that computes the row of [j]. *)
Lemma facility_loop_run (inner : nat → Eff LocateSolver (list nat))
    (row : nat → list nat) self fv σ :
  varValue (problem self) = Some σ →
  (∀ j y s, fv !! j = Some y → positive σ y = true →
     aij s = aij self → problem s = problem self →
     inner j s = (inr (row j), s)) →
  for_each (range (length fv)) (λ j,
    let* y := lift (getitem fv j) in
    let* value := var_value y in
    let* array_cli := if (0 <? value)%float then inner j else ret [] in
    fac2cli_append array_cli) (set_fac2cli [] self)
  = (inr tt,
     set_fac2cli (map (λ j, match fv !! j with
                            | Some y => if positive σ y then row j else []
                            | None => []
                            end) (range (length fv))) self).
Proof.
  intros Hσ Hinner.
  set (r := λ j, match fv !! j with
                 | Some y => if positive σ y then row j else []
                 | None => []
                 end).
  destruct (for_each_inv (λ pre s1, s1 = set_fac2cli (map r pre) self)
              (range (length fv))
              (λ j, let* y := lift (getitem fv j) in
                    let* value := var_value y in
                    let* array_cli := if (0 <? value)%float then inner j else ret [] in
                    fac2cli_append array_cli)
              (set_fac2cli [] self)) as (s' & Hrun & Hs'); [done| |by subst].
  intros pre j post s1 Hxs ->.
  assert (j < length fv) as Hj.
  { apply elem_of_range. rewrite Hxs. apply elem_of_app. right. left. }
  destruct (getitem_lt fv j) as (y & Hy & Hgy); [done|].
  eexists. split; [|reflexivity].
  rewrite bind_lift, Hgy.
  rewrite (bind_inr _ _ _ _ _ (var_value_run y (set_fac2cli (map r pre) self) σ Hσ)).
  rewrite map_app. cbn [map].
  assert (r j = if positive σ y then row j else []) as -> by (unfold r; by rewrite Hy).
  unfold positive in *.
  destruct (0 <? σ (var_id y))%float eqn:Hpos.
  - rewrite (bind_inr _ _ _ _ _
      (Hinner j y (set_fac2cli (map r pre) self) Hy Hpos eq_refl eq_refl)). done.
  - done.
Qed.

Lemma LSCP_facility_client_array_run self fv a σ :
  fac_vars self = Some fv → aij self = Some a → ndarray_ok a →
  length fv ≤ (shape a).2 → varValue (problem self) = Some σ →
  LSCP_facility_client_array self
  = (inr tt, set_fac2cli (map (fac2cli_row σ fv a) (range (length fv))) self).
Proof.
  intros Hfv Ha Hok Hlen Hσ. unfold LSCP_facility_client_array.
  rewrite (bind_getattr _ _ _ _ _ Hfv), bind_modify.
  apply (facility_loop_run covered_clients
           (λ j, filter (λ i, covers a i j = true) (range (shape a).1))); [done|].
  intros j y s Hy _ Has _. apply covered_clients_run; [by rewrite Has|done|].
  apply lookup_lt_Some in Hy. lia.
Qed.

Lemma LSCPB_facility_client_array_run self fv a σ :
  fac_vars self = Some fv → aij self = Some a → ndarray_ok a →
  length fv ≤ (shape a).2 → varValue (problem self) = Some σ →
  LSCPB_facility_client_array self
  = (inr tt, set_fac2cli (map (fac2cli_row σ fv a) (range (length fv))) self).
Proof.
  intros Hfv Ha Hok Hlen Hσ. unfold LSCPB_facility_client_array.
  rewrite (bind_getattr _ _ _ _ _ Hfv), bind_modify.
  apply (facility_loop_run covered_clients
           (λ j, filter (λ i, covers a i j = true) (range (shape a).1))); [done|].
  intros j y s Hy _ Has _. apply covered_clients_run; [by rewrite Has|done|].
  apply lookup_lt_Some in Hy. lia.
Qed.

Lemma MCLP_facility_client_array_run self fv cv a σ :
  fac_vars self = Some fv → cli_vars self = Some cv → aij self = Some a →
  ndarray_ok a → length fv ≤ (shape a).2 → (shape a).1 ≤ length cv →
  varValue (problem self) = Some σ →
  MCLP_facility_client_array self
  = (inr tt, set_fac2cli (map (MCLP_fac2cli_row σ fv cv a) (range (length fv))) self).
Proof.
  intros Hfv Hcv Ha Hok Hlen Hlen' Hσ. unfold MCLP_facility_client_array.
  rewrite (bind_getattr _ _ _ _ _ Hfv), (bind_getattr _ _ _ _ _ Hcv), bind_modify.
  apply (facility_loop_run (MCLP_covered_clients cv)
           (λ j, filter (λ i, client_positive σ cv i && covers a i j = true)
                   (range (shape a).1))); [done|].
  intros j y s Hy _ Has Hps.
  apply MCLP_covered_clients_run; [by rewrite Has|done| |done|by rewrite Hps].
  apply lookup_lt_Some in Hy. lia.
Qed.

(** ** Result extraction: [client_facility_array] *)

Lemma entry_elem_insert_app (l : list (list nat)) (i j : nat) (row : list nat) i' x :
  l !! i = Some row →
  entry_elem (<[i := row ++ [j]]> l) i' x ↔ entry_elem l i' x ∨ (i' = i ∧ x = j).
Proof.
  intros Hrow. unfold entry_elem.
  assert (i < length l) as Hi by by eapply lookup_lt_Some.
  destruct (decide (i' = i)) as [->|Hne].
  - rewrite list_lookup_insert_eq by done. split.
    + intros (r & [= <-] & Hx). apply elem_of_app in Hx as [Hx|Hx%list_elem_of_singleton].
      * left. by exists row.
      * by right.
    + intros [(r & Hr & Hx)|[_ ->]].
      * exists (row ++ [j]). split; [done|]. apply elem_of_app. left. congruence.
      * exists (row ++ [j]). split; [done|]. apply elem_of_app. right. by left.
  - rewrite list_lookup_insert_ne by done. split; [by left|].
    intros [H|[? _]]; done.
Qed.

(** The loop over the clients of one facility. *)
Lemma client_loop_run (j : nat) (clients : list nat) (c2f : list (list nat)) self :
  (∀ i, i ∈ clients → i < length c2f) →
  ∃ c2f',
    for_each clients (λ i,
      let* c2f := getattr cli2fac "cli2fac" in
      let* row := lift (getitem c2f i) in
      modify (set_cli2fac (<[i := row ++ [j]]> c2f))) (set_cli2fac c2f self)
    = (inr tt, set_cli2fac c2f' self) ∧
    length c2f' = length c2f ∧
    ∀ i x, entry_elem c2f' i x ↔ entry_elem c2f i x ∨ (i ∈ clients ∧ x = j).
Proof.
  clear cdist big_M median_results. intros Hin.
  destruct (for_each_inv
    (λ pre s1, ∃ c2f', s1 = set_cli2fac c2f' self ∧ length c2f' = length c2f ∧
       ∀ i x, entry_elem c2f' i x ↔ entry_elem c2f i x ∨ (i ∈ pre ∧ x = j))
    clients
    (λ i, let* c2f := getattr cli2fac "cli2fac" in
          let* row := lift (getitem c2f i) in
          modify (set_cli2fac (<[i := row ++ [j]]> c2f)))
    (set_cli2fac c2f self)) as (s' & Hrun & c2f' & -> & Hlen & Hiff).
  - exists c2f. split_and!; [done..|]. intros i x. split; [by left|].
    intros [H|[H%elem_of_nil _]]; done.
  - intros pre i post s1 Hxs (c1 & -> & Hlen1 & Hiff1).
    assert (i < length c1) as Hi.
    { rewrite Hlen1. apply Hin. rewrite Hxs. apply elem_of_app. right. left. }
    destruct (getitem_lt c1 i) as (row & Hrow & Hg); [done|].
    eexists. split.
    + rewrite (bind_getattr cli2fac _ _ _ c1) by done.
      rewrite bind_lift, Hg. reflexivity.
    + exists (<[i := row ++ [j]]> c1). split_and!; [done|by rewrite length_insert|].
      intros i' x. rewrite (entry_elem_insert_app _ _ _ _ _ _ Hrow), Hiff1.
      rewrite elem_of_app, list_elem_of_singleton. tauto.
  - by exists c2f'.
Qed.

Lemma entry_elem_replicate_nil (n i x : nat) : ¬ entry_elem (replicate n []) i x.
Proof.
  intros (row & Hrow & Hx). apply lookup_replicate in Hrow as [-> _].
  by apply elem_of_nil in Hx.
Qed.

Lemma client_facility_array_run self f2c a :
  fac2cli self = Some f2c → aij self = Some a →
  (∀ j i, entry_elem f2c j i → i < (shape a).1) →
  ∃ c2f,
    client_facility_array self = (inr tt, set_cli2fac c2f self) ∧
    length c2f = (shape a).1 ∧
    ∀ i j, entry_elem c2f i j ↔ entry_elem f2c j i.
Proof.
  intros Hf Ha Hbound. unfold client_facility_array.
  rewrite (bind_getattr _ _ _ _ _ Hf), (bind_getattr _ _ _ _ _ Ha), bind_modify.
  destruct (for_each_inv
    (λ pre s1, ∃ c2f, s1 = set_cli2fac c2f self ∧ length c2f = (shape a).1 ∧
       ∀ i j, entry_elem c2f i j ↔ j ∈ pre ∧ entry_elem f2c j i)
    (range (length f2c))
    (λ j, let* clients := lift (getitem f2c j) in
          for_each clients (λ i,
            let* c2f := getattr cli2fac "cli2fac" in
            let* row := lift (getitem c2f i) in
            modify (set_cli2fac (<[i := row ++ [j]]> c2f))))
    (set_cli2fac (replicate (shape a).1 []) self)) as (s' & Hrun & c2f & -> & Hlen & Hiff).
  - exists (replicate (shape a).1 []). split_and!; [done|by rewrite length_replicate|].
    intros i j. split.
    + by intros H%entry_elem_replicate_nil.
    + by intros [H%elem_of_nil _].
  - intros pre j post s1 Hxs (c1 & -> & Hlen1 & Hiff1).
    assert (j < length f2c) as Hj.
    { apply elem_of_range. rewrite Hxs. apply elem_of_app. right. left. }
    assert (j ∉ pre) as Hfresh.
    { intros Hin. pose proof (NoDup_seq 0 (length f2c)) as Hnd.
      fold (range (length f2c)) in Hnd. rewrite Hxs in Hnd.
      apply NoDup_app in Hnd as (_ & Hnd & _). apply (Hnd j Hin). left. }
    destruct (getitem_lt f2c j) as (clients & Hcl & Hg); [done|].
    destruct (client_loop_run j clients c1 self) as (c2 & Hloop & Hlen2 & Hiff2).
    { intros i Hi. rewrite Hlen1. apply (Hbound j). by exists clients. }
    exists (set_cli2fac c2 self). split.
    + by rewrite bind_lift, Hg.
    + exists c2. split_and!; [done|lia|].
      intros i x. rewrite Hiff2, Hiff1, elem_of_app, list_elem_of_singleton.
      unfold entry_elem. split.
      * intros [[Hx He]|[Hi ->]]; [by auto|]. split; [by right|]. by exists clients.
      * intros [[Hx| ->] (row & Hrow & Hi)].
        -- left. split; [done|]. by exists row.
        -- right. split; [|done]. congruence.
  - exists c2f. split_and!; [done..|].
    intros i j. rewrite Hiff. split; [by intros [_ ?]|].
    intros H. split; [|done]. apply elem_of_range.
    destruct H as (row & Hrow & _). by eapply lookup_lt_Some.
Qed.

(** ** [solve] *)

Lemma check_status_optimal s :
  status (problem s) = LpStatusOptimal → check_status s = (inr tt, s).
Proof. unfold check_status. rewrite bind_get. by intros ->. Qed.

Lemma check_status_not_optimal s :
  status (problem s) ≠ LpStatusOptimal →
  check_status s = (inl (RuntimeError (LpStatus_name (status (problem s)))), s).
Proof. unfold check_status. rewrite bind_get. by destruct (status (problem s)). Qed.

(** The statements every [solve] starts with. *)
Lemma solve_prefix_optimal {A} (solver : LpSolver) (k : Eff Env A) self w :
  sol_status (solver (problem self)) = LpStatusOptimal →
  (let* _ := problem_solve solver in let* _ := on_self check_status in k) (self, w)
  = k (solved solver self, count_solver_call w).
Proof.
  intros Hst. unfold problem_solve. rewrite bind_modify.
  by rewrite (bind_inr _ _ _ _ _
    (on_self_run _ _ _ _ _ (check_status_optimal (solved solver self) Hst))).
Qed.

Lemma solve_prefix_not_optimal {A} (solver : LpSolver) (k : Eff Env A) self w :
  sol_status (solver (problem self)) ≠ LpStatusOptimal →
  (let* _ := problem_solve solver in let* _ := on_self check_status in k) (self, w)
  = (inl (RuntimeError (LpStatus_name (sol_status (solver (problem self))))),
     (solved solver self, count_solver_call w)).
Proof.
  intros Hst. unfold problem_solve. rewrite bind_modify.
  by rewrite (bind_inl _ _ _ _ _
    (on_self_run _ _ _ _ _ (check_status_not_optimal (solved solver self) Hst))).
Qed.

Lemma entry_elem_map_range (row : nat → list nat) (n j i : nat) :
  entry_elem (map row (range n)) j i ↔ j < n ∧ i ∈ row j.
Proof.
  unfold entry_elem, range. split.
  - intros (r & Hr & Hi). rewrite list_lookup_fmap in Hr.
    destruct (seq 0 n !! j) as [j'|] eqn:Hj; [|done].
    apply lookup_seq in Hj as [-> Hj]. injection Hr as <-. done.
  - intros [Hj Hi]. exists (row j). split; [|done].
    by rewrite list_lookup_fmap, lookup_seq_lt.
Qed.

Lemma fac2cli_row_bound σ fv a j i : i ∈ fac2cli_row σ fv a j → i < (shape a).1.
Proof.
  unfold fac2cli_row. destruct (fv !! j) as [y|]; [|by intros ?%elem_of_nil].
  destruct (positive σ y); [|by intros ?%elem_of_nil].
  intros [_ Hi]%list_elem_of_filter. by apply elem_of_range.
Qed.

Lemma MCLP_fac2cli_row_bound σ fv cv a j i :
  i ∈ MCLP_fac2cli_row σ fv cv a j → i < (shape a).1.
Proof.
  unfold MCLP_fac2cli_row. destruct (fv !! j) as [y|]; [|by intros ?%elem_of_nil].
  destruct (positive σ y); [|by intros ?%elem_of_nil].
  intros [_ Hi]%list_elem_of_filter. by apply elem_of_range.
Qed.

Lemma LSCP_solve_results (solver : LpSolver) self w fv a :
  fac_vars self = Some fv → aij self = Some a → ndarray_ok a →
  length fv ≤ (shape a).2 →
  sol_status (solver (problem self)) = LpStatusOptimal →
  ∃ c2f self',
    LSCP_solve solver true (self, w) = (inr self', (self', count_solver_call w)) ∧
    self' = set_cli2fac c2f
              (set_fac2cli (map (fac2cli_row (solution_of solver self) fv a)
                              (range (length fv))) (solved solver self)) ∧
    length c2f = (shape a).1 ∧
    ∀ i j, entry_elem c2f i j
           ↔ entry_elem (map (fac2cli_row (solution_of solver self) fv a)
                           (range (length fv))) j i.
Proof.
  intros Hfv Ha Hok Hlen Hst. unfold LSCP_solve.
  rewrite (solve_prefix_optimal solver _ self w Hst).
  pose proof (LSCP_facility_client_array_run (solved solver self) fv a
                (solution_of solver self) Hfv Ha Hok Hlen eq_refl) as Hf2c.
  destruct (client_facility_array_run
              (set_fac2cli (map (fac2cli_row (solution_of solver self) fv a)
                              (range (length fv))) (solved solver self))
              _ a eq_refl Ha) as (c2f & Hc2f & Hlen' & Hinv).
  { intros j i [_ Hi]%entry_elem_map_range. by eapply fac2cli_row_bound. }
  exists c2f. eexists. split_and!; [|reflexivity|done..].
  apply on_self_run with (w := count_solver_call w) in Hf2c, Hc2f.
  by rewrite (bind_inr _ _ _ _ _ (eq_trans (bind_inr _ _ _ _ _ Hf2c) Hc2f)).
Qed.

Lemma backup_get_percentage_run s a c2f :
  aij s = Some a → cli2fac s = Some c2f →
  backup_get_percentage s
  = (inr tt,
     set_backup_perc
       (float_of_Z (Z.of_nat (length (filter (λ row : list nat, 2 ≤ length row) c2f)))
        / float_of_Z (Z.of_nat (shape a).1) * 100)%float s).
Proof.
  intros Ha Hc. unfold backup_get_percentage.
  by rewrite (bind_getattr _ _ _ _ _ Ha), (bind_getattr _ _ _ _ _ Hc).
Qed.

Lemma uncovered_clients_run s c2f :
  cli2fac s = Some c2f →
  uncovered_clients s
  = (inr tt, set_n_cli_uncov (length (filter (λ row, row = []) c2f)) s).
Proof. intros Hc. unfold uncovered_clients. by rewrite (bind_getattr _ _ _ _ _ Hc). Qed.

Lemma coverage_get_percentage_run s a uncov :
  aij s = Some a → n_cli_uncov s = Some uncov →
  coverage_get_percentage s
  = (inr tt,
     set_perc_cov
       (float_of_Z (Z.of_nat ((shape a).1 - uncov))
        / float_of_Z (Z.of_nat (shape a).1) * 100)%float s).
Proof.
  intros Ha Hu. unfold coverage_get_percentage.
  by rewrite (bind_getattr _ _ _ _ _ Ha), (bind_getattr _ _ _ _ _ Hu).
Qed.

Lemma LSCPB_solve_results (slv : LpSolver) self w fv a :
  solver self = Some slv →
  fac_vars self = Some fv → aij self = Some a → ndarray_ok a →
  length fv ≤ (shape a).2 →
  sol_status (slv (problem self)) = LpStatusOptimal →
  ∃ c2f self',
    LSCPB_solve true (self, w) = (inr self', (self', count_solver_call w)) ∧
    problem self' = LpProblem_solve slv (problem self) ∧
    fac_vars self' = fac_vars self ∧
    fac2cli self' = Some (map (fac2cli_row (solution_of slv self) fv a)
                            (range (length fv))) ∧
    cli2fac self' = Some c2f ∧
    length c2f = (shape a).1 ∧
    ∀ i j, entry_elem c2f i j
           ↔ entry_elem (map (fac2cli_row (solution_of slv self) fv a)
                           (range (length fv))) j i.
Proof.
  intros Hslv Hfv Ha Hok Hlen Hst. unfold LSCPB_solve.
  rewrite (bind_inr _ _ _ _ _
    (on_self_run _ _ w _ _ (getattr_some solver "solver" self slv Hslv))).
  rewrite (solve_prefix_optimal slv _ self w Hst).
  pose proof (LSCPB_facility_client_array_run (solved slv self) fv a
                (solution_of slv self) Hfv Ha Hok Hlen eq_refl) as Hf2c.
  destruct (client_facility_array_run
              (set_fac2cli (map (fac2cli_row (solution_of slv self) fv a)
                              (range (length fv))) (solved slv self))
              _ a eq_refl Ha) as (c2f & Hc2f & Hlen' & Hinv).
  { intros j i [_ Hi]%entry_elem_map_range. by eapply fac2cli_row_bound. }
  exists c2f. eexists. split.
  { apply on_self_run with (w := count_solver_call w) in Hf2c, Hc2f.
    run_with Hf2c. run_with Hc2f.
    run_with (on_self_run _ _ (count_solver_call w) _ _
      (backup_get_percentage_run
         (set_cli2fac c2f
            (set_fac2cli (map (fac2cli_row (solution_of slv self) fv a)
                            (range (length fv))) (solved slv self)))
         a c2f Ha eq_refl)).
    reflexivity. }
  split_and!; [reflexivity..|done|done].
Qed.

Lemma MCLP_solve_results (solver : LpSolver) self w fv cv a :
  fac_vars self = Some fv → cli_vars self = Some cv → aij self = Some a →
  ndarray_ok a → length fv ≤ (shape a).2 → (shape a).1 ≤ length cv →
  sol_status (solver (problem self)) = LpStatusOptimal →
  ∃ c2f self',
    MCLP_solve solver true (self, w) = (inr self', (self', count_solver_call w)) ∧
    problem self' = LpProblem_solve solver (problem self) ∧
    fac_vars self' = fac_vars self ∧
    fac2cli self' = Some (map (MCLP_fac2cli_row (solution_of solver self) fv cv a)
                            (range (length fv))) ∧
    cli2fac self' = Some c2f ∧
    length c2f = (shape a).1 ∧
    ∀ i j, entry_elem c2f i j
           ↔ entry_elem (map (MCLP_fac2cli_row (solution_of solver self) fv cv a)
                           (range (length fv))) j i.
Proof.
  intros Hfv Hcv Ha Hok Hlen Hlen2 Hst. unfold MCLP_solve.
  rewrite (solve_prefix_optimal solver _ self w Hst).
  pose proof (MCLP_facility_client_array_run (solved solver self) fv cv a
                (solution_of solver self) Hfv Hcv Ha Hok Hlen Hlen2 eq_refl) as Hf2c.
  destruct (client_facility_array_run
              (set_fac2cli (map (MCLP_fac2cli_row (solution_of solver self) fv cv a)
                              (range (length fv))) (solved solver self))
              _ a eq_refl Ha) as (c2f & Hc2f & Hlen' & Hinv).
  { intros j i [_ Hi]%entry_elem_map_range. by eapply MCLP_fac2cli_row_bound. }
  exists c2f. eexists. split.
  { apply on_self_run with (w := count_solver_call w) in Hf2c, Hc2f.
    run_with Hf2c. run_with Hc2f.
    run_with (on_self_run _ _ (count_solver_call w) _ _
      (uncovered_clients_run
         (set_cli2fac c2f
            (set_fac2cli (map (MCLP_fac2cli_row (solution_of solver self) fv cv a)
                            (range (length fv))) (solved solver self)))
         c2f eq_refl)).
    run_with (on_self_run _ _ (count_solver_call w) _ _
      (coverage_get_percentage_run
         (set_n_cli_uncov (length (filter (λ row, row = []) c2f))
            (set_cli2fac c2f
               (set_fac2cli (map (MCLP_fac2cli_row (solution_of solver self) fv cv a)
                               (range (length fv))) (solved solver self))))
         a _ Ha eq_refl)).
    reflexivity. }
  split_and!; [reflexivity..|done|done].
Qed.

Lemma LSCP_solve_no_results (solver : LpSolver) self w :
  sol_status (solver (problem self)) = LpStatusOptimal →
  LSCP_solve solver false (self, w)
  = (inr (solved solver self), (solved solver self, count_solver_call w)).
Proof. intros Hst. unfold LSCP_solve. by rewrite (solve_prefix_optimal solver _ self w Hst). Qed.

Lemma MCLP_solve_no_results (solver : LpSolver) self w :
  sol_status (solver (problem self)) = LpStatusOptimal →
  MCLP_solve solver false (self, w)
  = (inr (solved solver self), (solved solver self, count_solver_call w)).
Proof. intros Hst. unfold MCLP_solve. by rewrite (solve_prefix_optimal solver _ self w Hst). Qed.

Lemma LSCPB_solve_no_results (slv : LpSolver) self w :
  solver self = Some slv →
  sol_status (slv (problem self)) = LpStatusOptimal →
  LSCPB_solve false (self, w)
  = (inr (solved slv self), (solved slv self, count_solver_call w)).
Proof.
  intros Hslv Hst. unfold LSCPB_solve.
  run_with (on_self_run _ _ w _ _ (getattr_some solver "solver" self slv Hslv)).
  by rewrite (solve_prefix_optimal slv _ self w Hst).
Qed.

Lemma PDispersion_solve_optimal (solver : LpSolver) (results : bool) self w :
  sol_status (solver (problem self)) = LpStatusOptimal →
  PDispersion_solve solver results (self, w)
  = (inr (solved solver self), (solved solver self, count_solver_call w)).
Proof.
  intros Hst. unfold PDispersion_solve.
  by rewrite (solve_prefix_optimal solver _ self w Hst).
Qed.

Lemma KNearestPMedian_solve_no_results (solver : LpSolver) self w :
  sol_status (solver (problem self)) = LpStatusOptimal →
  KNearestPMedian_solve solver false (self, w)
  = (inr (solved solver self), (solved solver self, count_solver_call w)).
Proof.
  intros Hst. unfold KNearestPMedian_solve.
  by rewrite (solve_prefix_optimal solver _ self w Hst).
Qed.

Lemma KNearestPMedian_solve_results (solver : LpSolver) self w :
  sol_status (solver (problem self)) = LpStatusOptimal →
  ∃ self',
    KNearestPMedian_solve solver true (self, w)
    = (inr self', (self', count_solver_call w)) ∧
    fac2cli self' = Some (median_results (solved solver self)).1.1 ∧
    cli2fac self' = Some (median_results (solved solver self)).1.2 ∧
    mean_dist self' = Some (median_results (solved solver self)).2.
Proof.
  intros Hst. unfold KNearestPMedian_solve.
  rewrite (solve_prefix_optimal solver _ self w Hst).
  rewrite bind_assoc, bind_get. cbn [fst].
  destruct (median_results (solved solver self)) as [[f2c c2f] dist].
  eexists. split; [reflexivity|]. done.
Qed.

(** A status that is not optimal: the failure names the status, and the
    instance is left as the solver call left it. *)
Lemma LSCP_solve_not_optimal (solver : LpSolver) (results : bool) self w :
  sol_status (solver (problem self)) ≠ LpStatusOptimal →
  LSCP_solve solver results (self, w)
  = (inl (RuntimeError (LpStatus_name (sol_status (solver (problem self))))),
     (solved solver self, count_solver_call w)).
Proof.
  intros Hst. by apply solve_prefix_not_optimal.
Qed.

Lemma MCLP_solve_not_optimal (solver : LpSolver) (results : bool) self w :
  sol_status (solver (problem self)) ≠ LpStatusOptimal →
  MCLP_solve solver results (self, w)
  = (inl (RuntimeError (LpStatus_name (sol_status (solver (problem self))))),
     (solved solver self, count_solver_call w)).
Proof. intros Hst. by apply solve_prefix_not_optimal. Qed.

Lemma PDispersion_solve_not_optimal (solver : LpSolver) (results : bool) self w :
  sol_status (solver (problem self)) ≠ LpStatusOptimal →
  PDispersion_solve solver results (self, w)
  = (inl (RuntimeError (LpStatus_name (sol_status (solver (problem self))))),
     (solved solver self, count_solver_call w)).
Proof. intros Hst. by apply solve_prefix_not_optimal. Qed.

Lemma KNearestPMedian_solve_not_optimal (solver : LpSolver) (results : bool) self w :
  sol_status (solver (problem self)) ≠ LpStatusOptimal →
  KNearestPMedian_solve solver results (self, w)
  = (inl (RuntimeError (LpStatus_name (sol_status (solver (problem self))))),
     (solved solver self, count_solver_call w)).
Proof. intros Hst. by apply solve_prefix_not_optimal. Qed.

Lemma LSCPB_solve_not_optimal (slv : LpSolver) (results : bool) self w :
  solver self = Some slv →
  sol_status (slv (problem self)) ≠ LpStatusOptimal →
  LSCPB_solve results (self, w)
  = (inl (RuntimeError (LpStatus_name (sol_status (slv (problem self))))),
     (solved slv self, count_solver_call w)).
Proof.
  intros Hslv Hst. unfold LSCPB_solve.
  run_with (on_self_run _ _ w _ _ (getattr_some solver "solver" self slv Hslv)).
  by apply solve_prefix_not_optimal.
Qed.

Lemma MCLP_from_cost_matrix_inv cost_matrix weights service_radius p predefined nm w m w' :
  MCLP_from_cost_matrix cost_matrix weights service_radius p predefined nm w
  = (inr m, w') →
  w' = w ∧
  m = set_problem (problem m)
        (set_aij (coverage_matrix cost_matrix service_radius)
           (set_cli_vars (client_variables (range (shape cost_matrix).1) "y[{i}]")
              (set_fac_vars (facility_variables (range (shape cost_matrix).2) "x[{i}]")
                 (new_LocateSolver MCLP nm (new_LpProblem nm LpMaximize))))).
Proof.
  unfold MCLP_from_cost_matrix. intros H.
  apply build_on_self_inv in H as [-> H]. split; [done|].
  unfold add_facility_integer_variable, add_client_integer_variable in H.
  rewrite !bind_modify in H.
  rewrite (bind_getattr aij _ _ _ (np_zeros (shape cost_matrix))) in H by done.
  rewrite bind_lift, setitem_mask_coverage, bind_modify in H.
  revert H. apply only_problem_bind; [|intros ?]; frame.
Qed.

Lemma PDispersion_from_cost_matrix_inv cost_matrix p predefined nm w m w' :
  PDispersion_from_cost_matrix cost_matrix p predefined nm w = (inr m, w') →
  w' = w ∧
  m = set_problem (problem m)
        (set_fac_vars (facility_variables (range (shape cost_matrix).2) "y[{i}]")
           (set_disperse_var
              (mk_LpVariable DisperseVar "D" (Some 0%float) None LpContinuous)
              (set_p_facilities p
                 (new_LocateSolver PDispersion nm (new_LpProblem nm LpMaximize))))).
Proof.
  unfold PDispersion_from_cost_matrix. intros H.
  apply build_on_self_inv in H as [-> H]. split; [done|].
  unfold add_maximized_min_variable, PDispersion_add_obj,
    add_facility_integer_variable in H.
  rewrite bind_modify, bind_assoc in H.
  erewrite (bind_getattr disperse_var) in H by done.
  rewrite !bind_modify in H.
  apply (only_problem_bind _ (λ p, let* _ := add_facility_constraint (float_of_Z p) in _))
    in H; [exact H| |intros ?]; frame.
Qed.

Lemma call_on_inv {A} (o : LocateSolver) (m : Eff Env A) w a o' w' :
  call_on o m w = (inr (a, o'), w') → m (o, w) = (inr a, (o', w')).
Proof.
  unfold call_on. destruct (m (o, w)) as [[e|a'] [o'' w'']]; by intros [= <- <- <-].
Qed.

Lemma elem_of_with_rows (c : LpConstraint) rows s :
  c ∈ constraints (problem (with_rows rows s))
  ↔ c ∈ constraints (problem s) ∨ c ∈ rows.
Proof. unfold with_rows. cbn. by rewrite constraints_foldl_add, elem_of_app. Qed.

Lemma LSCPB_from_cost_matrix_inv cost_matrix service_radius slv predefined nm w m w' :
  LSCPB_from_cost_matrix cost_matrix service_radius slv predefined nm w = (inr m, w') →
  ∃ lscp lscp' v,
    LSCP_from_cost_matrix cost_matrix service_radius predefined "LSCP" w = (inr lscp, w) ∧
    LSCP_solve slv true (lscp, w) = (inr lscp', (lscp', w')) ∧
    objective_value (problem lscp') = inr v ∧
    m = set_problem (problem m)
          (set_aij (coverage_matrix cost_matrix service_radius)
             (set_cli_vars (client_variables (range (shape cost_matrix).1) "x[{i}]")
                (set_fac_vars (facility_variables (range (shape cost_matrix).2) "y[{i}]")
                   (set_lscp_obj_value v
                      (set_solver slv
                         (new_LocateSolver LSCPB nm (new_LpProblem nm LpMaximize))))))) ∧
    facility_count_row LSCPB
      (facility_variables (range (shape cost_matrix).2) "y[{i}]") v
      ∈ constraints (problem m).
Proof.
  unfold LSCPB_from_cost_matrix. intros H.
  apply bind_inv in H as (lscp & w1 & H1 & H).
  assert (LSCP_from_cost_matrix cost_matrix service_radius predefined "LSCP" w
          = (inr lscp, w1)) as Hlscp by by destruct predefined.
  clear H1. pose proof (LSCP_from_cost_matrix_inv _ _ _ _ _ _ _ Hlscp) as [-> _].
  apply bind_inv in H as ([x lscp'] & w2 & H2 & H).
  apply call_on_inv in H2.
  apply build_on_self_inv in H as [-> H].
  rewrite bind_lift in H.
  destruct (objective_value (problem lscp')) as [e|v] eqn:Hv; [done|].
  unfold add_facility_integer_variable, add_client_integer_variable in H.
  rewrite !bind_modify in H.
  rewrite (bind_getattr aij _ _ _ (np_zeros (shape cost_matrix))) in H by done.
  rewrite bind_lift, setitem_mask_coverage, bind_modify in H.
  set (fv := facility_variables (range (shape cost_matrix).2) "y[{i}]") in *.
  set (cv := client_variables (range (shape cost_matrix).1) "x[{i}]") in *.
  set (s5 := set_aij _ _) in H.
  apply bind_inv in H as ([] & s6 & H6 & H).
  assert (only_problem (match predefined with
                        | Some arr => add_predefined_facility_constraint arr
                        | None => ret tt
                        end)) as Hp by frame.
  apply Hp in H6.
  apply bind_inv in H as ([] & s7 & H7 & H).
  apply only_problem_LSCPB_add_obj in H7.
  assert (s7 = set_problem (problem s7) s5) as Hs7 by (by rewrite H7, H6).
  rewrite (bind_getattr lscp_obj_value _ _ _ v) in H by (by rewrite Hs7).
  rewrite (bind_inr _ _ _ _ _ (add_facility_constraint_run v s7 fv
             ltac:(by rewrite Hs7))) in H.
  replace (class_of s7) with LSCPB in H by (by rewrite Hs7).
  erewrite (bind_getattr aij) in H by (by rewrite Hs7).
  rewrite (add_backup_covering_run _ _ _ _ fv cv) in H by (by rewrite Hs7).
  destruct (backup_covering_rows _ _ _ _ _) as [e|rows]; [done|].
  injection H as <-.
  exists lscp, lscp', v.
  assert (x = lscp') as ->.
  { unfold LSCP_solve in H2. rewrite <- !bind_assoc in H2.
    apply bind_inv in H2 as (o & [o' w''] & Hget & H2).
    apply bind_inv in Hget as (? & s & _ & Hg). unfold get in Hg.
    injection Hg as Ho Hs. subst. by injection H2 as <- <- <-. }
  split_and!; [done..| |].
  - rewrite Hs7. reflexivity.
  - apply elem_of_with_rows. left. apply elem_of_with_rows. right. by left.
Qed.

(** ** The coverage matrix *)

Lemma coverage_matrix_spec (cost_matrix : ndarray float) (service_radius : float) i j :
  ndarray_ok cost_matrix → i < (shape cost_matrix).1 → j < (shape cost_matrix).2 →
  ∃ c, getitem2 cost_matrix i j = inr c ∧
       getitem2 (coverage_matrix cost_matrix service_radius) i j
       = inr (if (c <=? service_radius)%float then 1%float else 0%float).
Proof.
  intros Hok Hi Hj.
  destruct (getitem2_lt cost_matrix i j Hok Hi Hj) as (row & c & Hrow & Hc & Hg).
  exists c. split; [done|]. by eapply coverage_matrix_lookup.
Qed.

(** C1: for every cost matrix and service radius, the coverage matrix that
    [from_cost_matrix] of [LSCP], [LSCPB] and [MCLP] stores in [aij] has the
    shape of the cost matrix and, at every client index [i] and facility
    index [j], holds 1 if [cost_matrix[i][j] <= service_radius] and 0
    otherwise; the threshold is inclusive. *)
Theorem coverage_threshold_inclusive (cost_matrix : ndarray float)
    (service_radius : float) (predefined : option Series) (nm : string)
    (w w' : World) (m : LocateSolver) :
  ndarray_ok cost_matrix →
  LSCP_from_cost_matrix cost_matrix service_radius predefined nm w = (inr m, w')
  ∨ (∃ slv, LSCPB_from_cost_matrix cost_matrix service_radius slv predefined nm w
            = (inr m, w'))
  ∨ (∃ weights p, MCLP_from_cost_matrix cost_matrix weights service_radius p
                    predefined nm w = (inr m, w')) →
  ∃ a, aij m = Some a ∧ shape a = shape cost_matrix ∧
    ∀ i j, i < (shape cost_matrix).1 → j < (shape cost_matrix).2 →
      ∃ c, getitem2 cost_matrix i j = inr c ∧
           getitem2 a i j
           = inr (if (c <=? service_radius)%float then 1%float else 0%float).
Proof.
  intros Hok H.
  assert (aij m = Some (coverage_matrix cost_matrix service_radius)) as Ha.
  { destruct H as [H|[[slv H]|(weights & p & H)]].
    - apply LSCP_from_cost_matrix_inv in H as [_ ->]. done.
    - apply LSCPB_from_cost_matrix_inv in H as (? & ? & ? & _ & _ & _ & -> & _). done.
    - apply MCLP_from_cost_matrix_inv in H as [_ ->]. done. }
  exists (coverage_matrix cost_matrix service_radius). split_and!; [done..|].
  intros i j Hi Hj. by apply coverage_matrix_spec.
Qed.

(** ** Facts about the models [from_cost_matrix] returns *)

Lemma LSCP_built cost_matrix service_radius predefined nm w m w' :
  LSCP_from_cost_matrix cost_matrix service_radius predefined nm w = (inr m, w') →
  fac_vars m = Some (facility_variables (range (shape cost_matrix).2) "y[{i}]") ∧
  aij m = Some (coverage_matrix cost_matrix service_radius) ∧
  fac2cli m = None ∧ cli2fac m = None.
Proof. intros H. apply LSCP_from_cost_matrix_inv in H as [_ ->]. done. Qed.

Lemma LSCPB_built cost_matrix service_radius slv predefined nm w m w' :
  LSCPB_from_cost_matrix cost_matrix service_radius slv predefined nm w = (inr m, w') →
  solver m = Some slv ∧
  fac_vars m = Some (facility_variables (range (shape cost_matrix).2) "y[{i}]") ∧
  aij m = Some (coverage_matrix cost_matrix service_radius) ∧
  fac2cli m = None ∧ cli2fac m = None.
Proof.
  intros H. apply LSCPB_from_cost_matrix_inv in H as (? & ? & ? & _ & _ & _ & -> & _).
  done.
Qed.

Lemma MCLP_built cost_matrix weights service_radius p predefined nm w m w' :
  MCLP_from_cost_matrix cost_matrix weights service_radius p predefined nm w
  = (inr m, w') →
  fac_vars m = Some (facility_variables (range (shape cost_matrix).2) "x[{i}]") ∧
  cli_vars m = Some (client_variables (range (shape cost_matrix).1) "y[{i}]") ∧
  aij m = Some (coverage_matrix cost_matrix service_radius) ∧
  fac2cli m = None ∧ cli2fac m = None.
Proof. intros H. apply MCLP_from_cost_matrix_inv in H as [_ ->]. done. Qed.

Lemma PDispersion_built cost_matrix p predefined nm w m w' :
  PDispersion_from_cost_matrix cost_matrix p predefined nm w = (inr m, w') →
  fac_vars m = Some (facility_variables (range (shape cost_matrix).2) "y[{i}]") ∧
  p_facilities m = Some p ∧ aij m = None ∧
  fac2cli m = None ∧ cli2fac m = None.
Proof. intros H. apply PDispersion_from_cost_matrix_inv in H as [_ ->]. done. Qed.

(** ** Facilities that are not opened *)

Lemma leb_zero_not_positive (v : float) : (v <=? 0)%float = true → (0 <? v)%float = false.
Proof.
  rewrite leb_spec, ltb_spec. unfold SFleb, SFltb.
  destruct (Prim2SF v) as [s|s| |s m e]; try destruct s; cbn; congruence.
Qed.

Lemma fac2cli_row_closed σ fv a j y :
  fv !! j = Some y → (σ (var_id y) <=? 0)%float = true → fac2cli_row σ fv a j = [].
Proof.
  intros Hy Hle. unfold fac2cli_row, positive. rewrite Hy.
  by rewrite (leb_zero_not_positive _ Hle).
Qed.

Lemma MCLP_fac2cli_row_closed σ fv cv a j y :
  fv !! j = Some y → (σ (var_id y) <=? 0)%float = true →
  MCLP_fac2cli_row σ fv cv a j = [].
Proof.
  intros Hy Hle. unfold MCLP_fac2cli_row, positive. rewrite Hy.
  by rewrite (leb_zero_not_positive _ Hle).
Qed.

Lemma lookup_map_range {A} (f : nat → A) (n j : nat) :
  j < n → map f (range n) !! j = Some (f j).
Proof. intros Hj. unfold range. by rewrite list_lookup_fmap, lookup_seq_lt. Qed.

(** C7: after result extraction, every facility whose variable is solved to
    a non-positive value has an empty client list in [fac2cli]; for [LSCP],
    [LSCPB] and [MCLP], on a model built by [from_cost_matrix] and solved
    with an optimal status. *)
Theorem closed_facility_has_no_clients (cost_matrix : ndarray float)
    (service_radius : float) (predefined : option Series) (nm : string)
    (slv : LpSolver) (w w1 w2 : World) (m : LocateSolver) :
  ndarray_ok cost_matrix →
  sol_status (slv (problem m)) = LpStatusOptimal →
  (LSCP_from_cost_matrix cost_matrix service_radius predefined nm w = (inr m, w1) →
   ∃ m' fv f2c,
     LSCP_solve slv true (m, w2) = (inr m', (m', count_solver_call w2)) ∧
     fac_vars m' = Some fv ∧ fac2cli m' = Some f2c ∧ length f2c = length fv ∧
     ∀ j y, fv !! j = Some y → (solution_of slv m (var_id y) <=? 0)%float = true →
            f2c !! j = Some []) ∧
  (LSCPB_from_cost_matrix cost_matrix service_radius slv predefined nm w = (inr m, w1) →
   ∃ m' fv f2c,
     LSCPB_solve true (m, w2) = (inr m', (m', count_solver_call w2)) ∧
     fac_vars m' = Some fv ∧ fac2cli m' = Some f2c ∧ length f2c = length fv ∧
     ∀ j y, fv !! j = Some y → (solution_of slv m (var_id y) <=? 0)%float = true →
            f2c !! j = Some []) ∧
  (∀ weights p,
   MCLP_from_cost_matrix cost_matrix weights service_radius p predefined nm w
   = (inr m, w1) →
   ∃ m' fv f2c,
     MCLP_solve slv true (m, w2) = (inr m', (m', count_solver_call w2)) ∧
     fac_vars m' = Some fv ∧ fac2cli m' = Some f2c ∧ length f2c = length fv ∧
     ∀ j y, fv !! j = Some y → (solution_of slv m (var_id y) <=? 0)%float = true →
            f2c !! j = Some []).
Proof.
  intros Hok Hst. pose proof (coverage_matrix_ok _ service_radius Hok) as Hcov.
  split_and!.
  - intros H. apply LSCP_built in H as (Hfv & Ha & _).
    destruct (LSCP_solve_results slv m w2 _ _ Hfv Ha Hcov) as (c2f & m' & Hrun & -> & _);
      [by rewrite length_facility_variables, length_range|done|].
    eexists _, _, _. split_and!; [done..| |].
    + by rewrite length_map, length_range.
    + intros j y Hy Hle. rewrite lookup_map_range by by eapply lookup_lt_Some.
      f_equal. by eapply fac2cli_row_closed.
  - intros H. apply LSCPB_built in H as (Hslv & Hfv & Ha & _).
    destruct (LSCPB_solve_results slv m w2 _ _ Hslv Hfv Ha Hcov)
      as (c2f & m' & Hrun & _ & Hfv' & Hf2c & _);
      [by rewrite length_facility_variables, length_range|done|].
    eexists _, _, _. split_and!; [done|by rewrite Hfv'|done| |].
    + by rewrite length_map, length_range.
    + intros j y Hy Hle. rewrite lookup_map_range by by eapply lookup_lt_Some.
      f_equal. by eapply fac2cli_row_closed.
  - intros weights p H. apply MCLP_built in H as (Hfv & Hcv & Ha & _).
    destruct (MCLP_solve_results slv m w2 _ _ _ Hfv Hcv Ha Hcov)
      as (c2f & m' & Hrun & _ & Hfv' & Hf2c & _);
      [by rewrite length_facility_variables, length_range
      |by rewrite length_client_variables, length_range|done|].
    eexists _, _, _. split_and!; [done|by rewrite Hfv'|done| |].
    + by rewrite length_map, length_range.
    + intros j y Hy Hle. rewrite lookup_map_range by by eapply lookup_lt_Some.
      f_equal. by eapply MCLP_fac2cli_row_closed.
Qed.

(** ** The two result arrays *)

(** C6: after result extraction on a solved model, [fac2cli] and [cli2fac]
    are index-inverses of each other: client [i] is an element of
    [fac2cli[j]] if and only if facility [j] is an element of [cli2fac[i]];
    for [LSCP], [LSCPB] and [MCLP], on a model built by [from_cost_matrix]
    and solved with an optimal status. *)
Theorem fac2cli_cli2fac_inverse (cost_matrix : ndarray float)
    (service_radius : float) (predefined : option Series) (nm : string)
    (slv : LpSolver) (w w1 w2 : World) (m : LocateSolver) :
  ndarray_ok cost_matrix →
  sol_status (slv (problem m)) = LpStatusOptimal →
  (LSCP_from_cost_matrix cost_matrix service_radius predefined nm w = (inr m, w1) →
   ∃ m' f2c c2f,
     LSCP_solve slv true (m, w2) = (inr m', (m', count_solver_call w2)) ∧
     fac2cli m' = Some f2c ∧ cli2fac m' = Some c2f ∧
     length f2c = (shape cost_matrix).2 ∧ length c2f = (shape cost_matrix).1 ∧
     ∀ j i, entry_elem f2c j i ↔ entry_elem c2f i j) ∧
  (LSCPB_from_cost_matrix cost_matrix service_radius slv predefined nm w = (inr m, w1) →
   ∃ m' f2c c2f,
     LSCPB_solve true (m, w2) = (inr m', (m', count_solver_call w2)) ∧
     fac2cli m' = Some f2c ∧ cli2fac m' = Some c2f ∧
     length f2c = (shape cost_matrix).2 ∧ length c2f = (shape cost_matrix).1 ∧
     ∀ j i, entry_elem f2c j i ↔ entry_elem c2f i j) ∧
  (∀ weights p,
   MCLP_from_cost_matrix cost_matrix weights service_radius p predefined nm w
   = (inr m, w1) →
   ∃ m' f2c c2f,
     MCLP_solve slv true (m, w2) = (inr m', (m', count_solver_call w2)) ∧
     fac2cli m' = Some f2c ∧ cli2fac m' = Some c2f ∧
     length f2c = (shape cost_matrix).2 ∧ length c2f = (shape cost_matrix).1 ∧
     ∀ j i, entry_elem f2c j i ↔ entry_elem c2f i j).
Proof.
  intros Hok Hst. pose proof (coverage_matrix_ok _ service_radius Hok) as Hcov.
  split_and!.
  - intros H. apply LSCP_built in H as (Hfv & Ha & _).
    destruct (LSCP_solve_results slv m w2 _ _ Hfv Ha Hcov)
      as (c2f & m' & Hrun & -> & Hlen & Hinv);
      [by rewrite length_facility_variables, length_range|done|].
    eexists _, _, c2f. split_and!; [done..| |done|].
    + by rewrite length_map, length_range, length_facility_variables, length_range.
    + intros j i. by rewrite Hinv.
  - intros H. apply LSCPB_built in H as (Hslv & Hfv & Ha & _).
    destruct (LSCPB_solve_results slv m w2 _ _ Hslv Hfv Ha Hcov)
      as (c2f & m' & Hrun & _ & _ & Hf2c & Hc2f & Hlen & Hinv);
      [by rewrite length_facility_variables, length_range|done|].
    eexists _, _, c2f. split_and!; [done..| |done|].
    + by rewrite length_map, length_range, length_facility_variables, length_range.
    + intros j i. by rewrite Hinv.
  - intros weights p H. apply MCLP_built in H as (Hfv & Hcv & Ha & _).
    destruct (MCLP_solve_results slv m w2 _ _ _ Hfv Hcv Ha Hcov)
      as (c2f & m' & Hrun & _ & _ & Hf2c & Hc2f & Hlen & Hinv);
      [by rewrite length_facility_variables, length_range
      |by rewrite length_client_variables, length_range|done|].
    eexists _, _, c2f. split_and!; [done..| |done|].
    + by rewrite length_map, length_range, length_facility_variables, length_range.
    + intros j i. by rewrite Hinv.
Qed.

(** ** Solver status *)

Lemma LpStatus_name_inj (st st' : LpStatus) :
  LpStatus_name st = LpStatus_name st' → st = st'.
Proof. by destruct st, st'. Qed.

(** C3: for every model variant, when the solver returns a status that is
    not optimal, [solve] raises a runtime failure whose message is the name
    of that status, and no result extraction follows: the instance is left
    as the solver call left it, with [fac2cli] and [cli2fac] as they
    were. *)
Theorem non_optimal_status_raises (slv : LpSolver) (results : bool)
    (self : LocateSolver) (w : World) :
  sol_status (slv (problem self)) ≠ LpStatusOptimal →
  LSCP_solve slv results (self, w)
  = (inl (RuntimeError (LpStatus_name (sol_status (slv (problem self))))),
     (solved slv self, count_solver_call w)) ∧
  (solver self = Some slv →
   LSCPB_solve results (self, w)
   = (inl (RuntimeError (LpStatus_name (sol_status (slv (problem self))))),
      (solved slv self, count_solver_call w))) ∧
  MCLP_solve slv results (self, w)
  = (inl (RuntimeError (LpStatus_name (sol_status (slv (problem self))))),
     (solved slv self, count_solver_call w)) ∧
  PDispersion_solve slv results (self, w)
  = (inl (RuntimeError (LpStatus_name (sol_status (slv (problem self))))),
     (solved slv self, count_solver_call w)) ∧
  KNearestPMedian_solve slv results (self, w)
  = (inl (RuntimeError (LpStatus_name (sol_status (slv (problem self))))),
     (solved slv self, count_solver_call w)) ∧
  fac2cli (solved slv self) = fac2cli self ∧
  cli2fac (solved slv self) = cli2fac self.
Proof.
  intros Hst. split_and!; [| | | | |done|done].
  - by apply LSCP_solve_not_optimal.
  - intros Hslv. by apply LSCPB_solve_not_optimal.
  - by apply MCLP_solve_not_optimal.
  - by apply PDispersion_solve_not_optimal.
  - by apply KNearestPMedian_solve_not_optimal.
Qed.

(** ** Results on request *)

(** The [results] flag on the five variants: for [LSCP], [LSCPB], [MCLP]
    and the K-nearest p-median model, [solve] with [results=True] populates
    [fac2cli] and [cli2fac], and [solve] with [results=False] leaves them
    unset, so that reading them raises an attribute error;
    [PDispersion.solve] does not read [results] and leaves both attributes
    unset in either case. *)
Lemma solve_results_flag (cost_matrix : ndarray float) (service_radius : float)
    (predefined : option Series) (nm : string) (slv : LpSolver)
    (w w1 w2 : World) (m : LocateSolver) :
  ndarray_ok cost_matrix →
  sol_status (slv (problem m)) = LpStatusOptimal →
  (LSCP_from_cost_matrix cost_matrix service_radius predefined nm w = (inr m, w1) →
   (∃ m', LSCP_solve slv true (m, w2) = (inr m', (m', count_solver_call w2)) ∧
          is_Some (fac2cli m') ∧ is_Some (cli2fac m')) ∧
   (∃ m', LSCP_solve slv false (m, w2) = (inr m', (m', count_solver_call w2)) ∧
          getattr fac2cli "fac2cli" m' = (inl (AttributeError "fac2cli"), m') ∧
          getattr cli2fac "cli2fac" m' = (inl (AttributeError "cli2fac"), m'))) ∧
  (LSCPB_from_cost_matrix cost_matrix service_radius slv predefined nm w = (inr m, w1) →
   (∃ m', LSCPB_solve true (m, w2) = (inr m', (m', count_solver_call w2)) ∧
          is_Some (fac2cli m') ∧ is_Some (cli2fac m')) ∧
   (∃ m', LSCPB_solve false (m, w2) = (inr m', (m', count_solver_call w2)) ∧
          getattr fac2cli "fac2cli" m' = (inl (AttributeError "fac2cli"), m') ∧
          getattr cli2fac "cli2fac" m' = (inl (AttributeError "cli2fac"), m'))) ∧
  (∀ weights p,
   MCLP_from_cost_matrix cost_matrix weights service_radius p predefined nm w
   = (inr m, w1) →
   (∃ m', MCLP_solve slv true (m, w2) = (inr m', (m', count_solver_call w2)) ∧
          is_Some (fac2cli m') ∧ is_Some (cli2fac m')) ∧
   (∃ m', MCLP_solve slv false (m, w2) = (inr m', (m', count_solver_call w2)) ∧
          getattr fac2cli "fac2cli" m' = (inl (AttributeError "fac2cli"), m') ∧
          getattr cli2fac "cli2fac" m' = (inl (AttributeError "cli2fac"), m'))) ∧
  (fac2cli m = None → cli2fac m = None →
   (∃ m', KNearestPMedian_solve slv true (m, w2)
          = (inr m', (m', count_solver_call w2)) ∧
          is_Some (fac2cli m') ∧ is_Some (cli2fac m')) ∧
   (∃ m', KNearestPMedian_solve slv false (m, w2)
          = (inr m', (m', count_solver_call w2)) ∧
          getattr fac2cli "fac2cli" m' = (inl (AttributeError "fac2cli"), m') ∧
          getattr cli2fac "cli2fac" m' = (inl (AttributeError "cli2fac"), m'))) ∧
  (∀ p results,
   PDispersion_from_cost_matrix cost_matrix p predefined nm w = (inr m, w1) →
   ∃ m', PDispersion_solve slv results (m, w2)
         = (inr m', (m', count_solver_call w2)) ∧
         getattr fac2cli "fac2cli" m' = (inl (AttributeError "fac2cli"), m') ∧
         getattr cli2fac "cli2fac" m' = (inl (AttributeError "cli2fac"), m')).
Proof.
  intros Hok Hst. pose proof (coverage_matrix_ok _ service_radius Hok) as Hcov.
  split_and!.
  - intros H. apply LSCP_built in H as (Hfv & Ha & Hf & Hc). split.
    + destruct (LSCP_solve_results slv m w2 _ _ Hfv Ha Hcov)
        as (c2f & m' & Hrun & -> & _);
        [by rewrite length_facility_variables, length_range|done|].
      eexists. split; [done|]. split; by eexists.
    + eexists. split; [by apply LSCP_solve_no_results|].
      split; by apply getattr_none.
  - intros H. apply LSCPB_built in H as (Hslv & Hfv & Ha & Hf & Hc). split.
    + destruct (LSCPB_solve_results slv m w2 _ _ Hslv Hfv Ha Hcov)
        as (c2f & m' & Hrun & _ & _ & Hf2c & Hc2f & _);
        [by rewrite length_facility_variables, length_range|done|].
      eexists. split; [done|]. split; by eexists.
    + eexists. split; [by apply LSCPB_solve_no_results|].
      split; by apply getattr_none.
  - intros weights p H. apply MCLP_built in H as (Hfv & Hcv & Ha & Hf & Hc). split.
    + destruct (MCLP_solve_results slv m w2 _ _ _ Hfv Hcv Ha Hcov)
        as (c2f & m' & Hrun & _ & _ & Hf2c & Hc2f & _);
        [by rewrite length_facility_variables, length_range
        |by rewrite length_client_variables, length_range|done|].
      eexists. split; [done|]. split; by eexists.
    + eexists. split; [by apply MCLP_solve_no_results|].
      split; by apply getattr_none.
  - intros Hf Hc. split.
    + destruct (KNearestPMedian_solve_results slv m w2 Hst)
        as (m' & Hrun & Hf2c & Hc2f & _).
      eexists. split; [done|]. split; by eexists.
    + eexists. split; [by apply KNearestPMedian_solve_no_results|].
      split; by apply getattr_none.
  - intros p results H. apply PDispersion_built in H as (_ & _ & _ & Hf & Hc).
    eexists. split; [by apply PDispersion_solve_optimal|].
    split; by apply getattr_none.
Qed.

(** ** Geometry layers *)

Lemma elem_of_unique (x : string) (xs : list string) : x ∈ unique xs ↔ x ∈ xs.
Proof.
  induction xs as [|y xs IH]; cbn [unique]; [done|].
  rewrite !elem_of_cons, list_elem_of_filter, IH.
  destruct (decide (x = y)); tauto.
Qed.

Lemma filter_none {A} (P : A → Prop) `{∀ x, Decision (P x)} (l : list A) :
  (∀ x, x ∈ l → ¬ P x) → filter P l = [].
Proof.
  induction l as [|x l IH]; intros Hl; [done|].
  rewrite filter_cons_False by (apply Hl; left). apply IH.
  intros y Hy. apply Hl. by right.
Qed.

Lemma only_points_inv (gs : list Geometry) :
  needs_centroid gs = false → ∃ coords, gs = points coords.
Proof.
  unfold needs_centroid, not_only_points. intros H.
  apply orb_false_iff in H as [Hlen Hin].
  apply bool_decide_eq_false in Hlen. apply negb_false_iff, bool_decide_eq_true in Hin.
  assert (∀ g, g ∈ gs → geom_type g = "Point") as Hall.
  { intros g Hg.
    assert (geom_type g ∈ unique (map geom_type gs)) as Ht.
    { apply (proj2 (elem_of_unique _ _)), list_elem_of_fmap. by exists g. }
    destruct (unique (map geom_type gs)) as [|t [|t' ts]]; cbn in Hlen; [| |lia].
    - by apply elem_of_nil in Hin.
    - apply list_elem_of_singleton in Hin, Ht. congruence. }
  clear Hlen Hin. induction gs as [|g gs IH]; [by exists []|].
  destruct IH as [coords ->]; [intros g' Hg'; apply Hall; by right|].
  specialize (Hall g ltac:(left)).
  destruct g as [x y|k c]; [by exists ((x, y) :: coords)|].
  by destruct k.
Qed.

Lemma layer_coords_points (coords : list (float * float)) :
  layer_coords (GeoSeries (points coords)) = inr coords.
Proof.
  unfold layer_coords, Series_x, Series_y, points.
  rewrite (emap_inr _ (λ g, (point_coords g).1)), (emap_inr _ (λ g, (point_coords g).2)).
  - cbn. f_equal. unfold coords_T. rewrite !map_map. cbn.
    induction coords as [|[x y] coords IH]; [done|]. cbn. by rewrite IH.
  - intros g (p & -> & _)%list_elem_of_fmap. done.
  - intros g (p & -> & _)%list_elem_of_fmap. done.
Qed.

Lemma centroid_points (gs : list Geometry) :
  map centroid gs = points (map point_coords gs).
Proof.
  unfold points. rewrite map_map. apply map_ext. by intros [x y|k [x y]].
Qed.

Lemma point_coords_points (coords : list (float * float)) :
  map point_coords (points coords) = coords.
Proof.
  unfold points. rewrite map_map. cbn. rewrite <- (map_id coords) at 2.
  apply map_ext. by intros [x y].
Qed.

Lemma needs_centroid_points (coords : list (float * float)) :
  coords ≠ [] → needs_centroid (points coords) = false.
Proof.
  intros Hne. unfold needs_centroid, not_only_points.
  assert (unique (map geom_type (points coords)) = ["Point"]) as ->; [|done].
  destruct coords as [|p coords]; [done|]. clear Hne.
  cbn [points map geom_type unique]. f_equal. apply filter_none.
  intros t Ht Hne. apply Hne. apply (proj1 (elem_of_unique _ _)) in Ht.
  apply list_elem_of_fmap in Ht as (g & -> & Hg).
  by apply list_elem_of_fmap in Hg as (q & -> & _).
Qed.

(** The geometry-type check of one layer, with its warning and centroid
    substitution, followed by the coordinates. *)
Lemma layer_step {B} (label : string) (gs : list Geometry)
    (k : Series → Eff World B) (w : World) :
  bind (if not_only_points (unique (map geom_type gs)) then
          let* _ := warn (label +:+ centroid_msg) in
          lift (Series_centroid (GeoSeries gs))
        else ret (GeoSeries gs)) k w
  = k (GeoSeries (if needs_centroid gs then map centroid gs else gs))
      (add_warnings (if needs_centroid gs then [label +:+ centroid_msg] else []) w).
Proof.
  unfold needs_centroid. destruct (not_only_points _).
  - done.
  - rewrite bind_ret. f_equal. unfold add_warnings. destruct w. cbn.
    by rewrite app_nil_r.
Qed.

Lemma layer_coords_checked (gs : list Geometry) :
  layer_coords (GeoSeries (if needs_centroid gs then map centroid gs else gs))
  = inr (map point_coords gs).
Proof.
  destruct (needs_centroid gs) eqn:Hc.
  - rewrite centroid_points. apply layer_coords_points.
  - apply only_points_inv in Hc as [coords ->].
    rewrite point_coords_points. apply layer_coords_points.
Qed.

Lemma predefined_step {B} (gdf_fac : GeoDataFrame) (col : option string)
    (k : option Series → Eff World B) (w : World) :
  bind (match col with
        | Some c => let* arr := lift (getcol gdf_fac c) in ret (Some arr)
        | None => ret None
        end) k w
  = match predefined_column gdf_fac col with
    | inr parr => k parr w
    | inl e => (inl e, w)
    end.
Proof.
  destruct col as [c|]; cbn; [|done].
  rewrite bind_assoc, bind_lift. by destruct (getcol gdf_fac c).
Qed.

Lemma add_warnings_app (a b : list string) (w : World) :
  add_warnings b (add_warnings a w) = add_warnings (a ++ b) w.
Proof. unfold add_warnings. cbn. by rewrite app_assoc. Qed.

Lemma add_warnings_nil (w : World) : add_warnings [] w = w.
Proof. unfold add_warnings. destruct w. cbn. by rewrite app_nil_r. Qed.

(** The statements the three coverage classes share, from the geometry
    types on. *)
Lemma two_layers_run {B} (gdf_demand gdf_fac : GeoDataFrame) (dem fac : list Geometry)
    (distance_metric : string) (k : ndarray float → Eff World B) (w : World) :
  (let* dem_type_geom := lift (geometry_types (GeoSeries dem)) in
   let* fac_type_geom := lift (geometry_types (GeoSeries fac)) in
   let _msg := centroid_msg in
   let* dem := if not_only_points dem_type_geom then
                 let* _ := warn ("Demand" +:+ _msg) in
                 lift (Series_centroid (GeoSeries dem))
               else ret (GeoSeries dem) in
   let* fac := if not_only_points fac_type_geom then
                 let* _ := warn ("Facility" +:+ _msg) in
                 lift (Series_centroid (GeoSeries fac))
               else ret (GeoSeries fac) in
   let* dem_data := lift (layer_coords dem) in
   let* fac_data := lift (layer_coords fac) in
   let* _ := if decide (crs gdf_demand ≠ crs gdf_fac) then
               raise (ValueError (crs_mismatch_msg (crs gdf_demand) (crs gdf_fac)))
             else ret tt in
   let* distances := lift (cdist dem_data fac_data distance_metric) in
   k distances) w
  = if decide (crs gdf_demand ≠ crs gdf_fac) then
      (inl (ValueError (crs_mismatch_msg (crs gdf_demand) (crs gdf_fac))),
       add_warnings (centroid_warnings dem fac) w)
    else
      (let* distances :=
         lift (cdist (map point_coords dem) (map point_coords fac) distance_metric) in
       k distances) (add_warnings (centroid_warnings dem fac) w).
Proof.
  do 2 (rewrite bind_lift; cbn [geometry_types Series_geom_type ebind]).
  cbv zeta.
  rewrite (layer_step "Demand" dem), (layer_step "Facility" fac).
  rewrite add_warnings_app. fold (centroid_warnings dem fac).
  rewrite bind_lift, layer_coords_checked, bind_lift, layer_coords_checked.
  by destruct (decide (crs gdf_demand ≠ crs gdf_fac)).
Qed.

(** ** What [from_geodataframe] does *)

Lemma LSCP_from_geodataframe_run gdf_demand gdf_fac demand_col facility_col
    service_radius predefined_facility_col distance_metric nm w dem fac parr :
  getcol gdf_demand demand_col = inr (GeoSeries dem) →
  getcol gdf_fac facility_col = inr (GeoSeries fac) →
  predefined_column gdf_fac predefined_facility_col = inr parr →
  LSCP_from_geodataframe gdf_demand gdf_fac demand_col facility_col service_radius
    predefined_facility_col distance_metric nm w
  = if decide (crs gdf_demand ≠ crs gdf_fac) then
      (inl (ValueError (crs_mismatch_msg (crs gdf_demand) (crs gdf_fac))),
       add_warnings (centroid_warnings dem fac) w)
    else
      (let* distances :=
         lift (cdist (map point_coords dem) (map point_coords fac) distance_metric) in
       LSCP_from_cost_matrix distances service_radius parr nm)
        (add_warnings (centroid_warnings dem fac) w).
Proof.
  intros Hd Hf Hp. unfold LSCP_from_geodataframe.
  rewrite predefined_step, Hp, bind_lift, Hd, bind_lift, Hf.
  apply (two_layers_run gdf_demand gdf_fac dem fac distance_metric
           (λ d, LSCP_from_cost_matrix d service_radius parr nm)).
Qed.

Lemma LSCPB_from_geodataframe_run gdf_demand gdf_fac demand_col facility_col
    service_radius slv predefined_facility_col distance_metric nm w dem fac parr :
  getcol gdf_demand demand_col = inr (GeoSeries dem) →
  getcol gdf_fac facility_col = inr (GeoSeries fac) →
  predefined_column gdf_fac predefined_facility_col = inr parr →
  LSCPB_from_geodataframe gdf_demand gdf_fac demand_col facility_col service_radius
    slv predefined_facility_col distance_metric nm w
  = if decide (crs gdf_demand ≠ crs gdf_fac) then
      (inl (ValueError (crs_mismatch_msg (crs gdf_demand) (crs gdf_fac))),
       add_warnings (centroid_warnings dem fac) w)
    else
      (let* distances :=
         lift (cdist (map point_coords dem) (map point_coords fac) distance_metric) in
       LSCPB_from_cost_matrix distances service_radius slv parr nm)
        (add_warnings (centroid_warnings dem fac) w).
Proof.
  intros Hd Hf Hp. unfold LSCPB_from_geodataframe.
  rewrite predefined_step, Hp, bind_lift, Hd, bind_lift, Hf.
  apply (two_layers_run gdf_demand gdf_fac dem fac distance_metric
           (λ d, LSCPB_from_cost_matrix d service_radius slv parr nm)).
Qed.

Lemma MCLP_from_geodataframe_run gdf_demand gdf_fac demand_col facility_col
    weights_cols service_radius p predefined_facility_col distance_metric nm w
    dem fac load parr :
  getcol gdf_demand demand_col = inr (GeoSeries dem) →
  getcol gdf_fac facility_col = inr (GeoSeries fac) →
  getcol gdf_demand weights_cols = inr load →
  predefined_column gdf_fac predefined_facility_col = inr parr →
  MCLP_from_geodataframe gdf_demand gdf_fac demand_col facility_col weights_cols
    service_radius p predefined_facility_col distance_metric nm w
  = if decide (crs gdf_demand ≠ crs gdf_fac) then
      (inl (ValueError (crs_mismatch_msg (crs gdf_demand) (crs gdf_fac))),
       add_warnings (centroid_warnings dem fac) w)
    else
      (let* distances :=
         lift (cdist (map point_coords dem) (map point_coords fac) distance_metric) in
       MCLP_from_cost_matrix distances load service_radius p parr nm)
        (add_warnings (centroid_warnings dem fac) w).
Proof.
  intros Hd Hf Hl Hp. unfold MCLP_from_geodataframe.
  rewrite predefined_step, Hp, bind_lift, Hl, bind_lift, Hd, bind_lift, Hf.
  apply (two_layers_run gdf_demand gdf_fac dem fac distance_metric
           (λ d, MCLP_from_cost_matrix d load service_radius p parr nm)).
Qed.

Lemma PDispersion_from_geodataframe_run gdf_fac facility_col p
    predefined_facility_col distance_metric nm w fac parr :
  getcol gdf_fac facility_col = inr (GeoSeries fac) →
  predefined_column gdf_fac predefined_facility_col = inr parr →
  PDispersion_from_geodataframe gdf_fac facility_col p predefined_facility_col
    distance_metric nm w
  = (let* distances :=
       lift (cdist (map point_coords fac) (map point_coords fac) distance_metric) in
     PDispersion_from_cost_matrix distances p parr nm)
      (add_warnings
         (if needs_centroid fac then ["Facility" +:+ centroid_msg] else []) w).
Proof.
  intros Hf Hp. unfold PDispersion_from_geodataframe.
  rewrite predefined_step, Hp, bind_lift, Hf, bind_lift.
  cbn [geometry_types Series_geom_type ebind].
  rewrite (layer_step "Facility" fac).
  by rewrite bind_lift, layer_coords_checked.
Qed.

(** C5: when the coordinate reference systems of the two layers differ,
    [from_geodataframe] of [LSCP], [LSCPB] and [MCLP] fails with the
    CRS-mismatch error, and no solver has been invoked; the layers are
    geometry columns of the two frames, and the other named columns
    exist. *)
Theorem crs_mismatch_fails_before_solver (gdf_demand gdf_fac : GeoDataFrame)
    (demand_col facility_col : string) (service_radius : float)
    (predefined_facility_col : option string) (distance_metric nm : string)
    (w : World) (dem fac : list Geometry) (parr : option Series) :
  getcol gdf_demand demand_col = inr (GeoSeries dem) →
  getcol gdf_fac facility_col = inr (GeoSeries fac) →
  predefined_column gdf_fac predefined_facility_col = inr parr →
  crs gdf_demand ≠ crs gdf_fac →
  (∃ w', LSCP_from_geodataframe gdf_demand gdf_fac demand_col facility_col
           service_radius predefined_facility_col distance_metric nm w
         = (inl (ValueError (crs_mismatch_msg (crs gdf_demand) (crs gdf_fac))), w') ∧
         solver_calls w' = solver_calls w) ∧
  (∀ slv,
   ∃ w', LSCPB_from_geodataframe gdf_demand gdf_fac demand_col facility_col
           service_radius slv predefined_facility_col distance_metric nm w
         = (inl (ValueError (crs_mismatch_msg (crs gdf_demand) (crs gdf_fac))), w') ∧
         solver_calls w' = solver_calls w) ∧
  (∀ weights_cols load p,
   getcol gdf_demand weights_cols = inr load →
   ∃ w', MCLP_from_geodataframe gdf_demand gdf_fac demand_col facility_col
           weights_cols service_radius p predefined_facility_col distance_metric nm w
         = (inl (ValueError (crs_mismatch_msg (crs gdf_demand) (crs gdf_fac))), w') ∧
         solver_calls w' = solver_calls w).
Proof.
  intros Hd Hf Hp Hcrs. split_and!.
  - eexists. rewrite (LSCP_from_geodataframe_run _ _ _ _ _ _ _ _ _ _ _ _ Hd Hf Hp).
    by rewrite decide_True.
  - intros slv. eexists.
    rewrite (LSCPB_from_geodataframe_run _ _ _ _ _ _ _ _ _ _ _ _ _ Hd Hf Hp).
    by rewrite decide_True.
  - intros weights_cols load p Hl. eexists.
    rewrite (MCLP_from_geodataframe_run _ _ _ _ _ _ _ _ _ _ _ _ _ _ _ Hd Hf Hl Hp).
    by rewrite decide_True.
Qed.

(** [PDispersion.from_geodataframe] takes one layer and compares no
    reference systems. *)
Lemma PDispersion_from_geodataframe_no_crs_check gdf_fac facility_col p
    predefined_facility_col distance_metric nm w fac parr c :
  getcol gdf_fac facility_col = inr (GeoSeries fac) →
  predefined_column gdf_fac predefined_facility_col = inr parr →
  PDispersion_from_geodataframe (mk_GeoDataFrame c (columns gdf_fac)) facility_col p
    predefined_facility_col distance_metric nm w
  = PDispersion_from_geodataframe gdf_fac facility_col p
      predefined_facility_col distance_metric nm w.
Proof.
  intros Hf Hp.
  rewrite (PDispersion_from_geodataframe_run _ _ _ _ _ _ _ fac parr),
    (PDispersion_from_geodataframe_run _ _ _ _ _ _ _ fac parr); done.
Qed.

(** C10: the geometry-type check and the centroid substitution come before
    the CRS validation: when a layer is not made of points only and the
    reference systems differ, [from_geodataframe] fails with the
    CRS-mismatch error and the centroid warnings have been emitted all the
    same. *)
Theorem centroid_warning_before_crs_error (gdf_demand gdf_fac : GeoDataFrame)
    (demand_col facility_col : string) (service_radius : float)
    (predefined_facility_col : option string) (distance_metric nm : string)
    (w : World) (dem fac : list Geometry) (parr : option Series) :
  getcol gdf_demand demand_col = inr (GeoSeries dem) →
  getcol gdf_fac facility_col = inr (GeoSeries fac) →
  predefined_column gdf_fac predefined_facility_col = inr parr →
  needs_centroid dem = true ∨ needs_centroid fac = true →
  crs gdf_demand ≠ crs gdf_fac →
  centroid_warnings dem fac ≠ [] ∧
  LSCP_from_geodataframe gdf_demand gdf_fac demand_col facility_col
    service_radius predefined_facility_col distance_metric nm w
  = (inl (ValueError (crs_mismatch_msg (crs gdf_demand) (crs gdf_fac))),
     mk_World (warnings w ++ centroid_warnings dem fac) (solver_calls w)) ∧
  (∀ slv,
   LSCPB_from_geodataframe gdf_demand gdf_fac demand_col facility_col
     service_radius slv predefined_facility_col distance_metric nm w
   = (inl (ValueError (crs_mismatch_msg (crs gdf_demand) (crs gdf_fac))),
      mk_World (warnings w ++ centroid_warnings dem fac) (solver_calls w))).
Proof.
  intros Hd Hf Hp Hgeom Hcrs. split_and!.
  - unfold centroid_warnings. destruct Hgeom as [-> | ->]; [done|].
    by destruct (needs_centroid dem).
  - rewrite (LSCP_from_geodataframe_run _ _ _ _ _ _ _ _ _ _ _ _ Hd Hf Hp).
    by rewrite decide_True.
  - intros slv.
    rewrite (LSCPB_from_geodataframe_run _ _ _ _ _ _ _ _ _ _ _ _ _ Hd Hf Hp).
    by rewrite decide_True.
Qed.

(** C9: for two layers made of points only, with equal reference systems,
    [from_geodataframe] builds exactly what [from_cost_matrix] builds from
    the distance matrix that [cdist] computes from the coordinates of the
    points under the chosen metric, with the same service radius,
    predefined facilities and name, and emits no warning; for
    [PDispersion], with its single layer, likewise. *)
Theorem from_geodataframe_delegates (gdf_demand gdf_fac : GeoDataFrame)
    (demand_col facility_col : string) (service_radius : float)
    (predefined_facility_col : option string) (distance_metric nm : string)
    (w : World) (dem_coords fac_coords : list (float * float))
    (parr : option Series) :
  getcol gdf_demand demand_col = inr (GeoSeries (points dem_coords)) →
  getcol gdf_fac facility_col = inr (GeoSeries (points fac_coords)) →
  dem_coords ≠ [] → fac_coords ≠ [] →
  predefined_column gdf_fac predefined_facility_col = inr parr →
  (crs gdf_demand = crs gdf_fac →
   LSCP_from_geodataframe gdf_demand gdf_fac demand_col facility_col
     service_radius predefined_facility_col distance_metric nm w
   = (let* distances := lift (cdist dem_coords fac_coords distance_metric) in
      LSCP_from_cost_matrix distances service_radius parr nm) w) ∧
  (crs gdf_demand = crs gdf_fac →
   ∀ slv,
   LSCPB_from_geodataframe gdf_demand gdf_fac demand_col facility_col
     service_radius slv predefined_facility_col distance_metric nm w
   = (let* distances := lift (cdist dem_coords fac_coords distance_metric) in
      LSCPB_from_cost_matrix distances service_radius slv parr nm) w) ∧
  (crs gdf_demand = crs gdf_fac →
   ∀ weights_cols load p,
   getcol gdf_demand weights_cols = inr load →
   MCLP_from_geodataframe gdf_demand gdf_fac demand_col facility_col weights_cols
     service_radius p predefined_facility_col distance_metric nm w
   = (let* distances := lift (cdist dem_coords fac_coords distance_metric) in
      MCLP_from_cost_matrix distances load service_radius p parr nm) w) ∧
  (∀ p,
   PDispersion_from_geodataframe gdf_fac facility_col p predefined_facility_col
     distance_metric nm w
   = (let* distances := lift (cdist fac_coords fac_coords distance_metric) in
      PDispersion_from_cost_matrix distances p parr nm) w).
Proof.
  intros Hd Hf Hdne Hfne Hp.
  assert (centroid_warnings (points dem_coords) (points fac_coords) = []) as Hw.
  { unfold centroid_warnings. by rewrite !needs_centroid_points. }
  split_and!.
  - intros Hcrs. rewrite (LSCP_from_geodataframe_run _ _ _ _ _ _ _ _ _ _ _ _ Hd Hf Hp).
    rewrite decide_False by (by intros []).
    by rewrite Hw, add_warnings_nil, !point_coords_points.
  - intros Hcrs slv.
    rewrite (LSCPB_from_geodataframe_run _ _ _ _ _ _ _ _ _ _ _ _ _ Hd Hf Hp).
    rewrite decide_False by (by intros []).
    by rewrite Hw, add_warnings_nil, !point_coords_points.
  - intros Hcrs weights_cols load p Hl.
    rewrite (MCLP_from_geodataframe_run _ _ _ _ _ _ _ _ _ _ _ _ _ _ _ Hd Hf Hl Hp).
    rewrite decide_False by (by intros []).
    by rewrite Hw, add_warnings_nil, !point_coords_points.
  - intros p. rewrite (PDispersion_from_geodataframe_run _ _ _ _ _ _ _ _ _ Hf Hp).
    by rewrite needs_centroid_points, add_warnings_nil, !point_coords_points.
Qed.

(** ** The budget of the backup model *)

Lemma LSCP_from_cost_matrix_run cost_matrix service_radius predefined nm w :
  LSCP_from_cost_matrix cost_matrix service_radius predefined nm w
  = match optional_predefined_rows
            (facility_variables (range (shape cost_matrix).2) "y[{i}]") predefined with
    | inl e => (inl e, w)
    | inr prows =>
        match set_covering_rows
                (facility_variables (range (shape cost_matrix).2) "y[{i}]")
                (coverage_matrix cost_matrix service_radius)
                (range (shape cost_matrix).2) (range (shape cost_matrix).1) with
        | inl e => (inl e, w)
        | inr crows =>
            (inr (LSCP_model cost_matrix service_radius nm prows crows), w)
        end
    end.
Proof.
  unfold LSCP_from_cost_matrix, build, on_self.
  unfold add_facility_integer_variable.
  rewrite !bind_modify.
  rewrite (bind_getattr aij _ _ _ (np_zeros (shape cost_matrix))) by done.
  rewrite bind_lift, setitem_mask_coverage, bind_modify.
  set (fv := facility_variables _ _).
  unfold bind at 1.
  rewrite (optional_predefined_run predefined _ fv) by done.
  destruct (optional_predefined_rows fv predefined) as [e|prows]; [done|].
  unfold LSCP_add_obj.
  rewrite bind_assoc, (bind_getattr fac_vars _ _ _ fv), bind_modify by done.
  erewrite (bind_getattr aij) by done.
  rewrite (add_set_covering_run _ _ _ _ fv) by done.
  by destruct (set_covering_rows _ _ _ _) as [e|crows].
Qed.

Lemma objective_foldl_add (rows : list LpConstraint) (p : LpProblem) :
  objective (foldl (λ p c, add_constraint c p) p rows) = objective p.
Proof. revert p. induction rows as [|c rows IH]; intros p; [done|]. cbn. by rewrite IH. Qed.

Lemma LSCP_from_cost_matrix_objective cost_matrix service_radius predefined nm w m w' :
  LSCP_from_cost_matrix cost_matrix service_radius predefined nm w = (inr m, w') →
  objective (problem m)
  = Some (lpSum (facility_variables (range (shape cost_matrix).2) "y[{i}]")) ∧
  ∃ prows,
    optional_predefined_rows
      (facility_variables (range (shape cost_matrix).2) "y[{i}]") predefined
    = inr prows.
Proof.
  rewrite LSCP_from_cost_matrix_run.
  destruct (optional_predefined_rows _ _) as [e|prows]; [done|].
  destruct (set_covering_rows _ _ _ _) as [e|crows]; [done|].
  intros [= <- <-]. split; [|by eexists].
  unfold LSCP_model, with_rows. cbn. by rewrite objective_foldl_add.
Qed.

(** Without predefined facilities, [LSCP.from_cost_matrix] returns a model
    for every well-formed cost matrix. *)
Lemma LSCP_from_cost_matrix_total cost_matrix service_radius nm w :
  ndarray_ok cost_matrix →
  ∃ m, LSCP_from_cost_matrix cost_matrix service_radius None nm w = (inr m, w).
Proof.
  intros Hok. rewrite LSCP_from_cost_matrix_run. cbn [optional_predefined_rows].
  destruct (set_covering_rows_ok
              (facility_variables (range (shape cost_matrix).2) "y[{i}]")
              (coverage_matrix cost_matrix service_radius)) as [crows Hc].
  - by apply coverage_matrix_ok.
  - by rewrite length_facility_variables, length_range.
  - change (shape (coverage_matrix cost_matrix service_radius))
      with (shape cost_matrix) in Hc.
    rewrite Hc. by eexists.
Qed.

(** C4: [LSCPB.from_cost_matrix] first builds an [LSCP] on the same cost
    matrix and service radius and solves it; when that solve is optimal,
    the backup model is returned after this one solver call, it stores the
    objective value of the solved [LSCP] as [lscp_obj_value], and its
    problem holds the facility-count row
    [sum_j FacilityVar[j] <= lscp_obj_value]. *)
Theorem LSCPB_budget_from_LSCP (cost_matrix : ndarray float) (service_radius : float)
    (slv : LpSolver) (predefined : option Series) (nm : string) (w : World)
    (lscp : LocateSolver) :
  ndarray_ok cost_matrix →
  LSCP_from_cost_matrix cost_matrix service_radius predefined "LSCP" w = (inr lscp, w) →
  sol_status (slv (problem lscp)) = LpStatusOptimal →
  ∃ lscpb v fv,
    LSCPB_from_cost_matrix cost_matrix service_radius slv predefined nm w
    = (inr lscpb, count_solver_call w) ∧
    objective_value (LpProblem_solve slv (problem lscp)) = inr v ∧
    lscp_obj_value lscpb = Some v ∧
    fac_vars lscpb = Some fv ∧
    length fv = (shape cost_matrix).2 ∧
    mk_constraint (lpSum fv) LpConstraintLE (lpConst v) "facility_constraint"
    ∈ constraints (problem lscpb).
Proof.
  intros Hok Hlscp Hst.
  pose proof (coverage_matrix_ok _ service_radius Hok) as Hcov.
  pose proof (LSCP_from_cost_matrix_objective _ _ _ _ _ _ _ Hlscp) as [Hobj [prows Hprows]].
  pose proof (LSCP_built _ _ _ _ _ _ _ Hlscp) as (Hfv & Ha & _).
  set (fv := facility_variables (range (shape cost_matrix).2) "y[{i}]") in *.
  set (cv := client_variables (range (shape cost_matrix).1) "x[{i}]").
  set (cov := coverage_matrix cost_matrix service_radius) in *.
  destruct (LSCP_solve_results slv lscp w fv cov Hfv Ha Hcov)
    as (c2f & lscp' & Hsolve & Hlscp' & _);
    [by unfold fv; rewrite length_facility_variables, length_range|done|].
  set (v := expr_value (sol_values (slv (problem lscp))) (lpSum fv)).
  assert (objective_value (problem lscp') = inr v) as Hv.
  { rewrite Hlscp'. unfold objective_value. cbn. by rewrite Hobj. }
  destruct (backup_covering_rows_ok fv cv cov Hcov) as [brows Hbrows];
    [by unfold fv; rewrite length_facility_variables, length_range
    |by unfold cv; rewrite length_client_variables, length_range|].
  change (shape cov) with (shape cost_matrix) in Hbrows.
  eexists _, v, fv.
  split.
  { unfold LSCPB_from_cost_matrix.
    erewrite bind_inr; [|by destruct predefined; apply Hlscp].
    erewrite bind_inr; [|by unfold call_on; rewrite Hsolve].
    unfold build, on_self. cbv beta iota.
    rewrite bind_lift, Hv.
    unfold add_facility_integer_variable, add_client_integer_variable.
    rewrite !bind_modify.
    rewrite (bind_getattr aij _ _ _ (np_zeros (shape cost_matrix))) by done.
    rewrite bind_lift, setitem_mask_coverage, bind_modify.
    fold fv cv cov.
    unfold bind at 1.
    rewrite (optional_predefined_run predefined _ fv) by done.
    rewrite Hprows.
    unfold LSCPB_add_obj.
    rewrite bind_assoc, (bind_getattr cli_vars _ _ _ cv), bind_modify by done.
    rewrite (bind_getattr lscp_obj_value _ _ _ v) by done.
    erewrite bind_inr; [|by apply (add_facility_constraint_run v _ fv)].
    rewrite (bind_getattr aij _ _ _ cov) by done.
    rewrite (add_backup_covering_run _ _ _ _ fv cv) by done.
    rewrite Hbrows. reflexivity. }
  split_and!; [by rewrite <- Hv, Hlscp'|done|done| |].
  - unfold fv. by rewrite length_facility_variables, length_range.
  - apply elem_of_with_rows. left. apply elem_of_with_rows. right. by left.
Qed.

(** * Further properties of the code *)

(** ** What [fac2cli] lists *)

Lemma facility_variables_lookup (n j : nat) (t : string) :
  j < n →
  facility_variables (range n) t !! j
  = Some (mk_LpVariable (FacilityVar j) (format_i t (pretty j))
            (Some 0%float) (Some 1%float) LpInteger).
Proof. intros Hj. unfold facility_variables. by rewrite lookup_map_range. Qed.

Lemma client_variables_lookup (n i : nat) (t : string) :
  i < n →
  client_variables (range n) t !! i
  = Some (mk_LpVariable (ClientVar i) (format_i t (pretty i))
            (Some 0%float) (Some 1%float) LpInteger).
Proof. intros Hi. unfold client_variables. by rewrite lookup_map_range. Qed.

Lemma getitem2_inr_lt {A} (a : ndarray A) (i j : nat) (v : A) :
  ndarray_ok a → getitem2 a i j = inr v → i < (shape a).1 ∧ j < (shape a).2.
Proof.
  intros [Hlen Hrows]. unfold getitem2, getitem.
  destruct (data a !! i) as [row|] eqn:Hrow; [|done]. cbn.
  destruct (row !! j) as [x|] eqn:Hx; [|done]. intros _.
  split.
  - rewrite <- Hlen. by eapply lookup_lt_Some.
  - rewrite Forall_forall in Hrows. rewrite <- (Hrows row).
    + by eapply lookup_lt_Some.
    + by eapply list_elem_of_lookup_2.
Qed.

Lemma covers_coverage_matrix (cost_matrix : ndarray float) (r : float) (i j : nat) :
  ndarray_ok cost_matrix →
  covers (coverage_matrix cost_matrix r) i j = true
  ↔ ∃ c, getitem2 cost_matrix i j = inr c ∧ (c <=? r)%float = true.
Proof.
  intros Hok. unfold covers. split.
  - destruct (getitem2 (coverage_matrix cost_matrix r) i j) as [|v] eqn:Hv; [done|].
    destruct (getitem2_inr_lt _ _ _ _ (coverage_matrix_ok _ r Hok) Hv) as [Hi Hj].
    destruct (coverage_matrix_spec cost_matrix r i j Hok Hi Hj) as (c & Hc & Hcov).
    rewrite Hcov in Hv. injection Hv as <-. intros Hpos. exists c. split; [done|].
    destruct (c <=? r)%float; [done|]. vm_compute in Hpos. discriminate.
  - intros (c & Hc & Hle).
    destruct (getitem2_inr_lt _ _ _ _ Hok Hc) as [Hi Hj].
    destruct (coverage_matrix_spec cost_matrix r i j Hok Hi Hj) as (c' & Hc' & Hcov).
    rewrite Hc in Hc'. injection Hc' as <-. by rewrite Hcov, Hle.
Qed.

Lemma fac2cli_rows_serve (cost_matrix : ndarray float) (r : float) (σ : VarStore)
    (t : string) (j i : nat) :
  ndarray_ok cost_matrix →
  entry_elem
    (map (fac2cli_row σ (facility_variables (range (shape cost_matrix).2) t)
            (coverage_matrix cost_matrix r))
       (range (shape cost_matrix).2)) j i
  ↔ serves cost_matrix r σ j i.
Proof.
  intros Hok. rewrite entry_elem_map_range. unfold serves, fac2cli_row. split.
  - intros [Hj Hin]. rewrite facility_variables_lookup in Hin by done.
    unfold positive in Hin. cbn [var_id] in Hin.
    destruct (0 <? σ (FacilityVar j))%float; [|by apply elem_of_nil in Hin].
    apply list_elem_of_filter in Hin as [Hcov _].
    split; [done|]. by apply covers_coverage_matrix.
  - intros [Hpos (c & Hc & Hle)].
    destruct (getitem2_inr_lt _ _ _ _ Hok Hc) as [Hi Hj]. split; [done|].
    rewrite facility_variables_lookup by done.
    unfold positive. cbn [var_id]. rewrite Hpos.
    apply list_elem_of_filter. split.
    + apply covers_coverage_matrix; [done|]. by exists c.
    + by apply elem_of_range.
Qed.

Lemma MCLP_fac2cli_rows_serve (cost_matrix : ndarray float) (r : float) (σ : VarStore)
    (t t' : string) (j i : nat) :
  ndarray_ok cost_matrix →
  entry_elem
    (map (MCLP_fac2cli_row σ (facility_variables (range (shape cost_matrix).2) t)
            (client_variables (range (shape cost_matrix).1) t')
            (coverage_matrix cost_matrix r))
       (range (shape cost_matrix).2)) j i
  ↔ MCLP_serves cost_matrix r σ j i.
Proof.
  intros Hok. rewrite entry_elem_map_range.
  unfold MCLP_serves, serves, MCLP_fac2cli_row. split.
  - intros [Hj Hin]. rewrite facility_variables_lookup in Hin by done.
    unfold positive in Hin. cbn [var_id] in Hin.
    destruct (0 <? σ (FacilityVar j))%float; [|by apply elem_of_nil in Hin].
    apply list_elem_of_filter in Hin as [Hcov Hi%elem_of_range].
    apply andb_true_iff in Hcov as [Hx Hcov].
    unfold client_positive in Hx. rewrite client_variables_lookup in Hx by done.
    split; [done|]. split; [done|]. by apply covers_coverage_matrix.
  - intros [Hx [Hpos (c & Hc & Hle)]].
    destruct (getitem2_inr_lt _ _ _ _ Hok Hc) as [Hi Hj]. split; [done|].
    rewrite facility_variables_lookup by done.
    unfold positive. cbn [var_id]. rewrite Hpos.
    apply list_elem_of_filter. split; [|by apply elem_of_range].
    apply andb_true_iff. split.
    + unfold client_positive. by rewrite client_variables_lookup.
    + apply covers_coverage_matrix; [done|]. by exists c.
Qed.

(** X1: once the problem of a model that [LSCP.from_cost_matrix] or
    [LSCPB.from_cost_matrix] built is solved, [facility_client_array]
    succeeds with one list per facility site, and client [i] is in the list
    of facility [j] exactly when the value of [FacilityVar j] is positive
    and [cost_matrix[i][j] <= service_radius]. *)
Theorem fac2cli_lists_served_clients (cost_matrix : ndarray float)
    (service_radius : float) (predefined : option Series) (nm : string)
    (slv : LpSolver) (w w1 : World) (m : LocateSolver) :
  ndarray_ok cost_matrix →
  (LSCP_from_cost_matrix cost_matrix service_radius predefined nm w = (inr m, w1) →
   ∃ f2c,
     LSCP_facility_client_array (solved slv m)
     = (inr tt, set_fac2cli f2c (solved slv m)) ∧
     length f2c = (shape cost_matrix).2 ∧
     ∀ j i, entry_elem f2c j i
            ↔ serves cost_matrix service_radius (solution_of slv m) j i) ∧
  (∀ slv0,
   LSCPB_from_cost_matrix cost_matrix service_radius slv0 predefined nm w = (inr m, w1) →
   ∃ f2c,
     LSCPB_facility_client_array (solved slv m)
     = (inr tt, set_fac2cli f2c (solved slv m)) ∧
     length f2c = (shape cost_matrix).2 ∧
     ∀ j i, entry_elem f2c j i
            ↔ serves cost_matrix service_radius (solution_of slv m) j i).
Proof.
  intros Hok.
  pose proof (coverage_matrix_ok _ service_radius Hok) as Hcov.
  split.
  - intros Hm. pose proof (LSCP_built _ _ _ _ _ _ _ Hm) as (Hfv & Ha & _).
    eexists. split.
    { apply (LSCP_facility_client_array_run (solved slv m) _ _ (solution_of slv m)
               Hfv Ha Hcov); [|done].
      by rewrite length_facility_variables, length_range. }
    rewrite length_facility_variables, length_range.
    split; [by rewrite length_map, length_range|].
    intros j i. by apply fac2cli_rows_serve.
  - intros slv0 Hm. pose proof (LSCPB_built _ _ _ _ _ _ _ _ Hm) as (_ & Hfv & Ha & _).
    eexists. split.
    { apply (LSCPB_facility_client_array_run (solved slv m) _ _ (solution_of slv m)
               Hfv Ha Hcov); [|done].
      by rewrite length_facility_variables, length_range. }
    rewrite length_facility_variables, length_range.
    split; [by rewrite length_map, length_range|].
    intros j i. by apply fac2cli_rows_serve.
Qed.

(** X2: once the problem of a model that [MCLP.from_cost_matrix] built is
    solved, [MCLP.facility_client_array] lists client [i] under facility
    [j] exactly when the values of [FacilityVar j] and of [ClientVar i] are
    positive and [cost_matrix[i][j] <= service_radius]: a client whose own
    variable is not positive is in no list. *)
Theorem MCLP_fac2cli_lists_covered_clients (cost_matrix : ndarray float)
    (weights : Series) (service_radius : float) (p : Z) (predefined : option Series)
    (nm : string) (slv : LpSolver) (w w1 : World) (m : LocateSolver) :
  ndarray_ok cost_matrix →
  MCLP_from_cost_matrix cost_matrix weights service_radius p predefined nm w
  = (inr m, w1) →
  ∃ f2c,
    MCLP_facility_client_array (solved slv m)
    = (inr tt, set_fac2cli f2c (solved slv m)) ∧
    length f2c = (shape cost_matrix).2 ∧
    (∀ j i, entry_elem f2c j i
            ↔ MCLP_serves cost_matrix service_radius (solution_of slv m) j i) ∧
    ∀ i, (0 <? solution_of slv m (ClientVar i))%float = false →
         ∀ j, ¬ entry_elem f2c j i.
Proof.
  intros Hok Hm.
  pose proof (coverage_matrix_ok _ service_radius Hok) as Hcov.
  pose proof (MCLP_built _ _ _ _ _ _ _ _ _ Hm) as (Hfv & Hcv & Ha & _).
  eexists. split.
  { apply (MCLP_facility_client_array_run (solved slv m) _ _ _ (solution_of slv m)
             Hfv Hcv Ha Hcov); [| |done].
    - by rewrite length_facility_variables, length_range.
    - by rewrite length_client_variables, length_range. }
  rewrite length_facility_variables, length_range.
  split; [by rewrite length_map, length_range|].
  split.
  - intros j i. by apply MCLP_fac2cli_rows_serve.
  - intros i Hx j Hin. apply MCLP_fac2cli_rows_serve in Hin as [Hx' _]; [|done].
    congruence.
Qed.

(** ** The shape of the rows of [fac2cli] *)

Lemma filter_seq_increasing (P : nat → Prop) `{∀ i, Decision (P i)} (a n : nat) :
  StronglySorted lt (filter P (seq a n)).
Proof.
  revert a. induction n as [|n IH]; intros a; [constructor|].
  cbn [seq]. rewrite filter_cons. destruct (decide (P a)); [|apply IH].
  apply StronglySorted_cons. split; [|apply IH].
  apply Forall_forall. intros i [_ Hi%elem_of_seq]%list_elem_of_filter. lia.
Qed.

Lemma filter_sublist {A} (P Q : A → Prop) `{∀ x, Decision (P x)} `{∀ x, Decision (Q x)}
    (l : list A) :
  (∀ x, P x → Q x) → sublist (filter P l) (filter Q l).
Proof.
  intros HPQ. induction l as [|x l IH]; [constructor|].
  rewrite !filter_cons. destruct (decide (P x)) as [HP|HP], (decide (Q x)) as [HQ|HQ].
  - by constructor.
  - destruct HQ. by apply HPQ.
  - by constructor.
  - done.
Qed.

Lemma fac2cli_row_increasing σ fv (a : ndarray float) j :
  increasing_below (shape a).1 (fac2cli_row σ fv a j).
Proof.
  split.
  - unfold fac2cli_row. destruct (fv !! j) as [y|]; [|constructor].
    destruct (positive σ y); [|constructor]. apply filter_seq_increasing.
  - apply Forall_forall. intros i. apply fac2cli_row_bound.
Qed.

Lemma MCLP_fac2cli_row_increasing σ fv cv (a : ndarray float) j :
  increasing_below (shape a).1 (MCLP_fac2cli_row σ fv cv a j).
Proof.
  split.
  - unfold MCLP_fac2cli_row. destruct (fv !! j) as [y|]; [|constructor].
    destruct (positive σ y); [|constructor]. apply filter_seq_increasing.
  - apply Forall_forall. intros i. apply MCLP_fac2cli_row_bound.
Qed.

Lemma MCLP_fac2cli_row_sublist σ fv cv (a : ndarray float) j :
  sublist (MCLP_fac2cli_row σ fv cv a j) (fac2cli_row σ fv a j).
Proof.
  unfold MCLP_fac2cli_row, fac2cli_row. destruct (fv !! j) as [y|]; [|constructor].
  destruct (positive σ y); [|constructor].
  apply filter_sublist. by intros i [_ ?]%andb_true_iff.
Qed.

(** X3: on an instance whose variables have values, every list that
    [facility_client_array] stores in [fac2cli] is strictly increasing (so
    free of duplicates) and holds client indices below the number of
    clients, with one list per facility variable; the lists of
    [MCLP.facility_client_array] are sub-lists of those that the [LSCP]
    and [LSCPB] methods give on the same instance. *)
Theorem fac2cli_rows_increasing (self : LocateSolver) (fv : list LpVariable)
    (a : ndarray float) (σ : VarStore) :
  fac_vars self = Some fv → aij self = Some a → ndarray_ok a →
  length fv ≤ (shape a).2 → varValue (problem self) = Some σ →
  ∃ f2c,
    LSCP_facility_client_array self = (inr tt, set_fac2cli f2c self) ∧
    LSCPB_facility_client_array self = (inr tt, set_fac2cli f2c self) ∧
    length f2c = length fv ∧
    Forall (increasing_below (shape a).1) f2c ∧
    ∀ cv, cli_vars self = Some cv → (shape a).1 ≤ length cv →
      ∃ f2c',
        MCLP_facility_client_array self = (inr tt, set_fac2cli f2c' self) ∧
        length f2c' = length fv ∧
        Forall (increasing_below (shape a).1) f2c' ∧
        Forall2 sublist f2c' f2c.
Proof.
  intros Hfv Ha Hok Hlen Hσ.
  exists (map (fac2cli_row σ fv a) (range (length fv))).
  split; [by apply LSCP_facility_client_array_run|].
  split; [by apply LSCPB_facility_client_array_run|].
  split; [by rewrite length_map, length_range|].
  split.
  { apply Forall_map, Forall_forall. intros j _. apply fac2cli_row_increasing. }
  intros cv Hcv Hlen'.
  exists (map (MCLP_fac2cli_row σ fv cv a) (range (length fv))).
  split; [by apply MCLP_facility_client_array_run|].
  split; [by rewrite length_map, length_range|].
  split.
  { apply Forall_map, Forall_forall. intros j _. apply MCLP_fac2cli_row_increasing. }
  induction (range (length fv)) as [|j l IH]; constructor; [|done].
  apply MCLP_fac2cli_row_sublist.
Qed.

(** X4: [facility_client_array] discards what [fac2cli] held before: on an
    instance whose variables have values it stores the same lists whatever
    the earlier contents of [fac2cli], so running it a second time changes
    nothing. *)
Theorem facility_client_array_overwrites (self : LocateSolver) (fv : list LpVariable)
    (a : ndarray float) (σ : VarStore) :
  fac_vars self = Some fv → aij self = Some a → ndarray_ok a →
  length fv ≤ (shape a).2 → varValue (problem self) = Some σ →
  (∃ f2c,
     LSCP_facility_client_array self = (inr tt, set_fac2cli f2c self) ∧
     LSCPB_facility_client_array self = (inr tt, set_fac2cli f2c self) ∧
     ∀ old,
       LSCP_facility_client_array (set_fac2cli old self)
       = (inr tt, set_fac2cli f2c self) ∧
       LSCPB_facility_client_array (set_fac2cli old self)
       = (inr tt, set_fac2cli f2c self)) ∧
  ∀ cv, cli_vars self = Some cv → (shape a).1 ≤ length cv →
    ∃ f2c,
      MCLP_facility_client_array self = (inr tt, set_fac2cli f2c self) ∧
      ∀ old,
        MCLP_facility_client_array (set_fac2cli old self)
        = (inr tt, set_fac2cli f2c self).
Proof.
  intros Hfv Ha Hok Hlen Hσ. split.
  - exists (map (fac2cli_row σ fv a) (range (length fv))).
    split; [by apply LSCP_facility_client_array_run|].
    split; [by apply LSCPB_facility_client_array_run|].
    intros old. split.
    + by rewrite (LSCP_facility_client_array_run (set_fac2cli old self) fv a σ).
    + by rewrite (LSCPB_facility_client_array_run (set_fac2cli old self) fv a σ).
  - intros cv Hcv Hlen'.
    exists (map (MCLP_fac2cli_row σ fv cv a) (range (length fv))).
    split; [by apply MCLP_facility_client_array_run|].
    intros old.
    by rewrite (MCLP_facility_client_array_run (set_fac2cli old self) fv cv a σ).
Qed.

(** X5: [facility_client_array] on an instance whose problem has not been
    solved: [fac2cli] is first reset to the empty list, then reading the
    value of the first facility variable fails with a type error, so the
    call raises and leaves [fac2cli] empty; with no facility variable it
    returns. *)
Theorem facility_client_array_before_solve (self : LocateSolver)
    (fv : list LpVariable) :
  fac_vars self = Some fv → varValue (problem self) = None →
  LSCP_facility_client_array self
  = (match fv with [] => inr tt | _ => inl TypeError end, set_fac2cli [] self) ∧
  LSCPB_facility_client_array self
  = (match fv with [] => inr tt | _ => inl TypeError end, set_fac2cli [] self) ∧
  ∀ cv, cli_vars self = Some cv →
    MCLP_facility_client_array self
    = (match fv with [] => inr tt | _ => inl TypeError end, set_fac2cli [] self).
Proof.
  intros Hfv Hσ.
  assert (∀ inner : nat → Eff LocateSolver (list nat),
    for_each (range (length fv)) (λ j,
      let* y := lift (getitem fv j) in
      let* value := var_value y in
      let* array_cli := if (0 <? value)%float then inner j else ret [] in
      fac2cli_append array_cli) (set_fac2cli [] self)
    = (match fv with [] => inr tt | _ => inl TypeError end, set_fac2cli [] self))
    as Hloop.
  { intros inner. destruct fv as [|y fv']; [done|].
    unfold range. cbn [length seq for_each].
    rewrite bind_assoc, bind_lift. cbn [getitem lookup list_lookup].
    rewrite bind_assoc. unfold var_value at 1. rewrite bind_assoc, bind_get.
    cbn [problem set_fac2cli]. by rewrite Hσ. }
  split_and!.
  - unfold LSCP_facility_client_array.
    rewrite (bind_getattr _ _ _ _ _ Hfv), bind_modify. apply Hloop.
  - unfold LSCPB_facility_client_array.
    rewrite (bind_getattr _ _ _ _ _ Hfv), bind_modify. apply Hloop.
  - intros cv Hcv. unfold MCLP_facility_client_array.
    rewrite (bind_getattr _ _ _ _ _ Hfv), (bind_getattr _ _ _ _ _ Hcv), bind_modify.
    apply Hloop.
Qed.

(** ** What [solve] changes *)

Lemma keeps_world_on_self {A} (m : Eff LocateSolver A) : keeps_world (on_self m).
Proof. intros s w. unfold on_self. by destruct (m s). Qed.

Lemma keeps_world_ret {A} (a : A) : keeps_world (ret a).
Proof. by intros s w. Qed.

Lemma keeps_world_bind {A B} (m : Eff Env A) (k : A → Eff Env B) :
  keeps_world m → (∀ a, keeps_world (k a)) → keeps_world (bind m k).
Proof.
  intros Hm Hk s w. unfold bind. specialize (Hm s w).
  destruct (m (s, w)) as [[e|a] [s1 w1]]; cbn in Hm; subst w1; [done|]. apply Hk.
Qed.

Lemma keeps_world_get_self : keeps_world (let* self := get in ret self.1).
Proof. by intros s w. Qed.

Ltac by_status slv self :=
  unfold solve_outcome;
  destruct (sol_status (slv (problem self))) eqn:Hst;
    [rewrite solve_prefix_not_optimal by congruence; by rewrite Hst
    |by rewrite solve_prefix_optimal
    |rewrite solve_prefix_not_optimal by congruence; by rewrite Hst ..].

(** X6: [solve] with [results=False] changes the problem of the instance
    and nothing else, whatever status the solver reports: the result
    arrays of an earlier solve stay as they were, also when the variables
    have new values. [PDispersion.solve] does so for both values of
    [results], and [LSCPB.solve] on an instance without a stored solver
    raises before the solver is invoked. *)
Theorem solve_without_results_keeps_arrays (slv : LpSolver) (self : LocateSolver)
    (w : World) :
  LSCP_solve slv false (self, w)
  = (solve_outcome slv self, (solved slv self, count_solver_call w)) ∧
  MCLP_solve slv false (self, w)
  = (solve_outcome slv self, (solved slv self, count_solver_call w)) ∧
  (∀ results,
   PDispersion_solve slv results (self, w)
   = (solve_outcome slv self, (solved slv self, count_solver_call w))) ∧
  LSCPB_solve false (set_solver slv self, w)
  = (solve_outcome slv (set_solver slv self),
     (solved slv (set_solver slv self), count_solver_call w)) ∧
  (∀ results, solver self = None →
   LSCPB_solve results (self, w) = (inl (AttributeError "solver"), (self, w))) ∧
  fac2cli (solved slv self) = fac2cli self ∧
  cli2fac (solved slv self) = cli2fac self ∧
  n_cli_uncov (solved slv self) = n_cli_uncov self ∧
  perc_cov (solved slv self) = perc_cov self ∧
  backup_perc (solved slv self) = backup_perc self.
Proof.
  split_and!; try reflexivity.
  - unfold LSCP_solve. by_status slv self.
  - unfold MCLP_solve. by_status slv self.
  - intros results. unfold PDispersion_solve. by_status slv self.
  - unfold LSCPB_solve.
    rewrite (bind_inr _ _ _ slv (set_solver slv self, w)) by done.
    by_status slv (set_solver slv self).
  - intros results Hs. unfold LSCPB_solve.
    apply bind_inl. unfold on_self, getattr. by rewrite Hs.
Qed.

(** X7: every call of [solve] invokes the solver exactly once and emits
    no warning, whatever the status and also when the extraction of the
    results raises; [LSCPB.solve] does so with its stored solver, and
    invokes nothing when none is stored. *)
Theorem solve_invokes_solver_once (slv : LpSolver) (results : bool)
    (self : LocateSolver) (w : World) :
  (LSCP_solve slv results (self, w)).2.2 = count_solver_call w ∧
  (MCLP_solve slv results (self, w)).2.2 = count_solver_call w ∧
  (PDispersion_solve slv results (self, w)).2.2 = count_solver_call w ∧
  (LSCPB_solve results (self, w)).2.2
  = match solver self with Some _ => count_solver_call w | None => w end.
Proof.
  split_and!.
  - unfold LSCP_solve, problem_solve. rewrite bind_modify.
    apply keeps_world_bind; [apply keeps_world_on_self|intros _].
    apply keeps_world_bind; [|intros _; apply keeps_world_get_self].
    destruct results; [|apply keeps_world_ret].
    apply keeps_world_bind; [|intros _]; apply keeps_world_on_self.
  - unfold MCLP_solve, problem_solve. rewrite bind_modify.
    apply keeps_world_bind; [apply keeps_world_on_self|intros _].
    apply keeps_world_bind; [|intros _; apply keeps_world_get_self].
    destruct results; [|apply keeps_world_ret].
    repeat (apply keeps_world_bind; [|intros _]); apply keeps_world_on_self.
  - unfold PDispersion_solve, problem_solve. rewrite bind_modify.
    apply keeps_world_bind; [apply keeps_world_on_self|intros _].
    apply keeps_world_get_self.
  - unfold LSCPB_solve.
    destruct (solver self) as [slv0|] eqn:Hs.
    + rewrite (bind_inr _ _ _ slv0 (self, w))
        by (unfold on_self, getattr; by rewrite Hs).
      unfold problem_solve. rewrite bind_modify.
      apply keeps_world_bind; [apply keeps_world_on_self|intros _].
      apply keeps_world_bind; [|intros _; apply keeps_world_get_self].
      destruct results; [|apply keeps_world_ret].
      repeat (apply keeps_world_bind; [|intros _]); apply keeps_world_on_self.
    + erewrite bind_inl; [|unfold on_self, getattr; by rewrite Hs]. done.
Qed.

(** ** Building the backup model *)

(** X8: [LSCPB.from_cost_matrix] returns no model unless its inner [LSCP]
    is built and solved to optimality: an error of [LSCP.from_cost_matrix]
    is raised as it is, before any solver call, and a status of the inner
    solve that is not optimal is raised as the runtime failure of
    [LSCP.solve], after that one solver call. *)
Theorem LSCPB_needs_optimal_LSCP (cost_matrix : ndarray float) (service_radius : float)
    (slv : LpSolver) (predefined : option Series) (nm : string) (w : World) :
  (∀ e w',
   LSCP_from_cost_matrix cost_matrix service_radius predefined "LSCP" w = (inl e, w') →
   LSCPB_from_cost_matrix cost_matrix service_radius slv predefined nm w = (inl e, w)) ∧
  (∀ lscp w',
   LSCP_from_cost_matrix cost_matrix service_radius predefined "LSCP" w
   = (inr lscp, w') →
   sol_status (slv (problem lscp)) ≠ LpStatusOptimal →
   LSCPB_from_cost_matrix cost_matrix service_radius slv predefined nm w
   = (inl (RuntimeError (LpStatus_name (sol_status (slv (problem lscp))))),
      count_solver_call w)).
Proof.
  split.
  - intros e w' He.
    assert (w' = w) as ->.
    { unfold LSCP_from_cost_matrix in He. by apply build_on_self_inl in He as [-> _]. }
    unfold LSCPB_from_cost_matrix. apply bind_inl. by destruct predefined.
  - intros lscp w' Hlscp Hst.
    pose proof (LSCP_from_cost_matrix_inv _ _ _ _ _ _ _ Hlscp) as [-> _].
    unfold LSCPB_from_cost_matrix.
    erewrite bind_inr; [|by destruct predefined; apply Hlscp].
    apply bind_inl. unfold call_on. by rewrite LSCP_solve_not_optimal.
Qed.

(** ** Layers that are not point layers *)

Lemma needs_centroid_iff (gs : list Geometry) :
  needs_centroid gs = false ↔ gs ≠ [] ∧ ∃ coords, gs = points coords.
Proof.
  split.
  - intros Hn. split; [by intros ->|]. by apply only_points_inv.
  - intros [Hne [coords ->]]. apply needs_centroid_points. by intros ->.
Qed.

Lemma build_on_self_world (o : LocateSolver) (steps : Eff LocateSolver unit) (w : World) :
  (build o (on_self steps) w).2 = w.
Proof. unfold build, on_self. by destruct (steps o) as [[e|[]] o']. Qed.

Lemma lift_bind_world {A B} (x : Exn + A) (k : A → Eff World B) (w : World) :
  (∀ a, (k a w).2 = w) → (bind (lift x) k w).2 = w.
Proof. intros Hk. rewrite bind_lift. destruct x as [e|a]; [done|apply Hk]. Qed.

(** X9: with equal reference systems, [from_geodataframe] builds what
    [from_cost_matrix] builds from the distances between the coordinates
    of the geometries, where a layer that is not a non-empty layer of
    points contributes the coordinates of its centroids; the warnings of
    such layers are emitted first, demand before facility;
    [PDispersion.from_geodataframe] does the same with its single layer,
    measured against itself. *)
Theorem from_geodataframe_uses_centroids (gdf_demand gdf_fac : GeoDataFrame)
    (demand_col facility_col : string) (service_radius : float)
    (predefined_facility_col : option string) (distance_metric nm : string)
    (w : World) (dem fac : list Geometry) (parr : option Series) :
  getcol gdf_demand demand_col = inr (GeoSeries dem) →
  getcol gdf_fac facility_col = inr (GeoSeries fac) →
  predefined_column gdf_fac predefined_facility_col = inr parr →
  crs gdf_demand = crs gdf_fac →
  LSCP_from_geodataframe gdf_demand gdf_fac demand_col facility_col
    service_radius predefined_facility_col distance_metric nm w
  = (let* distances :=
       lift (cdist (map point_coords dem) (map point_coords fac) distance_metric) in
     LSCP_from_cost_matrix distances service_radius parr nm)
      (add_warnings (centroid_warnings dem fac) w) ∧
  (∀ slv,
   LSCPB_from_geodataframe gdf_demand gdf_fac demand_col facility_col
     service_radius slv predefined_facility_col distance_metric nm w
   = (let* distances :=
        lift (cdist (map point_coords dem) (map point_coords fac) distance_metric) in
      LSCPB_from_cost_matrix distances service_radius slv parr nm)
       (add_warnings (centroid_warnings dem fac) w)) ∧
  (∀ weights_cols load p,
   getcol gdf_demand weights_cols = inr load →
   MCLP_from_geodataframe gdf_demand gdf_fac demand_col facility_col weights_cols
     service_radius p predefined_facility_col distance_metric nm w
   = (let* distances :=
        lift (cdist (map point_coords dem) (map point_coords fac) distance_metric) in
      MCLP_from_cost_matrix distances load service_radius p parr nm)
       (add_warnings (centroid_warnings dem fac) w)) ∧
  (∀ p,
   PDispersion_from_geodataframe gdf_fac facility_col p predefined_facility_col
     distance_metric nm w
   = (let* distances :=
        lift (cdist (map point_coords fac) (map point_coords fac) distance_metric) in
      PDispersion_from_cost_matrix distances p parr nm)
       (add_warnings
          (if needs_centroid fac then ["Facility" +:+ centroid_msg] else []) w)).
Proof.
  intros Hd Hf Hp Hcrs. split_and!; [| | |by intros p; apply PDispersion_from_geodataframe_run].
  - rewrite (LSCP_from_geodataframe_run _ _ _ _ _ _ _ _ _ _ _ _ Hd Hf Hp).
    by rewrite decide_False by (by intros []).
  - intros slv.
    rewrite (LSCPB_from_geodataframe_run _ _ _ _ _ _ _ _ _ _ _ _ _ Hd Hf Hp).
    by rewrite decide_False by (by intros []).
  - intros weights_cols load p Hl.
    rewrite (MCLP_from_geodataframe_run _ _ _ _ _ _ _ _ _ _ _ _ _ _ _ Hd Hf Hl Hp).
    by rewrite decide_False by (by intros []).
Qed.

(** X10: the warnings of [from_geodataframe]. Whatever the outcome of
    [LSCP.from_geodataframe], [MCLP.from_geodataframe] and
    [PDispersion.from_geodataframe] on geometry columns (a model, the
    reference-system error, an error of [cdist] or of the builders), the
    solver count is untouched and the warnings emitted are exactly those of
    the layers; a layer is warned about unless it is a non-empty layer of
    points, so an empty layer is warned about too. *)
Theorem centroid_warnings_emitted (gdf_demand gdf_fac : GeoDataFrame)
    (demand_col facility_col : string) (service_radius : float)
    (predefined_facility_col : option string) (distance_metric nm : string)
    (w : World) (dem fac : list Geometry) (parr : option Series) :
  getcol gdf_demand demand_col = inr (GeoSeries dem) →
  getcol gdf_fac facility_col = inr (GeoSeries fac) →
  predefined_column gdf_fac predefined_facility_col = inr parr →
  (LSCP_from_geodataframe gdf_demand gdf_fac demand_col facility_col
     service_radius predefined_facility_col distance_metric nm w).2
  = add_warnings (centroid_warnings dem fac) w ∧
  (∀ weights_cols load p,
   getcol gdf_demand weights_cols = inr load →
   (MCLP_from_geodataframe gdf_demand gdf_fac demand_col facility_col weights_cols
      service_radius p predefined_facility_col distance_metric nm w).2
   = add_warnings (centroid_warnings dem fac) w) ∧
  (∀ p,
   (PDispersion_from_geodataframe gdf_fac facility_col p predefined_facility_col
      distance_metric nm w).2
   = add_warnings (if needs_centroid fac then ["Facility" +:+ centroid_msg] else []) w) ∧
  (centroid_warnings dem fac = []
   ↔ (dem ≠ [] ∧ ∃ coords, dem = points coords)
     ∧ (fac ≠ [] ∧ ∃ coords, fac = points coords)).
Proof.
  intros Hd Hf Hp. split_and!.
  - rewrite (LSCP_from_geodataframe_run _ _ _ _ _ _ _ _ _ _ _ _ Hd Hf Hp).
    destruct (decide (crs gdf_demand ≠ crs gdf_fac)); [done|].
    apply lift_bind_world. intros a. apply build_on_self_world.
  - intros weights_cols load p Hl.
    rewrite (MCLP_from_geodataframe_run _ _ _ _ _ _ _ _ _ _ _ _ _ _ _ Hd Hf Hl Hp).
    destruct (decide (crs gdf_demand ≠ crs gdf_fac)); [done|].
    apply lift_bind_world. intros a. apply build_on_self_world.
  - intros p. rewrite (PDispersion_from_geodataframe_run _ _ _ _ _ _ _ _ _ Hf Hp).
    apply lift_bind_world. intros a. apply build_on_self_world.
  - rewrite <- !needs_centroid_iff. unfold centroid_warnings.
    destruct (needs_centroid dem), (needs_centroid fac); cbn; split;
      try done; by intros [? ?].
Qed.

(** X11: the columns are looked up before anything else, in the order of
    the source: the predefined-facility column, then (for [MCLP]) the
    weights column, the demand column and the facility column. The first
    one that is missing is raised as a key error that names it, and a
    column that holds no geometries fails on [geom_type]; no warning has
    been emitted then. *)
Theorem from_geodataframe_missing_column (gdf_demand gdf_fac : GeoDataFrame)
    (demand_col facility_col : string) (service_radius : float)
    (predefined_facility_col : option string) (distance_metric nm : string)
    (w : World) :
  (∀ c, predefined_facility_col = Some c → columns gdf_fac !! c = None →
     LSCP_from_geodataframe gdf_demand gdf_fac demand_col facility_col
       service_radius predefined_facility_col distance_metric nm w
     = (inl (KeyError c), w)) ∧
  (∀ parr, predefined_column gdf_fac predefined_facility_col = inr parr →
     (columns gdf_demand !! demand_col = None →
      LSCP_from_geodataframe gdf_demand gdf_fac demand_col facility_col
        service_radius predefined_facility_col distance_metric nm w
      = (inl (KeyError demand_col), w)) ∧
     (is_Some (columns gdf_demand !! demand_col) →
      columns gdf_fac !! facility_col = None →
      LSCP_from_geodataframe gdf_demand gdf_fac demand_col facility_col
        service_radius predefined_facility_col distance_metric nm w
      = (inl (KeyError facility_col), w)) ∧
     (∀ dem fac, columns gdf_demand !! demand_col = Some dem →
      columns gdf_fac !! facility_col = Some fac →
      (∀ gs, dem ≠ GeoSeries gs) ∨ ((∃ gs, dem = GeoSeries gs) ∧ ∀ gs, fac ≠ GeoSeries gs) →
      LSCP_from_geodataframe gdf_demand gdf_fac demand_col facility_col
        service_radius predefined_facility_col distance_metric nm w
      = (inl (AttributeError "geom_type"), w)) ∧
     (∀ weights_cols p, columns gdf_demand !! weights_cols = None →
      MCLP_from_geodataframe gdf_demand gdf_fac demand_col facility_col weights_cols
        service_radius p predefined_facility_col distance_metric nm w
      = (inl (KeyError weights_cols), w))).
Proof.
  split.
  - intros c Hpc Hc. unfold LSCP_from_geodataframe.
    rewrite predefined_step, Hpc. unfold predefined_column, getcol. by rewrite Hc.
  - intros parr Hp. split_and!.
    + intros Hd. unfold LSCP_from_geodataframe.
      rewrite predefined_step, Hp, bind_lift. unfold getcol. by rewrite Hd.
    + intros [dem Hd] Hf. unfold LSCP_from_geodataframe.
      rewrite predefined_step, Hp, bind_lift. unfold getcol at 1. rewrite Hd.
      rewrite bind_lift. unfold getcol. by rewrite Hf.
    + intros dem fac Hd Hf Hgeo. unfold LSCP_from_geodataframe.
      rewrite predefined_step, Hp, bind_lift. unfold getcol at 1. rewrite Hd.
      rewrite bind_lift. unfold getcol at 1. rewrite Hf.
      rewrite bind_lift.
      destruct Hgeo as [Hdem|[[gs ->] Hfac]].
      * destruct dem as [gs| |]; [by destruct (Hdem gs)|done..].
      * cbn [geometry_types Series_geom_type ebind]. rewrite bind_lift.
        destruct fac as [gs'| |]; [by destruct (Hfac gs')|done..].
    + intros weights_cols p Hl. unfold MCLP_from_geodataframe.
      rewrite predefined_step, Hp, bind_lift. unfold getcol. by rewrite Hl.
Qed.

(** ** The weights of [MCLP] *)

(** X12: [MCLP.from_cost_matrix] reshapes the weights to one per client
    before it reads them: weights whose number differs from the number of
    rows of the cost matrix are refused with a value error, whatever the
    other arguments and with nothing else done, and numeric weights of the
    right number, without predefined facilities, always give a model. *)
Theorem MCLP_weights_one_per_client (cost_matrix : ndarray float) (weights : Series)
    (service_radius : float) (p : Z) (nm : string) (w : World) :
  ndarray_ok cost_matrix →
  (Series_length weights ≠ (shape cost_matrix).1 →
   ∀ predefined, ∃ msg,
     MCLP_from_cost_matrix cost_matrix weights service_radius p predefined nm w
     = (inl (ValueError msg), w)) ∧
  (Series_length weights = (shape cost_matrix).1 → numeric weights →
   ∃ m, MCLP_from_cost_matrix cost_matrix weights service_radius p None nm w
        = (inr m, w)).
Proof.
  intros Hok.
  pose proof (coverage_matrix_ok _ service_radius Hok) as Hcov.
  split.
  - intros Hlen predefined. eexists.
    unfold MCLP_from_cost_matrix, build, on_self.
    unfold add_facility_integer_variable, add_client_integer_variable.
    rewrite !bind_modify.
    rewrite (bind_getattr aij _ _ _ (np_zeros (shape cost_matrix))) by done.
    rewrite bind_lift, setitem_mask_coverage, bind_modify.
    rewrite bind_lift. unfold np_reshape_column. by rewrite decide_False.
  - intros Hlen Hnum.
    set (fv := facility_variables (range (shape cost_matrix).2) "x[{i}]").
    set (cv := client_variables (range (shape cost_matrix).1) "y[{i}]").
    set (cov := coverage_matrix cost_matrix service_radius) in *.
    destruct (maximal_coverage_rows_ok fv cv cov Hcov) as [rows Hrows];
      [by unfold fv; rewrite length_facility_variables, length_range
      |by unfold cv; rewrite length_client_variables, length_range|].
    change (shape cov) with (shape cost_matrix) in Hrows.
    assert (∃ ts, emap (λ i, ebind (weight_at weights i) (λ wt,
                             ebind (getitem cv i) (λ x, inr (wt, x))))
                    (range (shape cost_matrix).1) = inr ts) as [ts Hts].
    { apply emap_ok. intros i Hi%elem_of_range.
      destruct (getitem_lt cv i) as (x & _ & Hx);
        [by unfold cv; rewrite length_client_variables, length_range|].
      assert (∃ wt, weight_at weights i = inr wt) as [wt Hwt].
      { destruct weights as [gs|zs|fs]; [done| |]; cbn in Hlen |- *.
        - destruct (getitem_lt zs i) as (z & _ & Hz); [lia|]. rewrite Hz. by eexists.
        - destruct (getitem_lt fs i) as (f & _ & Hf); [lia|]. by eexists. }
      rewrite Hwt, Hx. by eexists. }
    eexists.
    unfold MCLP_from_cost_matrix, build, on_self.
    unfold add_facility_integer_variable, add_client_integer_variable.
    rewrite !bind_modify.
    rewrite (bind_getattr aij _ _ _ (np_zeros (shape cost_matrix))) by done.
    rewrite bind_lift, setitem_mask_coverage, bind_modify.
    rewrite bind_lift. unfold np_reshape_column. rewrite decide_True by done.
    fold fv cv cov.
    unfold MCLP_add_obj.
    rewrite bind_assoc, (bind_getattr cli_vars _ _ _ cv) by done.
    rewrite bind_assoc, bind_lift, Hts, bind_modify.
    rewrite bind_ret.
    rewrite (bind_getattr aij _ _ _ cov) by done.
    erewrite bind_inr;
      [|by rewrite (add_maximal_coverage_run _ _ _ _ fv cv), Hrows by done].
    rewrite (add_facility_constraint_run _ _ fv) by done. reflexivity.
Qed.

(** ** Costs that are not numbers *)

Lemma SFeqb_refl (s : spec_float) : s ≠ S754_nan → SFeqb s s = true.
Proof.
  destruct s as [b|b| |b m e]; try done; intros _; unfold SFeqb, SFcompare.
  - by destruct b.
  - by destruct b; rewrite Z.compare_refl, Pos.compare_cont_refl.
Qed.

Lemma is_nan_Prim2SF (x : float) : is_nan x = true → Prim2SF x = S754_nan.
Proof.
  unfold is_nan. rewrite (FloatAxioms.eqb_spec x x). intros Hx.
  destruct (Prim2SF x) as [b|b| |b m e]; [|  |done|];
    by rewrite SFeqb_refl in Hx.
Qed.

Lemma is_nan_leb (x y : float) :
  is_nan x = true ∨ is_nan y = true → (x <=? y)%float = false.
Proof.
  rewrite leb_spec. unfold SFleb, SFcompare.
  intros [Hx%is_nan_Prim2SF|Hy%is_nan_Prim2SF].
  - by rewrite Hx.
  - rewrite Hy. by destruct (Prim2SF x).
Qed.

(** X13: a cost or a service radius that is not a number covers nothing:
    in the coverage matrix of a model that [from_cost_matrix] built, the
    entry of a pair whose cost is NaN is 0, and with a NaN service radius
    every entry is 0. *)
Theorem nan_is_never_covered (cost_matrix : ndarray float)
    (service_radius : float) (predefined : option Series) (nm : string)
    (w w' : World) (m : LocateSolver) :
  ndarray_ok cost_matrix →
  LSCP_from_cost_matrix cost_matrix service_radius predefined nm w = (inr m, w')
  ∨ (∃ slv, LSCPB_from_cost_matrix cost_matrix service_radius slv predefined nm w
            = (inr m, w'))
  ∨ (∃ weights p, MCLP_from_cost_matrix cost_matrix weights service_radius p
                    predefined nm w = (inr m, w')) →
  ∃ a, aij m = Some a ∧
    ∀ i j c, getitem2 cost_matrix i j = inr c →
      is_nan c = true ∨ is_nan service_radius = true →
      getitem2 a i j = inr 0%float ∧ covers a i j = false.
Proof.
  intros Hok Hm. exists (coverage_matrix cost_matrix service_radius). split.
  - destruct Hm as [Hm|[[slv Hm]|(weights & p & Hm)]].
    + by pose proof (LSCP_built _ _ _ _ _ _ _ Hm) as (_ & Ha & _).
    + by pose proof (LSCPB_built _ _ _ _ _ _ _ _ Hm) as (_ & _ & Ha & _).
    + by pose proof (MCLP_built _ _ _ _ _ _ _ _ _ Hm) as (_ & _ & Ha & _).
  - intros i j c Hc Hnan.
    destruct (getitem2_inr_lt _ _ _ _ Hok Hc) as [Hi Hj].
    destruct (coverage_matrix_spec cost_matrix service_radius i j Hok Hi Hj)
      as (c' & Hc' & Hcov).
    rewrite Hc in Hc'. injection Hc' as <-.
    rewrite (is_nan_leb c service_radius Hnan) in Hcov.
    split; [done|]. unfold covers. by rewrite Hcov.
Qed.

(** ** The objective functions *)

Lemma p_sense_foldl_add (rows : list LpConstraint) (p : LpProblem) :
  p_sense (foldl (λ p c, add_constraint c p) p rows) = p_sense p.
Proof. revert p. induction rows as [|c rows IH]; intros p; [done|]. cbn. by rewrite IH. Qed.

Lemma keeps_objective_ret {A} (a : A) : keeps_objective (ret a).
Proof. by intros s r s' [= _ <-]. Qed.

Lemma keeps_objective_lift {A} (x : Exn + A) : keeps_objective (lift x).
Proof. by intros s r s' [= _ <-]. Qed.

Lemma keeps_objective_get : keeps_objective get.
Proof. by intros s r s' [= _ <-]. Qed.

Lemma keeps_objective_getattr {A} (field : LocateSolver → option A) attr :
  keeps_objective (getattr field attr).
Proof. intros s r s'. unfold getattr. by destruct (field s); intros [= _ <-]. Qed.

Lemma keeps_objective_bind {A B} (m : Eff LocateSolver A) (k : A → Eff LocateSolver B) :
  keeps_objective m → (∀ a, keeps_objective (k a)) → keeps_objective (bind m k).
Proof.
  intros Hm Hk s r s'. unfold bind.
  destruct (m s) as [[e|a] s1] eqn:Hms; apply Hm in Hms as [Ho Hs].
  - by intros [= _ <-].
  - intros [Ho' Hs']%Hk. by rewrite Ho', Hs'.
Qed.

Lemma keeps_objective_add_rows rows : keeps_objective (add_rows rows).
Proof.
  intros s r s'. rewrite add_rows_run. intros [= _ <-]. unfold with_rows. cbn.
  by rewrite objective_foldl_add, p_sense_foldl_add.
Qed.

Ltac objective_frame :=
  repeat first
    [ apply keeps_objective_bind; [|intros ?]
    | apply keeps_objective_ret
    | apply keeps_objective_lift
    | apply keeps_objective_get
    | apply keeps_objective_getattr
    | apply keeps_objective_add_rows
    | match goal with |- keeps_objective (match ?x with _ => _ end) => destruct x end ].

Lemma keeps_objective_predefined predefined :
  keeps_objective (match predefined with
                   | Some arr => add_predefined_facility_constraint arr
                   | None => ret tt
                   end).
Proof. destruct predefined; [unfold add_predefined_facility_constraint|]; objective_frame. Qed.

Lemma only_problem_optional_predefined predefined :
  only_problem (match predefined with
                | Some arr => add_predefined_facility_constraint arr
                | None => ret tt
                end).
Proof. frame. Qed.

(** X14: the objective of each model that [from_cost_matrix] returns, as
    [__add_obj] sets it and the constraint builders leave it: [LSCP]
    minimizes the sum of its facility variables, [LSCPB] maximizes the sum
    of its client variables, [MCLP] maximizes the sum of its client
    variables weighted by [weights], client by client, and [PDispersion]
    maximizes its dispersion variable. *)
Theorem objectives_of_built_models (cost_matrix : ndarray float)
    (service_radius : float) (predefined : option Series) (nm : string)
    (w w' : World) (m : LocateSolver) :
  (LSCP_from_cost_matrix cost_matrix service_radius predefined nm w = (inr m, w') →
   p_sense (problem m) = LpMinimize ∧
   ∃ fv, fac_vars m = Some fv ∧ objective (problem m) = Some (lpSum fv)) ∧
  (∀ slv,
   LSCPB_from_cost_matrix cost_matrix service_radius slv predefined nm w = (inr m, w') →
   p_sense (problem m) = LpMaximize ∧
   ∃ cv, cli_vars m = Some cv ∧ objective (problem m) = Some (lpSum cv)) ∧
  (∀ weights p,
   MCLP_from_cost_matrix cost_matrix weights service_radius p predefined nm w
   = (inr m, w') →
   p_sense (problem m) = LpMaximize ∧
   ∃ cv ts, cli_vars m = Some cv ∧ objective (problem m) = Some (mk_expr ts 0) ∧
     Forall2 (λ i t, weight_at weights i = inr t.1 ∧ cv !! i = Some t.2)
       (range (shape cost_matrix).1) ts) ∧
  (∀ p,
   PDispersion_from_cost_matrix cost_matrix p predefined nm w = (inr m, w') →
   p_sense (problem m) = LpMaximize ∧
   ∃ d, disperse_var m = Some d ∧ var_id d = DisperseVar ∧
     objective (problem m) = Some (lpSum [d])).
Proof.
  split_and!.
  - intros Hm. pose proof (LSCP_built _ _ _ _ _ _ _ Hm) as (Hfv & _).
    unfold LSCP_from_cost_matrix in Hm.
    apply build_on_self_inv in Hm as [_ H].
    unfold add_facility_integer_variable in H.
    rewrite !bind_modify in H.
    rewrite (bind_getattr aij _ _ _ (np_zeros (shape cost_matrix))) in H by done.
    rewrite bind_lift, setitem_mask_coverage, bind_modify in H.
    set (fv := facility_variables (range (shape cost_matrix).2) "y[{i}]") in *.
    set (s5 := set_aij _ _) in H.
    apply bind_inv in H as ([] & s6 & H6 & H).
    pose proof (only_problem_optional_predefined _ _ _ _ H6) as Hs6.
    apply keeps_objective_predefined in H6 as [_ Hsense6].
    apply bind_inv in H as ([] & s7 & H7 & H).
    unfold LSCP_add_obj in H7.
    rewrite (bind_getattr fac_vars _ _ _ fv) in H7 by (by rewrite Hs6).
    injection H7 as <-.
    assert (keeps_objective
              (let* a := getattr aij "aij" in
               add_set_covering_constraint a (range (shape cost_matrix).2)
                 (range (shape cost_matrix).1))) as Hrest
      by (unfold add_set_covering_constraint; objective_frame).
    apply Hrest in H as [Ho Hs]. rewrite Ho, Hs. cbn. split; [by rewrite Hsense6|].
    by exists fv.
  - intros slv Hm.
    assert (cli_vars m = Some (client_variables (range (shape cost_matrix).1) "x[{i}]"))
      as Hcv.
    { apply LSCPB_from_cost_matrix_inv in Hm as (? & ? & ? & _ & _ & _ & -> & _). done. }
    unfold LSCPB_from_cost_matrix in Hm.
    apply bind_inv in Hm as (lscp & w1 & _ & H).
    apply bind_inv in H as ([x lscp'] & w2 & _ & H).
    apply build_on_self_inv in H as [_ H].
    rewrite bind_lift in H.
    destruct (objective_value (problem lscp')) as [e|v]; [done|].
    unfold add_facility_integer_variable, add_client_integer_variable in H.
    rewrite !bind_modify in H.
    rewrite (bind_getattr aij _ _ _ (np_zeros (shape cost_matrix))) in H by done.
    rewrite bind_lift, setitem_mask_coverage, bind_modify in H.
    set (cv := client_variables (range (shape cost_matrix).1) "x[{i}]") in *.
    set (s5 := set_aij _ _) in H.
    apply bind_inv in H as ([] & s6 & H6 & H).
    pose proof (only_problem_optional_predefined _ _ _ _ H6) as Hs6.
    apply keeps_objective_predefined in H6 as [_ Hsense6].
    apply bind_inv in H as ([] & s7 & H7 & H).
    unfold LSCPB_add_obj in H7.
    rewrite (bind_getattr cli_vars _ _ _ cv) in H7 by (by rewrite Hs6).
    injection H7 as <-.
    assert (keeps_objective
              (let* bound := getattr lscp_obj_value "lscp_obj_value" in
               let* _ := add_facility_constraint bound in
               let* a := getattr aij "aij" in
               add_backup_covering_constraint a (range (shape cost_matrix).2)
                 (range (shape cost_matrix).1))) as Hrest
      by (unfold add_facility_constraint, add_backup_covering_constraint;
          objective_frame).
    apply Hrest in H as [Ho Hs]. rewrite Ho, Hs. cbn. split; [by rewrite Hsense6|].
    by exists cv.
  - intros weights p Hm. pose proof (MCLP_built _ _ _ _ _ _ _ _ _ Hm) as (_ & Hcv & _).
    unfold MCLP_from_cost_matrix in Hm.
    apply build_on_self_inv in Hm as [_ H].
    unfold add_facility_integer_variable, add_client_integer_variable in H.
    rewrite !bind_modify in H.
    rewrite (bind_getattr aij _ _ _ (np_zeros (shape cost_matrix))) in H by done.
    rewrite bind_lift, setitem_mask_coverage, bind_modify in H.
    set (cv := client_variables (range (shape cost_matrix).1) "y[{i}]") in *.
    set (s5 := set_aij _ _) in H.
    rewrite bind_lift in H. unfold np_reshape_column in H.
    destruct (decide (Series_length weights = (shape cost_matrix).1)); [|done].
    apply bind_inv in H as ([] & s6 & H6 & H).
    unfold MCLP_add_obj in H6.
    rewrite (bind_getattr cli_vars _ _ _ cv), bind_lift in H6 by done.
    destruct (emap _ _) as [e'|ts] eqn:Hts in H6; [done|].
    injection H6 as <-.
    assert (keeps_objective
              (let* _ := match predefined with
                         | Some arr => add_predefined_facility_constraint arr
                         | None => ret tt
                         end in
               let* a := getattr aij "aij" in
               let* _ := add_maximal_coverage_constraint a
                           (range (shape cost_matrix).2)
                           (range (shape cost_matrix).1) in
               add_facility_constraint (float_of_Z p))) as Hrest.
    { apply keeps_objective_bind; [apply keeps_objective_predefined|intros _].
      unfold add_facility_constraint, add_maximal_coverage_constraint.
      objective_frame. }
    apply Hrest in H as [Ho Hs]. rewrite Ho, Hs. cbn. split; [done|].
    exists cv, ts. split_and!; [done..|].
    apply emap_inv in Hts. eapply Forall2_impl; [exact Hts|].
    intros i [wt x]. cbn. unfold getitem.
    destruct (weight_at weights i) as [|wt']; [done|]. cbn.
    destruct (cv !! i) as [x'|]; [|done]. cbn. by intros [= -> ->].
  - intros p Hm. pose proof (PDispersion_from_cost_matrix_inv _ _ _ _ _ _ _ Hm) as [_ Hinv].
    unfold PDispersion_from_cost_matrix in Hm.
    apply build_on_self_inv in Hm as [_ H].
    unfold add_maximized_min_variable, PDispersion_add_obj,
      add_facility_integer_variable in H.
    rewrite bind_modify, bind_assoc in H.
    erewrite (bind_getattr disperse_var) in H by done.
    rewrite !bind_modify in H.
    assert (keeps_objective
              (let* p0 := getattr p_facilities "p_facilities" in
               let* _ := add_facility_constraint (float_of_Z p0) in
               let* _ := match predefined with
                         | Some arr => add_predefined_facility_constraint arr
                         | None => ret tt
                         end in
               add_p_dispersion_interfacility_constraint cost_matrix
                 (range (shape cost_matrix).2))) as Hrest.
    { apply keeps_objective_bind; [apply keeps_objective_getattr|intros ?].
      apply keeps_objective_bind;
        [unfold add_facility_constraint; objective_frame|intros _].
      apply keeps_objective_bind; [apply keeps_objective_predefined|intros _].
      unfold add_p_dispersion_interfacility_constraint. objective_frame. }
    apply Hrest in H as [Ho Hs]. rewrite Ho, Hs. cbn. split; [done|].
    eexists. split; [by rewrite Hinv|]. done.
Qed.

(** ** A larger service radius *)

Lemma SFleb_trans (a b c : spec_float) :
  SFleb a b = true → SFleb b c = true → SFleb a c = true.
Proof.
  unfold SFleb, SFcompare.
  destruct a as [sa|sa| |sa ma ea], b as [sb|sb| |sb mb eb], c as [sc|sc| |sc mc ec];
    try done;
    repeat match goal with s : bool |- _ => destruct s end; try done;
    change (Pos.compare_cont Eq ma mb) with (Pos.compare ma mb);
    change (Pos.compare_cont Eq mb mc) with (Pos.compare mb mc);
    change (Pos.compare_cont Eq ma mc) with (Pos.compare ma mc);
    destruct (Z.compare_spec ea eb), (Z.compare_spec eb ec), (Z.compare_spec ea ec);
    try done; try lia;
    destruct (Pos.compare_spec ma mb), (Pos.compare_spec mb mc),
      (Pos.compare_spec ma mc); try done; lia.
Qed.

Lemma leb_trans (x y z : float) :
  (x <=? y)%float = true → (y <=? z)%float = true → (x <=? z)%float = true.
Proof. rewrite !leb_spec. apply SFleb_trans. Qed.

Lemma coverage_model_aij cost_matrix service_radius m :
  coverage_model_of cost_matrix service_radius m →
  aij m = Some (coverage_matrix cost_matrix service_radius).
Proof.
  intros (predefined & nm & w & w' & [Hm|[[slv Hm]|(weights & p & Hm)]]).
  - by pose proof (LSCP_built _ _ _ _ _ _ _ Hm) as (_ & Ha & _).
  - by pose proof (LSCPB_built _ _ _ _ _ _ _ _ Hm) as (_ & _ & Ha & _).
  - by pose proof (MCLP_built _ _ _ _ _ _ _ _ _ Hm) as (_ & _ & Ha & _).
Qed.

(** X15: coverage grows with the service radius: of two coverage models
    built from one cost matrix, the one with the larger radius covers
    every pair of a client and a facility that the other covers. *)
Theorem coverage_grows_with_radius (cost_matrix : ndarray float)
    (r r' : float) (m m' : LocateSolver) :
  ndarray_ok cost_matrix → (r <=? r')%float = true →
  coverage_model_of cost_matrix r m → coverage_model_of cost_matrix r' m' →
  ∃ a a', aij m = Some a ∧ aij m' = Some a' ∧ shape a = shape a' ∧
    ∀ i j, covers a i j = true → covers a' i j = true.
Proof.
  intros Hok Hr Hm%coverage_model_aij Hm'%coverage_model_aij.
  exists (coverage_matrix cost_matrix r), (coverage_matrix cost_matrix r').
  split_and!; [done..|].
  intros i j (c & Hc & Hle)%covers_coverage_matrix; [|done].
  apply covers_coverage_matrix; [done|]. exists c. split; [done|].
  by apply (leb_trans c r r').
Qed.

End Locate.

(** * Instances on the sample inputs *)

Lemma sample_cost_matrix_ok : ndarray_ok sample_cost_matrix.
Proof. split; [done|]. repeat constructor. Qed.

Lemma coverage_threshold_inclusive_witness :
  ∃ m, LSCP_from_cost_matrix sample_cost_matrix 3 None "LSCP" sample_world
       = (inr m, sample_world) ∧
    ∃ a, aij m = Some a ∧ shape a = shape sample_cost_matrix ∧
      ∀ i j, i < (shape sample_cost_matrix).1 → j < (shape sample_cost_matrix).2 →
        ∃ c, getitem2 sample_cost_matrix i j = inr c ∧
             getitem2 a i j = inr (if (c <=? 3)%float then 1%float else 0%float).
Proof.
  eexists. split; [vm_compute; reflexivity|].
  apply (coverage_threshold_inclusive sample_cost_matrix 3 None "LSCP"
           sample_world sample_world).
  - split; [reflexivity|repeat constructor].
  - left. vm_compute. reflexivity.
Defined.

(** C8, at the failing input: with two sites and [p_fac = 0] the problem
    that [PDispersion.from_cost_matrix] builds has feasible points (no
    facility opened), so it is not infeasible, and [solve] returns the
    model whenever the solver reports an optimal status, here with the
    all-closed solution. *)
Lemma zero_facilities_problem_is_feasible :
  ∃ m,
    PDispersion_from_cost_matrix matrix_max sample_distances 0 None "P-Dispersion"
      sample_world = (inr m, sample_world) ∧
    feasible (λ _, 0%float) m = true ∧
    feasible all_closed m = true ∧
    (∀ slv results, sol_status (slv (problem m)) = LpStatusOptimal →
       PDispersion_solve slv results (m, sample_world)
       = (inr (solved slv m), (solved slv m, count_solver_call sample_world))) ∧
    ∃ m', PDispersion_solve all_closed_solver true (m, sample_world)
          = (inr m', (m', count_solver_call sample_world)) ∧
          status (problem m') = LpStatusOptimal ∧
          objective_value (problem m') = inr 3%float.
Proof.
  eexists. split; [vm_compute; reflexivity|].
  split_and!.
  - vm_compute. reflexivity.
  - vm_compute. reflexivity.
  - intros slv results Hst. by apply PDispersion_solve_optimal.
  - eexists. split; [vm_compute; reflexivity|]. split; vm_compute; reflexivity.
Qed.

(** C2, at the failing input: [PDispersion.solve] with [results=True] and an
    optimal status returns with [fac2cli] and [cli2fac] unset, so reading
    them raises an attribute error. *)
Lemma PDispersion_solve_results_unset :
  ∃ m m',
    PDispersion_from_cost_matrix matrix_max sample_distances 1 None "P-Dispersion"
      sample_world = (inr m, sample_world) ∧
    PDispersion_solve sample_solver true (m, sample_world)
    = (inr m', (m', count_solver_call sample_world)) ∧
    fac2cli m' = None ∧ cli2fac m' = None ∧
    getattr fac2cli "fac2cli" m' = (inl (AttributeError "fac2cli"), m') ∧
    getattr cli2fac "cli2fac" m' = (inl (AttributeError "cli2fac"), m').
Proof.
  eexists _, _. split; [vm_compute; reflexivity|].
  split; [vm_compute; reflexivity|].
  split_and!; reflexivity.
Qed.

Lemma non_optimal_status_raises_witness :
  LSCP_solve infeasible_solver true
    (new_LocateSolver LSCP "LSCP" (new_LpProblem "LSCP" LpMinimize), sample_world)
  = (inl (RuntimeError "Infeasible"),
     (solved infeasible_solver
        (new_LocateSolver LSCP "LSCP" (new_LpProblem "LSCP" LpMinimize)),
      count_solver_call sample_world)).
Proof.
  apply (non_optimal_status_raises no_median_results infeasible_solver true
           (new_LocateSolver LSCP "LSCP" (new_LpProblem "LSCP" LpMinimize))
           sample_world).
  vm_compute. discriminate.
Defined.

Lemma LSCPB_budget_from_LSCP_witness :
  ∃ lscpb fv,
    LSCPB_from_cost_matrix sample_cost_matrix 3 sample_solver None "LSCP-B" sample_world
    = (inr lscpb, count_solver_call sample_world) ∧
    lscp_obj_value lscpb = Some 2%float ∧
    fac_vars lscpb = Some fv ∧
    mk_constraint (lpSum fv) LpConstraintLE (lpConst 2) "facility_constraint"
    ∈ constraints (problem lscpb).
Proof.
  assert (∃ lscp, LSCP_from_cost_matrix sample_cost_matrix 3 None "LSCP" sample_world
                  = (inr lscp, sample_world)) as [lscp Hlscp]
    by (eexists; vm_compute; reflexivity).
  destruct (LSCPB_budget_from_LSCP sample_cost_matrix 3 sample_solver None "LSCP-B"
              sample_world lscp) as (lscpb & v & fv & Hrun & Hv & Hobj & Hfv & _ & Hrow).
  - split; [reflexivity|repeat constructor].
  - exact Hlscp.
  - reflexivity.
  - assert (v = 2%float) as ->.
    { revert Hv. vm_compute in Hlscp. injection Hlscp as <-. vm_compute. congruence. }
    by exists lscpb, fv.
Defined.

Lemma crs_mismatch_fails_before_solver_witness :
  ∃ w', LSCP_from_geodataframe euclidean_cdist sample_demand sample_polygons
          "geometry" "geometry" 3 None default_distance_metric "LSCP" sample_world
        = (inl (ValueError
                  "Geodataframes crs are different: gdf_demand-EPSG:4326, gdf_fac-EPSG:3857"),
           w') ∧
        solver_calls w' = solver_calls sample_world.
Proof.
  destruct (crs_mismatch_fails_before_solver euclidean_cdist
              sample_demand sample_polygons
              "geometry" "geometry" 3 None default_distance_metric "LSCP" sample_world
              [Point 0 0; Point 3 4]
              [Shape Polygon (0.5, 0.5); Shape Polygon (2.5, 0.5)]%float None)
    as [(w' & Hrun & Hcalls) _].
  - vm_compute. reflexivity.
  - vm_compute. reflexivity.
  - reflexivity.
  - vm_compute. discriminate.
  - exists w'. split; [|exact Hcalls]. rewrite Hrun. vm_compute. reflexivity.
Defined.

Lemma centroid_warning_before_crs_error_witness :
  LSCP_from_geodataframe euclidean_cdist sample_demand sample_polygons
    "geometry" "geometry" 3 None default_distance_metric "LSCP" sample_world
  = (inl (ValueError
            "Geodataframes crs are different: gdf_demand-EPSG:4326, gdf_fac-EPSG:3857"),
     mk_World
       ["Facility geodataframe contains mixed type geometries or is not a point. Be sure deriving centroid from geometries doesn't affect the results."]
       0).
Proof.
  destruct (centroid_warning_before_crs_error euclidean_cdist
              sample_demand sample_polygons
              "geometry" "geometry" 3 None default_distance_metric "LSCP" sample_world
              [Point 0 0; Point 3 4]
              [Shape Polygon (0.5, 0.5); Shape Polygon (2.5, 0.5)]%float None)
    as (_ & Hrun & _).
  - vm_compute. reflexivity.
  - vm_compute. reflexivity.
  - reflexivity.
  - right. vm_compute. reflexivity.
  - vm_compute. discriminate.
  - rewrite Hrun. vm_compute. reflexivity.
Defined.

Lemma from_geodataframe_delegates_witness :
  LSCP_from_geodataframe euclidean_cdist sample_demand sample_facilities
    "geometry" "geometry" 3 None default_distance_metric "LSCP" sample_world
  = LSCP_from_cost_matrix (mk_ndarray (2, 2) [[0; 3]; [5; 4]]%float) 3 None "LSCP"
      sample_world.
Proof.
  destruct (from_geodataframe_delegates euclidean_cdist matrix_max
              sample_demand sample_facilities
              "geometry" "geometry" 3 None default_distance_metric "LSCP" sample_world
              [(0, 0); (3, 4)]%float [(0, 0); (3, 0)]%float None) as [HLSCP _].
  - vm_compute. reflexivity.
  - vm_compute. reflexivity.
  - discriminate.
  - discriminate.
  - reflexivity.
  - rewrite HLSCP by (vm_compute; reflexivity). vm_compute. reflexivity.
Defined.

Lemma fac2cli_cli2fac_inverse_witness :
  ∃ m m',
    LSCP_from_cost_matrix sample_cost_matrix 3 None "LSCP" sample_world
    = (inr m, sample_world) ∧
    LSCP_solve sample_solver true (m, sample_world)
    = (inr m', (m', count_solver_call sample_world)) ∧
    fac2cli m' = Some [[0; 1]; [1; 2]] ∧ cli2fac m' = Some [[0]; [0; 1]; [1]] ∧
    (entry_elem [[0; 1]; [1; 2]] 1 2 ↔ entry_elem [[0]; [0; 1]; [1]] 2 1).
Proof.
  assert (∃ m, LSCP_from_cost_matrix sample_cost_matrix 3 None "LSCP" sample_world
               = (inr m, sample_world)) as [m Hm]
    by (eexists; vm_compute; reflexivity).
  destruct (fac2cli_cli2fac_inverse sample_cost_matrix 3 None "LSCP" sample_solver
              sample_world sample_world sample_world m) as [HLSCP _].
  - split; [reflexivity|repeat constructor].
  - reflexivity.
  - destruct (HLSCP Hm) as (m' & f2c & c2f & Hrun & Hf & Hc & _ & _ & Hinv).
    assert (f2c = [[0; 1]; [1; 2]] ∧ c2f = [[0]; [0; 1]; [1]]) as [-> ->].
    { revert Hrun Hf Hc. vm_compute in Hm. injection Hm as <-.
      intros Hrun. vm_compute in Hrun. injection Hrun as <-.
      intros [= <-] [= <-]. done. }
    exists m, m'. split_and!; [done..|]. apply Hinv.
Defined.

Lemma closed_facility_has_no_clients_witness :
  ∃ m m' f2c,
    LSCP_from_cost_matrix sample_cost_matrix 3 None "LSCP" sample_world
    = (inr m, sample_world) ∧
    LSCP_solve second_site_solver true (m, sample_world)
    = (inr m', (m', count_solver_call sample_world)) ∧
    fac2cli m' = Some f2c ∧ f2c !! 0 = Some [].
Proof.
  assert (∃ m, LSCP_from_cost_matrix sample_cost_matrix 3 None "LSCP" sample_world
               = (inr m, sample_world)) as [m Hm]
    by (eexists; vm_compute; reflexivity).
  destruct (closed_facility_has_no_clients sample_cost_matrix 3 None "LSCP"
              second_site_solver sample_world sample_world sample_world m)
    as [HLSCP _].
  - split; [reflexivity|repeat constructor].
  - reflexivity.
  - destruct (HLSCP Hm) as (m' & fv & f2c & Hrun & Hfv & Hf & _ & Hclosed).
    exists m, m', f2c. split_and!; [done..|].
    assert (∃ y, fv !! 0 = Some y ∧ var_id y = FacilityVar 0) as (y & Hy & Hid).
    { revert Hrun Hfv. vm_compute in Hm. injection Hm as <-.
      intros Hrun. vm_compute in Hrun. injection Hrun as <-.
      intros [= <-]. by eexists. }
    apply (Hclosed 0 y Hy). unfold solution_of. cbn. by rewrite Hid.
Defined.

(** ** Instances of the further properties *)

Lemma fac2cli_lists_served_clients_witness :
  ∃ m f2c,
    LSCP_from_cost_matrix sample_cost_matrix 3 None "LSCP" sample_world
    = (inr m, sample_world) ∧
    LSCP_facility_client_array (solved second_site_solver m)
    = (inr tt, set_fac2cli f2c (solved second_site_solver m)) ∧
    (entry_elem f2c 1 2
     ↔ serves sample_cost_matrix 3 (solution_of second_site_solver m) 1 2).
Proof.
  assert (∃ m, LSCP_from_cost_matrix sample_cost_matrix 3 None "LSCP" sample_world
               = (inr m, sample_world)) as [m Hm]
    by (eexists; vm_compute; reflexivity).
  destruct (fac2cli_lists_served_clients sample_cost_matrix 3 None "LSCP"
              second_site_solver sample_world sample_world m sample_cost_matrix_ok)
    as [HLSCP _].
  destruct (HLSCP Hm) as (f2c & Hrun & _ & Hiff).
  exists m, f2c. split_and!; [done..|]. apply Hiff.
Defined.

Lemma MCLP_fac2cli_lists_covered_clients_witness :
  ∃ m f2c,
    MCLP_from_cost_matrix sample_cost_matrix sample_weights 3 1 None "MCLP" sample_world
    = (inr m, sample_world) ∧
    MCLP_facility_client_array (solved sample_solver m)
    = (inr tt, set_fac2cli f2c (solved sample_solver m)) ∧
    (entry_elem f2c 0 1
     ↔ MCLP_serves sample_cost_matrix 3 (solution_of sample_solver m) 0 1).
Proof.
  assert (∃ m, MCLP_from_cost_matrix sample_cost_matrix sample_weights 3 1 None "MCLP"
                 sample_world = (inr m, sample_world)) as [m Hm]
    by (eexists; vm_compute; reflexivity).
  destruct (MCLP_fac2cli_lists_covered_clients sample_cost_matrix sample_weights 3 1
              None "MCLP" sample_solver sample_world sample_world m
              sample_cost_matrix_ok Hm) as (f2c & Hrun & _ & Hiff & _).
  exists m, f2c. split_and!; [done..|]. apply Hiff.
Defined.

Lemma fac2cli_rows_increasing_witness :
  ∃ m f2c,
    LSCP_from_cost_matrix sample_cost_matrix 3 None "LSCP" sample_world
    = (inr m, sample_world) ∧
    LSCP_facility_client_array (solved sample_solver m)
    = (inr tt, set_fac2cli f2c (solved sample_solver m)) ∧
    Forall (increasing_below 3) f2c.
Proof.
  assert (∃ m, LSCP_from_cost_matrix sample_cost_matrix 3 None "LSCP" sample_world
               = (inr m, sample_world)) as [m Hm]
    by (eexists; vm_compute; reflexivity).
  pose proof (LSCP_built _ _ _ _ _ _ _ Hm) as (Hfv & Ha & _).
  destruct (fac2cli_rows_increasing (solved sample_solver m)
              (facility_variables (range 2) "y[{i}]")
              (coverage_matrix sample_cost_matrix 3)
              (solution_of sample_solver m))
    as (f2c & Hrun & _ & _ & Hinc & _).
  - exact Hfv.
  - exact Ha.
  - apply coverage_matrix_ok, sample_cost_matrix_ok.
  - vm_compute. lia.
  - reflexivity.
  - exists m, f2c. by split_and!.
Defined.

Lemma facility_client_array_overwrites_witness :
  ∃ m f2c,
    LSCP_from_cost_matrix sample_cost_matrix 3 None "LSCP" sample_world
    = (inr m, sample_world) ∧
    LSCP_facility_client_array (solved sample_solver m)
    = (inr tt, set_fac2cli f2c (solved sample_solver m)) ∧
    LSCP_facility_client_array (set_fac2cli [[7]] (solved sample_solver m))
    = (inr tt, set_fac2cli f2c (solved sample_solver m)).
Proof.
  assert (∃ m, LSCP_from_cost_matrix sample_cost_matrix 3 None "LSCP" sample_world
               = (inr m, sample_world)) as [m Hm]
    by (eexists; vm_compute; reflexivity).
  pose proof (LSCP_built _ _ _ _ _ _ _ Hm) as (Hfv & Ha & _).
  destruct (facility_client_array_overwrites (solved sample_solver m)
              (facility_variables (range 2) "y[{i}]")
              (coverage_matrix sample_cost_matrix 3)
              (solution_of sample_solver m))
    as [(f2c & Hrun & _ & Hold) _].
  - exact Hfv.
  - exact Ha.
  - apply coverage_matrix_ok, sample_cost_matrix_ok.
  - vm_compute. lia.
  - reflexivity.
  - exists m, f2c. split_and!; [done..|]. apply Hold.
Defined.

Lemma facility_client_array_before_solve_witness :
  ∃ m,
    LSCP_from_cost_matrix sample_cost_matrix 3 None "LSCP" sample_world
    = (inr m, sample_world) ∧
    LSCP_facility_client_array m = (inl TypeError, set_fac2cli [] m).
Proof.
  assert (∃ m, LSCP_from_cost_matrix sample_cost_matrix 3 None "LSCP" sample_world
               = (inr m, sample_world)) as [m Hm]
    by (eexists; vm_compute; reflexivity).
  pose proof (LSCP_built _ _ _ _ _ _ _ Hm) as (Hfv & _).
  destruct (facility_client_array_before_solve m
              (facility_variables (range 2) "y[{i}]")) as [Hrun _].
  - exact Hfv.
  - vm_compute in Hm. by injection Hm as <-.
  - exists m. split; [done|]. exact Hrun.
Defined.

Lemma solve_without_results_keeps_arrays_witness :
  LSCPB_solve true
    (new_LocateSolver LSCPB "LSCP-B" (new_LpProblem "LSCP-B" LpMaximize), sample_world)
  = (inl (AttributeError "solver"),
     (new_LocateSolver LSCPB "LSCP-B" (new_LpProblem "LSCP-B" LpMaximize), sample_world)).
Proof.
  destruct (solve_without_results_keeps_arrays sample_solver
              (new_LocateSolver LSCPB "LSCP-B" (new_LpProblem "LSCP-B" LpMaximize))
              sample_world) as (_ & _ & _ & _ & Hnone & _).
  by apply Hnone.
Defined.

Lemma LSCPB_needs_optimal_LSCP_witness :
  LSCPB_from_cost_matrix sample_cost_matrix 3 infeasible_solver None "LSCP-B" sample_world
  = (inl (RuntimeError "Infeasible"), count_solver_call sample_world).
Proof.
  assert (∃ m, LSCP_from_cost_matrix sample_cost_matrix 3 None "LSCP" sample_world
               = (inr m, sample_world)) as [m Hm]
    by (eexists; vm_compute; reflexivity).
  destruct (LSCPB_needs_optimal_LSCP sample_cost_matrix 3 infeasible_solver None
              "LSCP-B" sample_world) as [_ Hfail].
  rewrite (Hfail m sample_world Hm); [reflexivity|]. vm_compute. discriminate.
Defined.

Lemma from_geodataframe_uses_centroids_witness :
  LSCP_from_geodataframe euclidean_cdist sample_demand sample_zones
    "geometry" "geometry" 3 None default_distance_metric "LSCP" sample_world
  = LSCP_from_cost_matrix (mk_ndarray (2, 2) [[0; 3]; [5; 4]]%float) 3 None "LSCP"
      (mk_World
         ["Facility geodataframe contains mixed type geometries or is not a point. Be sure deriving centroid from geometries doesn't affect the results."]
         0).
Proof.
  destruct (from_geodataframe_uses_centroids euclidean_cdist matrix_max
              sample_demand sample_zones
              "geometry" "geometry" 3 None default_distance_metric "LSCP" sample_world
              [Point 0 0; Point 3 4]
              [Shape Polygon (0, 0); Shape Polygon (3, 0)]%float None) as [HLSCP _].
  - vm_compute. reflexivity.
  - vm_compute. reflexivity.
  - reflexivity.
  - reflexivity.
  - rewrite HLSCP. vm_compute. reflexivity.
Defined.

Lemma centroid_warnings_emitted_witness :
  (LSCP_from_geodataframe euclidean_cdist sample_demand sample_zones
     "geometry" "geometry" 3 None default_distance_metric "LSCP" sample_world).2
  = mk_World
      ["Facility geodataframe contains mixed type geometries or is not a point. Be sure deriving centroid from geometries doesn't affect the results."]
      0.
Proof.
  destruct (centroid_warnings_emitted euclidean_cdist matrix_max
              sample_demand sample_zones
              "geometry" "geometry" 3 None default_distance_metric "LSCP" sample_world
              [Point 0 0; Point 3 4]
              [Shape Polygon (0, 0); Shape Polygon (3, 0)]%float None) as [HLSCP _].
  - vm_compute. reflexivity.
  - vm_compute. reflexivity.
  - reflexivity.
  - rewrite HLSCP. vm_compute. reflexivity.
Defined.

Lemma from_geodataframe_missing_column_witness :
  LSCP_from_geodataframe euclidean_cdist sample_demand sample_facilities
    "geom" "geometry" 3 None default_distance_metric "LSCP" sample_world
  = (inl (KeyError "geom"), sample_world).
Proof.
  destruct (from_geodataframe_missing_column euclidean_cdist
              sample_demand sample_facilities
              "geom" "geometry" 3 None default_distance_metric "LSCP" sample_world)
    as [_ Hcols].
  destruct (Hcols None) as [Hdem _]; [reflexivity|].
  apply Hdem. vm_compute. reflexivity.
Defined.

Lemma MCLP_weights_one_per_client_witness :
  ∃ msg,
    MCLP_from_cost_matrix sample_cost_matrix short_weights 3 1 None "MCLP" sample_world
    = (inl (ValueError msg), sample_world).
Proof.
  destruct (MCLP_weights_one_per_client sample_cost_matrix short_weights 3 1 "MCLP"
              sample_world sample_cost_matrix_ok) as [Hshort _].
  apply Hshort. vm_compute. lia.
Defined.

Lemma gap_cost_matrix_ok : ndarray_ok gap_cost_matrix.
Proof. split; [done|]. repeat constructor. Qed.

Lemma nan_is_never_covered_witness :
  ∃ m a,
    LSCP_from_cost_matrix gap_cost_matrix 3 None "LSCP" sample_world
    = (inr m, sample_world) ∧
    aij m = Some a ∧ getitem2 a 0 1 = inr 0%float ∧ covers a 0 1 = false.
Proof.
  assert (∃ m, LSCP_from_cost_matrix gap_cost_matrix 3 None "LSCP" sample_world
               = (inr m, sample_world)) as [m Hm]
    by (eexists; vm_compute; reflexivity).
  destruct (nan_is_never_covered gap_cost_matrix 3 None "LSCP"
              sample_world sample_world m gap_cost_matrix_ok)
    as (a & Ha & Hnan); [by left|].
  exists m, a. split_and!; [done..| |]; apply (Hnan 0 1 nan); try reflexivity;
    left; reflexivity.
Defined.

Lemma objectives_of_built_models_witness :
  ∃ m fv,
    LSCP_from_cost_matrix sample_cost_matrix 3 None "LSCP" sample_world
    = (inr m, sample_world) ∧
    p_sense (problem m) = LpMinimize ∧
    fac_vars m = Some fv ∧ objective (problem m) = Some (lpSum fv).
Proof.
  assert (∃ m, LSCP_from_cost_matrix sample_cost_matrix 3 None "LSCP" sample_world
               = (inr m, sample_world)) as [m Hm]
    by (eexists; vm_compute; reflexivity).
  destruct (objectives_of_built_models matrix_max sample_cost_matrix 3 None "LSCP"
              sample_world sample_world m) as [HLSCP _].
  destruct (HLSCP Hm) as (Hsense & fv & Hfv & Hobj).
  by exists m, fv.
Defined.

Lemma coverage_grows_with_radius_witness :
  ∃ m m' a a',
    LSCP_from_cost_matrix sample_cost_matrix 3 None "LSCP" sample_world
    = (inr m, sample_world) ∧
    LSCP_from_cost_matrix sample_cost_matrix 5 None "LSCP" sample_world
    = (inr m', sample_world) ∧
    aij m = Some a ∧ aij m' = Some a' ∧
    (covers a 1 1 = true → covers a' 1 1 = true).
Proof.
  assert (∃ m, LSCP_from_cost_matrix sample_cost_matrix 3 None "LSCP" sample_world
               = (inr m, sample_world)) as [m Hm]
    by (eexists; vm_compute; reflexivity).
  assert (∃ m', LSCP_from_cost_matrix sample_cost_matrix 5 None "LSCP" sample_world
                = (inr m', sample_world)) as [m' Hm']
    by (eexists; vm_compute; reflexivity).
  destruct (coverage_grows_with_radius sample_cost_matrix 3 5 m m'
              sample_cost_matrix_ok) as (a & a' & Ha & Ha' & _ & Hgrow).
  - reflexivity.
  - exists None, "LSCP", sample_world, sample_world. by left.
  - exists None, "LSCP", sample_world, sample_world. by left.
  - exists m, m', a, a'. split_and!; [done..|]. apply Hgrow.
Defined.
